(** * artvel/display: the serial protocol of the NAS front-panel displays

    A shallow embedding of the Go package [display]: the Asustor protocol
    in two revisions (asustor.go, with its [asustorLCD] struct, and the
    revision of the [asustor] struct that has the lock and the retry
    counter), the QNAP protocol and the helpers of generic.go, followed by
    the properties of the specification that were checked against them.

    Conventions.
    - A Go [byte] is a [Byte.byte]; arithmetic on it wraps modulo 256
      ([byte_add]).  A Go [int] is a [Z]; [byte(x)] keeps the low 8 bits.
    - A Go [string] is a [String.string] (one [ascii] per byte, so
      [String.length] is Go's [len]); [[]byte(s)] is [list_byte_of_string].
    - A Go [error] result is an [option error], [None] being [nil].
    - The serial port is an external collaborator: every call on it takes
      its result from a script held in the [world], and leaves an entry in
      the world's log.
    - A buffered channel is a FIFO list with a capacity; a send on a full
      channel and a receive on an empty one do not complete, what the
      operations report as [Blocked]. *)

From Stdlib Require Import ZArith NArith List String Ascii Lia Bool Arith.
From Stdlib Require Import DecimalString.
From Stdlib Require Import Strings.Byte.
From Stdlib Require Import Sorting.Permutation.
Import ListNotations.

Local Open Scope list_scope.

(** ** Bytes *)

Definition byte_of_N (n : N) : byte :=
  match Byte.of_N (n mod 256) with
  | Some b => b
  | None => x00
  end.

(** Byte literal, written as in the source ([B 240], [B 0x12]). *)
Definition B (n : N) : byte := Eval cbv in byte_of_N n.

(** [s += bb] on [byte] values. *)
Definition byte_add (a b : byte) : byte :=
  byte_of_N (Byte.to_N a + Byte.to_N b).

(** [byte(x)] for an [int]: the low eight bits. *)
Definition byte_of_Z (z : Z) : byte := byte_of_N (Z.to_N (z mod 256)).

(** [int(b)] for a [byte]. *)
Definition int_of_byte (b : byte) : Z := Z.of_N (Byte.to_N b).

(** [bytes.Equal]. *)
Fixpoint bytes_Equal (a b : list byte) : bool :=
  match a, b with
  | [], [] => true
  | x :: a', y :: b' => Byte.eqb x y && bytes_Equal a' b'
  | _, _ => false
  end.

(** [bytes.HasPrefix s prefix]. *)
Fixpoint bytes_HasPrefix (s prefix : list byte) {struct prefix} : bool :=
  match prefix, s with
  | [], _ => true
  | p :: prefix', x :: s' => Byte.eqb x p && bytes_HasPrefix s' prefix'
  | _ :: _, [] => false
  end.

(** [l[n] = c], for [n] within the slice. *)
Fixpoint store (n : nat) (c : byte) (l : list byte) : list byte :=
  match l, n with
  | [], _ => []
  | _ :: l', O => c :: l'
  | x :: l', S n' => x :: store n' c l'
  end.

(** [strings.Repeat s n]. *)
Fixpoint Repeat (s : string) (n : nat) : string :=
  match n with
  | O => EmptyString
  | S n' => (s ++ Repeat s n')%string
  end.

(** ** generic.go *)

(** [type Line int]. *)
Definition Line := Z.

Definition LineOne : Line := 0%Z.
Definition LineTwo : Line := 1%Z.

Inductive error : Type :=
| ErrClosed              (* "display closed" *)
| ErrDisplayNotWorking   (* "display not working" *)
| ErrMsgSizeMismatch     (* "msg size mismatch" *)
| ErrWrittenSize         (* errors.New("written size does not match") *)
| ErrTransport (code : nat).  (* an error of the serial port *)

Definition prepareTxt (txt : string) : string :=
  let l := String.length txt in
  if 16 <? l then substring 0 16 txt
  else if l <? 16 then (txt ++ Repeat " " (16 - l))%string
  else txt.

(** [checksum]: the byte-wise sum, wrapping as [byte] addition does. *)
Definition checksum (b : list byte) : byte :=
  fold_left (fun s bb => byte_add s bb) b x00.

(** [makemsg] (the same in every Asustor revision): a copy of [msg] with
    room for one more byte, to which the checksum is appended. *)
Definition makemsg (msg : list byte) : list byte :=
  let data := msg in
  data ++ [checksum data].

(** A frame is valid when its last byte is the checksum of the bytes
    before it. *)
Definition valid_frame (res : list byte) : Prop :=
  last res x00 = checksum (removelast res).

(** The sum of the bytes of a sequence, as a number. *)
Definition byte_sum (b : list byte) : N :=
  fold_right (fun bb acc => (Byte.to_N bb + acc)%N) 0%N b.

(** A Go [int] has 64 bits on the machines of these displays: what an
    operation on it gives wraps into the range from [-2^63] to [2^63 - 1]. *)
Definition int_wrap (z : Z) : Z := ((z + 2 ^ 63) mod 2 ^ 64 - 2 ^ 63)%Z.

(** [strings.Repeat s count] with its [int] count: a negative count
    panics, what [None] stands for. *)
Definition strings_Repeat (s : string) (count : Z) : option string :=
  if (count <? 0)%Z then None else Some (Repeat s (Z.to_nat count)).

(** The string of the one byte 10, written ["\n"] in the source. *)
Definition newline : string := String (ascii_of_nat 10) EmptyString.

(** [percentOf]: the division of Go truncates toward zero, and panics
    ([None]) when the divisor is zero. *)
Definition percentOf (maxVal maxPercent currentPercent : Z) : option Z :=
  if (maxPercent =? 0)%Z then None
  else Some (int_wrap (Z.quot (int_wrap (maxVal * currentPercent)) maxPercent)).

(** [Progress]; [None] when it panics. *)
Definition Progress (perc : Z) : option string :=
  match percentOf 16 100 perc with
  | None => None
  | Some chars =>
    match strings_Repeat newline chars with
    | None => None
    | Some filled =>
      match strings_Repeat "-" (int_wrap (16 - chars)) with
      | None => None
      | Some rest => Some (filled ++ rest)%string
      end
    end
  end.

(** ** The serial port and the clock

    [github.com/chmorgan/go-serial2/serial] and the port behind it are
    outside the package.  The [port] is the script of what they answer,
    call by call; the [world] is that script together with how far each
    kind of call has advanced in it, the clock, and the log of the calls
    made so far (oldest first). *)

Inductive read_result : Type :=
| ReadData (data : list byte)   (* the port hands over these bytes *)
| ReadErr (e : error)           (* the read fails *)
| ReadSilent.                   (* nothing comes: the read does not return *)

Inductive io_event : Type :=
| IoOpen (tty : string) (baud : Z)
| IoWrite (data : list byte)
| IoRead
| IoClose
(* no call on the port, but what a wait for an acknowledgement ended with:
   the bytes of the frame received, or nothing when the timer fired *)
| IoAck (got : option (list byte)).

Record port : Type := {
  port_open : nat -> option error;
  port_write : nat -> list byte -> Z * option error;
  port_read : nat -> read_result;
  port_close : nat -> option error;
  (* how many turns of its loop the reader goroutine completes while the
     k-th wait with a timeout lasts *)
  port_sched : nat -> nat
}.

Record world : Type := {
  script : port;
  opens : nat;
  writes : nat;
  reads : nat;
  closes : nat;
  waits : nat;
  now : Z;                      (* time.Now(), in nanoseconds *)
  log : list io_event
}.

Definition Millisecond : Z := 1000000.
Definition ReadTimeout : Z := 300 * Millisecond.
Definition DefaultDelayBetweenWrites : Z := 10 * Millisecond.
Definition DefaultTTy : string := "/dev/ttyS1".

(** [serial.Open]. *)
Definition serial_Open (tty : string) (baud : Z) (w : world)
  : option error * world :=
  (port_open (script w) (opens w),
   {| script := script w; opens := S (opens w); writes := writes w;
      reads := reads w; closes := closes w; waits := waits w; now := now w;
      log := log w ++ [IoOpen tty baud] |}).

(** [con.Write(data)]: the count of bytes written and the error. *)
Definition con_Write (data : list byte) (w : world)
  : (Z * option error) * world :=
  (port_write (script w) (writes w) data,
   {| script := script w; opens := opens w; writes := S (writes w);
      reads := reads w; closes := closes w; waits := waits w; now := now w;
      log := log w ++ [IoWrite data] |}).

(** [con.Read(res)]: what the port answers to this read. *)
Definition con_Read (w : world) : read_result * world :=
  (port_read (script w) (reads w),
   {| script := script w; opens := opens w; writes := writes w;
      reads := S (reads w); closes := closes w; waits := waits w;
      now := now w; log := log w ++ [IoRead] |}).

(** [con.Close()]. *)
Definition con_Close (w : world) : option error * world :=
  (port_close (script w) (closes w),
   {| script := script w; opens := opens w; writes := writes w;
      reads := reads w; closes := S (closes w); waits := waits w;
      now := now w; log := log w ++ [IoClose] |}).

(** [time.Sleep(d)], and the passing of a timeout. *)
Definition sleep (d : Z) (w : world) : world :=
  {| script := script w; opens := opens w; writes := writes w;
     reads := reads w; closes := closes w; waits := waits w;
     now := (now w + d)%Z; log := log w |}.

(** An entry more in the log. *)
Definition note (e : io_event) (w : world) : world :=
  {| script := script w; opens := opens w; writes := writes w;
     reads := reads w; closes := closes w; waits := waits w;
     now := now w; log := log w ++ [e] |}.

(** The entries logged from [w] to [w']. *)
Definition since (w w' : world) : list io_event :=
  skipn (List.length (log w)) (log w').

(** One more wait with a timeout has begun. *)
Definition next_wait (w : world) : world :=
  {| script := script w; opens := opens w; writes := writes w;
     reads := reads w; closes := closes w; waits := S (waits w);
     now := now w; log := log w |}.

(** A read of [data] into a buffer of [n] bytes, all zero before: the
    buffer afterwards, and the count [i] of bytes read. *)
Definition fill (n : nat) (data : list byte) : list byte :=
  firstn n data ++ repeat x00 (n - List.length data).

Definition filled (n : nat) (data : list byte) : nat :=
  Nat.min n (List.length data).

(** What a call that may not come back answers. *)
Inductive outcome (A : Type) : Type :=
| Ret (x : A)     (* the call returns [x] *)
| Blocked         (* the call waits, on a channel or on the port *)
| Panicked        (* the goroutine panics *)
| Unfinished.     (* the steps granted to the model are used up *)

Arguments Ret {A} x.
Arguments Blocked {A}.
Arguments Panicked {A}.
Arguments Unfinished {A}.

(** A buffered channel: [ch <- x] completes when there is room. *)
Definition chan_send {A : Type} (cap : nat) (q : list A) (x : A)
  : option (list A) :=
  if List.length q <? cap then Some (q ++ [x]) else None.

(** The frames written to the port according to a log, in order. *)
Definition written (l : list io_event) : list (list byte) :=
  flat_map (fun e => match e with IoWrite d => [d] | _ => [] end) l.

(** What a step leaves of the world: the script, the count of writes and
    a log that only grows, here by [evs]. *)
Definition extends (w w' : world) (evs : list io_event) : Prop :=
  script w' = script w
  /\ writes w' = writes w + List.length (written evs)
  /\ log w' = log w ++ evs.

(** What [flush] answers when the port has answered [r] to the write. *)
Definition flushed (r : Z * option error) (data : list byte) : option error :=
  match snd r with
  | Some e => Some e
  | None =>
    if (fst r =? Z.of_nat (List.length data))%Z then None
    else Some ErrWrittenSize
  end.

(** The port takes every write whole. *)
Definition takes_writes (p : port) : Prop :=
  forall k d, port_write p k d = (Z.of_nat (List.length d), None).

(** How the waits for an acknowledgement noted in a log ended. *)
Definition acks (l : list io_event) : list (option (list byte)) :=
  flat_map (fun e => match e with IoAck got => [got] | _ => [] end) l.

(** A callback of [Listen]: [func(btn int, released bool) bool]. *)
Definition callback : Type := Z -> bool -> bool.

(** ** Sequencing

    A method is a function of the struct it is called on and of the world;
    it answers with an [outcome] and leaves both changed.  [bind] runs the
    rest of a body only when the first part has returned. *)

Definition M (S A : Type) : Type := S -> world -> outcome A * S * world.

Definition ret {S A : Type} (x : A) : M S A := fun s w => (Ret x, s, w).

Definition bind {S A C : Type} (m : M S A) (k : A -> M S C) : M S C :=
  fun s w =>
    match m s w with
    | (Ret x, s', w') => k x s' w'
    | (Blocked, s', w') => (Blocked, s', w')
    | (Panicked, s', w') => (Panicked, s', w')
    | (Unfinished, s', w') => (Unfinished, s', w')
    end.

Definition get {S : Type} : M S S := fun s w => (Ret s, s, w).

Definition modify {S : Type} (f : S -> S) : M S unit :=
  fun s w => (Ret tt, f s, w).

Definition io {S A : Type} (f : world -> A * world) : M S A :=
  fun s w => let (x, w') := f w in (Ret x, s, w').

Definition block {S A : Type} : M S A := fun s w => (Blocked, s, w).

Definition panic {S A : Type} : M S A := fun s w => (Panicked, s, w).

Definition unfinished {S A : Type} : M S A := fun s w => (Unfinished, s, w).

Declare Scope go_scope.
Delimit Scope go_scope with go.
Notation "x <- m ;; k" := (bind m (fun x => k))
  (at level 61, m at next level, right associativity) : go_scope.
Notation "m ;; k" := (bind m (fun _ => k))
  (at level 61, right associativity) : go_scope.

(** The zero [time.Time] (year 1), in nanoseconds of the Unix clock. *)
Definition zeroTime : Z := (-62135596800000000000)%Z.

(** Where a goroutine stands in [Listen]: at the test of its loop, at the
    receive on the button channel, returned, or stopped by a panic. *)
Inductive listen_pc : Type := LTest | LRecv | LDone | LPanic.

(** A call of the callback: the button and the [released] flag. *)
Definition call : Type := (Z * bool)%type.

(** ** asustor.go: the [asustorLCD] revision

    No lock, no retry, no timeout on the wait for an acknowledgement, and
    a fresh five-byte buffer for every read. *)

Module AsustorLCD.

Local Open Scope go_scope.

Record asustorLCD : Type := {
  con : option nat;            (* nil, or the port of the k-th serial.Open *)
  readC : list (list byte);
  btnC : list (list byte);
  tty : string;
  open : bool;
  lastFlush : Z;
  cmdByte : byte;
  replyByte : byte;
  cmdDisplayStatus : list byte;
  cmdDisplayOff : list byte;
  cmdClearDisplay : list byte;
  cmdDisplayOn : list byte;
  cmdBtn : list byte;
  cmdRdy : list byte;
  cmdMsgSentCheck : list byte;
  (* not a field of the struct: whether the goroutine of [go a.read()]
     is still in its loop *)
  reading : bool
}.

(** [make(chan []byte, 20)]. *)
Definition chanCap : nat := 20.

Definition set_con (v : option nat) (a : asustorLCD) : asustorLCD :=
  {| con := v; readC := readC a; btnC := btnC a; tty := tty a;
     open := open a; lastFlush := lastFlush a; cmdByte := cmdByte a;
     replyByte := replyByte a; cmdDisplayStatus := cmdDisplayStatus a;
     cmdDisplayOff := cmdDisplayOff a; cmdClearDisplay := cmdClearDisplay a;
     cmdDisplayOn := cmdDisplayOn a; cmdBtn := cmdBtn a; cmdRdy := cmdRdy a;
     cmdMsgSentCheck := cmdMsgSentCheck a; reading := reading a |}.

Definition set_readC (v : list (list byte)) (a : asustorLCD) : asustorLCD :=
  {| con := con a; readC := v; btnC := btnC a; tty := tty a;
     open := open a; lastFlush := lastFlush a; cmdByte := cmdByte a;
     replyByte := replyByte a; cmdDisplayStatus := cmdDisplayStatus a;
     cmdDisplayOff := cmdDisplayOff a; cmdClearDisplay := cmdClearDisplay a;
     cmdDisplayOn := cmdDisplayOn a; cmdBtn := cmdBtn a; cmdRdy := cmdRdy a;
     cmdMsgSentCheck := cmdMsgSentCheck a; reading := reading a |}.

Definition set_btnC (v : list (list byte)) (a : asustorLCD) : asustorLCD :=
  {| con := con a; readC := readC a; btnC := v; tty := tty a;
     open := open a; lastFlush := lastFlush a; cmdByte := cmdByte a;
     replyByte := replyByte a; cmdDisplayStatus := cmdDisplayStatus a;
     cmdDisplayOff := cmdDisplayOff a; cmdClearDisplay := cmdClearDisplay a;
     cmdDisplayOn := cmdDisplayOn a; cmdBtn := cmdBtn a; cmdRdy := cmdRdy a;
     cmdMsgSentCheck := cmdMsgSentCheck a; reading := reading a |}.

Definition set_open (v : bool) (a : asustorLCD) : asustorLCD :=
  {| con := con a; readC := readC a; btnC := btnC a; tty := tty a;
     open := v; lastFlush := lastFlush a; cmdByte := cmdByte a;
     replyByte := replyByte a; cmdDisplayStatus := cmdDisplayStatus a;
     cmdDisplayOff := cmdDisplayOff a; cmdClearDisplay := cmdClearDisplay a;
     cmdDisplayOn := cmdDisplayOn a; cmdBtn := cmdBtn a; cmdRdy := cmdRdy a;
     cmdMsgSentCheck := cmdMsgSentCheck a; reading := reading a |}.

Definition set_lastFlush (v : Z) (a : asustorLCD) : asustorLCD :=
  {| con := con a; readC := readC a; btnC := btnC a; tty := tty a;
     open := open a; lastFlush := v; cmdByte := cmdByte a;
     replyByte := replyByte a; cmdDisplayStatus := cmdDisplayStatus a;
     cmdDisplayOff := cmdDisplayOff a; cmdClearDisplay := cmdClearDisplay a;
     cmdDisplayOn := cmdDisplayOn a; cmdBtn := cmdBtn a; cmdRdy := cmdRdy a;
     cmdMsgSentCheck := cmdMsgSentCheck a; reading := reading a |}.

Definition set_reading (v : bool) (a : asustorLCD) : asustorLCD :=
  {| con := con a; readC := readC a; btnC := btnC a; tty := tty a;
     open := open a; lastFlush := lastFlush a; cmdByte := cmdByte a;
     replyByte := replyByte a; cmdDisplayStatus := cmdDisplayStatus a;
     cmdDisplayOff := cmdDisplayOff a; cmdClearDisplay := cmdClearDisplay a;
     cmdDisplayOn := cmdDisplayOn a; cmdBtn := cmdBtn a; cmdRdy := cmdRdy a;
     cmdMsgSentCheck := cmdMsgSentCheck a; reading := v |}.

(** The struct that [NewAsustorLCD] builds before it calls [Open]. *)
Definition newLCD (tty : string) : asustorLCD :=
  let cmdByte := B 0xF0 in
  let replyByte := B 0xF1 in
  let cmdRdy := [replyByte; B 1] in
  {| con := None; readC := []; btnC := []; tty := tty; open := false;
     lastFlush := zeroTime;
     cmdByte := cmdByte;
     replyByte := replyByte;
     cmdDisplayStatus := [cmdByte; B 1; B 17; B 1];
     cmdDisplayOff := [cmdByte; B 1; B 17; B 0];
     cmdClearDisplay := [cmdByte; B 1; B 18; B 1];
     cmdDisplayOn := [cmdByte; B 1; B 34; B 0];
     cmdBtn := [cmdByte; B 1; B 128];
     cmdRdy := cmdRdy;
     cmdMsgSentCheck := cmdRdy ++ [B 39; B 0; B 25];
     reading := false |}.

(** The session without what [Open], [Close], the reader and the pause
    between writes change: two states with the same [core] have the same
    port and the same commands. *)
Definition core (a : asustorLCD) : asustorLCD :=
  set_readC [] (set_btnC [] (set_open false (set_lastFlush 0%Z
    (set_reading false a)))).

(** An answer of the port that passes the readiness check: five bytes in
    time, the first of them [cmdRdy]. *)
Definition ready_reply (a : asustorLCD) (r : read_result) : bool :=
  match r with
  | ReadData data =>
    (5 <=? List.length data) && bytes_HasPrefix (firstn 5 data) (cmdRdy a)
  | ReadErr _ | ReadSilent => false
  end.

Definition strToBytes (a : asustorLCD) (line : Line) (text : string)
  : list byte :=
  let text :=
    if 16 <? String.length text then substring 0 16 text else text in
  let text :=
    if String.length text <? 16
    then (text ++ Repeat " " (16 - String.length text))%string
    else text in
  [cmdByte a; B 0x12; B 0x27; byte_of_Z line; B 0]
    ++ list_byte_of_string text.

Definition wait10MillisForSureBetweenWrites : M asustorLCD unit :=
  fun a w =>
    let timeDiff := (lastFlush a + DefaultDelayBetweenWrites - now w)%Z in
    let w := if (0 <? timeDiff)%Z then sleep timeDiff w else w in
    (Ret tt, set_lastFlush (now w) a, w).

(** [flush]: write synchronously to the serial port.  A call on a nil
    [a.con] panics. *)
Definition flush (data : list byte) : M asustorLCD (option error) :=
  let data := makemsg data in
  wait10MillisForSureBetweenWrites ;;
  a <- get ;;
  match con a with
  | None => panic
  | Some _ =>
    r <- io (con_Write data) ;;
    match snd r with
    | Some e => ret (Some e)
    | None =>
      if (fst r =? Z.of_nat (List.length data))%Z then ret None
      else ret (Some ErrWrittenSize)
    end
  end.

Definition forceClose : M asustorLCD (option error) :=
  modify (set_open false) ;;
  a <- get ;;
  match con a with
  | None => ret None
  | Some _ => io con_Close
  end.

(** [Close]: close the serial connection. *)
Definition Close : M asustorLCD (option error) :=
  a <- get ;;
  if negb (open a) then ret None else forceClose.

(** [readWithTimeout]: the read and the timer of [ReadTimeout] run side
    by side and the call returns after two [Done].  A read that succeeds
    in time gives both.  A read that fails in time gives one, and the
    timer, finding nothing received, closes the session, sets
    [ErrDisplayNotWorking] and gives the other.  When nothing comes the
    timer does the same first and the read, on the closed port, ends with
    an error of its own: which of the two errors is returned is a race,
    neither is nil.  The answer is the count, the error and the buffer.
    A read on a nil [a.con] panics. *)
Definition readWithTimeout (n : nat)
  : M asustorLCD (nat * option error * list byte) :=
  a <- get ;;
  match con a with
  | None => panic
  | Some _ =>
    r <- io con_Read ;;
    match r with
    | ReadData data => ret (filled n data, None, fill n data)
    | ReadErr _ | ReadSilent =>
      io (fun w => (tt, sleep ReadTimeout w)) ;;
      forceClose ;;
      ret (O, Some ErrDisplayNotWorking, repeat x00 n)
    end
  end.

Definition isReady : M asustorLCD bool :=
  r <- readWithTimeout 5 ;;
  let '(i, er, res) := r in
  a <- get ;;
  match er with
  | Some _ => ret false
  | None =>
    if negb (i =? List.length res) then ret false
    else if bytes_HasPrefix res (cmdRdy a) then ret true
    else ret false
  end.

(** The end of a successful [Open]: the session is open and the reader
    goroutine starts. *)
Definition opened : M asustorLCD (option error) :=
  modify (set_open true) ;;
  modify (set_reading true) ;;
  ret None.

(** [a.con.Close()] with its error dropped, then [return err]. *)
Definition close_and_return (err : option error)
  : M asustorLCD (option error) :=
  io con_Close ;; ret err.

Definition Open : M asustorLCD (option error) :=
  a <- get ;;
  if open a then ret None else
  match con a with
   | Some _ => io con_Close ;; ret tt
   | None => ret tt
   end ;;
  k <- io (fun w => (opens w, w)) ;;
  err <- io (serial_Open (tty a) 115200) ;;
  match err with
  | Some e => modify (set_con None) ;; ret (Some e)
  | None =>
    modify (set_con (Some k)) ;;
    err <- flush (cmdDisplayStatus a) ;;
    match err with
    | Some e => close_and_return (Some e)
    | None =>
      ready <- isReady ;;
      if ready then opened else
      err <- flush (cmdClearDisplay a) ;;
      match err with
      | Some e => close_and_return (Some e)
      | None =>
        ready <- isReady ;;
        if ready then opened else
        err <- flush (cmdDisplayStatus a) ;;
        match err with
        | Some e => close_and_return (Some e)
        | None =>
          ready <- isReady ;;
          if ready then opened
          else close_and_return (Some ErrDisplayNotWorking)
        end
      end
    end
  end.

Definition NewAsustorLCD (tty : string) (w : world)
  : outcome (option asustorLCD * option error) * world :=
  let tty := if String.eqb tty EmptyString then DefaultTTy else tty in
  match Open (newLCD tty) w with
  | (Ret (Some e), _, w') => (Ret (None, Some e), w')
  | (Ret None, m, w') => (Ret (Some m, None), w')
  | (Blocked, _, w') => (Blocked, w')
  | (Panicked, _, w') => (Panicked, w')
  | (Unfinished, _, w') => (Unfinished, w')
  end.

Definition Enable (yes : bool) : M asustorLCD (option error) :=
  a <- get ;;
  if negb (open a) then ret (Some ErrClosed)
  else if yes then flush (cmdDisplayOn a)
  else flush (cmdDisplayOff a).

(** One turn of the loop of [read].  The turn is taken as a whole: when
    the port has nothing ([ReadSilent]) or the channel the frame goes to
    is full, the goroutine waits and the turn is not taken.  The answer
    tells whether the loop goes on. *)
Definition read_turn : M asustorLCD bool :=
  fun a w =>
    if negb (reading a) then (Ret false, a, w)
    else if negb (open a) then (Ret false, set_reading false a, w)
    else
      match con a, port_read (script w) (reads w) with
      | None, _ => (Panicked, a, w)
      | Some _, ReadSilent => (Blocked, a, w)
      | Some _, ReadErr _ =>
        (Ret false, set_reading false a, snd (con_Read w))
      | Some _, ReadData data =>
        let res := fill 5 data in
        if bytes_HasPrefix res (cmdBtn a) then
          match chan_send chanCap (btnC a) res with
          | Some q => (Ret true, set_btnC q a, snd (con_Read w))
          | None => (Blocked, a, w)
          end
        else
          match chan_send chanCap (readC a) res with
          | Some q => (Ret true, set_readC q a, snd (con_Read w))
          | None => (Blocked, a, w)
          end
      end.

(** The reader goroutine takes up to [n] turns. *)
Fixpoint read_turns (n : nat) (a : asustorLCD) (w : world)
  : asustorLCD * world :=
  match n with
  | O => (a, w)
  | S n' =>
    match read_turn a w with
    | (Ret true, a', w') => read_turns n' a' w'
    | (_, a', w') => (a', w')
    end
  end.

(** [res := <-a.readC], for a goroutine that has reached the receive.
    On an empty channel the reader is given the turns of the schedule;
    the receive is [Blocked] when the channel is still empty after them. *)
Definition recv_readC : M asustorLCD (list byte) :=
  fun a w =>
    let '(a, w) :=
      match readC a with
      | [] => read_turns (port_sched (script w) (waits w)) a (next_wait w)
      | _ :: _ => (a, w)
      end in
    match readC a with
    | [] => (Blocked, a, w)
    | res :: q => (Ret res, set_readC q a, w)
    end.

Definition isMsgSent : M asustorLCD bool :=
  a <- get ;;
  if open a then
    res <- recv_readC ;;
    if bytes_Equal res (cmdMsgSentCheck a) then ret true else ret false
  else ret false.

(** [Write]: write messages to the display. *)
Definition Write (line : Line) (text : string) : M asustorLCD (option error) :=
  a <- get ;;
  if negb (open a) then ret (Some ErrClosed) else
  err <- flush (strToBytes a line text) ;;
  match err with
  | Some e => ret (Some e)
  | None =>
    sent <- isMsgSent ;;
    if negb sent then ret (Some ErrDisplayNotWorking) else ret err
  end.

(** [Listen], entered: the first test of [a.open]. *)
Definition Listen_enter (a : asustorLCD) : listen_pc :=
  if negb (open a) then LDone else LTest.

(** One step of the goroutine in [Listen]; a receive on the empty channel
    leaves everything as it is.  The third component is the call of the
    callback made in this step. *)
Definition Listen_step (l : callback) (pc : listen_pc) (a : asustorLCD)
  : listen_pc * asustorLCD * option call :=
  match pc with
  | LTest => (if open a then LRecv else LDone, a, None)
  | LRecv =>
    match btnC a with
    | [] => (LRecv, a, None)
    | res :: q =>
      match nth_error res 3 with
      | None => (LPanic, set_btnC q a, None)
      | Some b =>
        (if l (int_of_byte b) true then LTest else LDone,
         set_btnC q a, Some (int_of_byte b, true))
      end
    end
  | LDone => (LDone, a, None)
  | LPanic => (LPanic, a, None)
  end.

(** [n] steps of [Listen], with the calls made, in order. *)
Fixpoint Listen_steps (n : nat) (l : callback) (pc : listen_pc)
  (a : asustorLCD) : listen_pc * asustorLCD * list call :=
  match n with
  | O => (pc, a, [])
  | S n' =>
    let '(pc1, a1, c) := Listen_step l pc a in
    let '(pc2, a2, cs) := Listen_steps n' l pc1 a1 in
    (pc2, a2, match c with Some x => x :: cs | None => cs end)
  end.

End AsustorLCD.

(** ** The [asustor] revision with the lock and the retry counter

    [Open], [Write], [Enable] and [Close] hold [a.m] from entry to return,
    so they never overlap: each is one function of the state.  [Listen]
    and the reader goroutine take no lock.

    The reader hands [buf.Bytes()] to [pass]: a slice of the array behind
    its buffer, which [buf.Reset()] keeps and the next bytes overwrite.
    The channels therefore hold slices, and a frame is read through
    [view], at the moment it is looked at. *)

Module Asustor.

Local Open Scope go_scope.

Inductive slice : Type :=
| BufBytes                  (* buf.Bytes(): the first five bytes of the array *)
| Bytes (data : list byte). (* a slice with an array of its own *)

Record asustor : Type := {
  con : option nat;   (* nil, or the port of the k-th serial.Open *)
  readC : list slice;
  btnC : list slice;
  tty : string;
  open : bool;
  keepListening : bool;
  retry : byte;
  lastFlush : Z;
  cmdByte : byte;
  replyByte : byte;
  cmdDisplayStatus : list byte;
  cmdDisplayOff : list byte;
  cmdClearDisplay : list byte;
  cmdDisplayOn : list byte;
  cmdBtn : list byte;
  cmdRdy : list byte;
  cmdOkayCheck : list byte;
  replyOkayCheck1 : list byte;
  replyOkayCheck2 : list byte;
  replyOkayCheck3 : list byte;
  replyMsgSentCheck : list byte;
  msgSize : nat;
  (* not fields of the struct, but the goroutine of [go a.read()]: whether
     it is still in its loop, and its locals [buf] (the array behind the
     buffer and the length written) and [startFound] *)
  reading : bool;
  bufArray : list byte;
  bufLen : nat;
  startFound : bool
}.

Definition set_con (v : option nat) (a : asustor) : asustor :=
  {| con := v; readC := readC a; btnC := btnC a; tty := tty a;
     open := open a; keepListening := keepListening a; retry := retry a;
     lastFlush := lastFlush a; cmdByte := cmdByte a;
     replyByte := replyByte a; cmdDisplayStatus := cmdDisplayStatus a;
     cmdDisplayOff := cmdDisplayOff a; cmdClearDisplay := cmdClearDisplay a;
     cmdDisplayOn := cmdDisplayOn a; cmdBtn := cmdBtn a; cmdRdy := cmdRdy a;
     cmdOkayCheck := cmdOkayCheck a; replyOkayCheck1 := replyOkayCheck1 a;
     replyOkayCheck2 := replyOkayCheck2 a;
     replyOkayCheck3 := replyOkayCheck3 a;
     replyMsgSentCheck := replyMsgSentCheck a; msgSize := msgSize a;
     reading := reading a; bufArray := bufArray a; bufLen := bufLen a;
     startFound := startFound a |}.

Definition set_readC (v : list slice) (a : asustor) : asustor :=
  {| con := con a; readC := v; btnC := btnC a; tty := tty a; open := open a;
     keepListening := keepListening a; retry := retry a;
     lastFlush := lastFlush a; cmdByte := cmdByte a;
     replyByte := replyByte a; cmdDisplayStatus := cmdDisplayStatus a;
     cmdDisplayOff := cmdDisplayOff a; cmdClearDisplay := cmdClearDisplay a;
     cmdDisplayOn := cmdDisplayOn a; cmdBtn := cmdBtn a; cmdRdy := cmdRdy a;
     cmdOkayCheck := cmdOkayCheck a; replyOkayCheck1 := replyOkayCheck1 a;
     replyOkayCheck2 := replyOkayCheck2 a;
     replyOkayCheck3 := replyOkayCheck3 a;
     replyMsgSentCheck := replyMsgSentCheck a; msgSize := msgSize a;
     reading := reading a; bufArray := bufArray a; bufLen := bufLen a;
     startFound := startFound a |}.

Definition set_btnC (v : list slice) (a : asustor) : asustor :=
  {| con := con a; readC := readC a; btnC := v; tty := tty a; open := open a;
     keepListening := keepListening a; retry := retry a;
     lastFlush := lastFlush a; cmdByte := cmdByte a;
     replyByte := replyByte a; cmdDisplayStatus := cmdDisplayStatus a;
     cmdDisplayOff := cmdDisplayOff a; cmdClearDisplay := cmdClearDisplay a;
     cmdDisplayOn := cmdDisplayOn a; cmdBtn := cmdBtn a; cmdRdy := cmdRdy a;
     cmdOkayCheck := cmdOkayCheck a; replyOkayCheck1 := replyOkayCheck1 a;
     replyOkayCheck2 := replyOkayCheck2 a;
     replyOkayCheck3 := replyOkayCheck3 a;
     replyMsgSentCheck := replyMsgSentCheck a; msgSize := msgSize a;
     reading := reading a; bufArray := bufArray a; bufLen := bufLen a;
     startFound := startFound a |}.

Definition set_open (v : bool) (a : asustor) : asustor :=
  {| con := con a; readC := readC a; btnC := btnC a; tty := tty a; open := v;
     keepListening := keepListening a; retry := retry a;
     lastFlush := lastFlush a; cmdByte := cmdByte a;
     replyByte := replyByte a; cmdDisplayStatus := cmdDisplayStatus a;
     cmdDisplayOff := cmdDisplayOff a; cmdClearDisplay := cmdClearDisplay a;
     cmdDisplayOn := cmdDisplayOn a; cmdBtn := cmdBtn a; cmdRdy := cmdRdy a;
     cmdOkayCheck := cmdOkayCheck a; replyOkayCheck1 := replyOkayCheck1 a;
     replyOkayCheck2 := replyOkayCheck2 a;
     replyOkayCheck3 := replyOkayCheck3 a;
     replyMsgSentCheck := replyMsgSentCheck a; msgSize := msgSize a;
     reading := reading a; bufArray := bufArray a; bufLen := bufLen a;
     startFound := startFound a |}.

Definition set_keepListening (v : bool) (a : asustor) : asustor :=
  {| con := con a; readC := readC a; btnC := btnC a; tty := tty a;
     open := open a; keepListening := v; retry := retry a;
     lastFlush := lastFlush a; cmdByte := cmdByte a;
     replyByte := replyByte a; cmdDisplayStatus := cmdDisplayStatus a;
     cmdDisplayOff := cmdDisplayOff a; cmdClearDisplay := cmdClearDisplay a;
     cmdDisplayOn := cmdDisplayOn a; cmdBtn := cmdBtn a; cmdRdy := cmdRdy a;
     cmdOkayCheck := cmdOkayCheck a; replyOkayCheck1 := replyOkayCheck1 a;
     replyOkayCheck2 := replyOkayCheck2 a;
     replyOkayCheck3 := replyOkayCheck3 a;
     replyMsgSentCheck := replyMsgSentCheck a; msgSize := msgSize a;
     reading := reading a; bufArray := bufArray a; bufLen := bufLen a;
     startFound := startFound a |}.

Definition set_retry (v : byte) (a : asustor) : asustor :=
  {| con := con a; readC := readC a; btnC := btnC a; tty := tty a;
     open := open a; keepListening := keepListening a; retry := v;
     lastFlush := lastFlush a; cmdByte := cmdByte a;
     replyByte := replyByte a; cmdDisplayStatus := cmdDisplayStatus a;
     cmdDisplayOff := cmdDisplayOff a; cmdClearDisplay := cmdClearDisplay a;
     cmdDisplayOn := cmdDisplayOn a; cmdBtn := cmdBtn a; cmdRdy := cmdRdy a;
     cmdOkayCheck := cmdOkayCheck a; replyOkayCheck1 := replyOkayCheck1 a;
     replyOkayCheck2 := replyOkayCheck2 a;
     replyOkayCheck3 := replyOkayCheck3 a;
     replyMsgSentCheck := replyMsgSentCheck a; msgSize := msgSize a;
     reading := reading a; bufArray := bufArray a; bufLen := bufLen a;
     startFound := startFound a |}.

Definition set_lastFlush (v : Z) (a : asustor) : asustor :=
  {| con := con a; readC := readC a; btnC := btnC a; tty := tty a;
     open := open a; keepListening := keepListening a; retry := retry a;
     lastFlush := v; cmdByte := cmdByte a; replyByte := replyByte a;
     cmdDisplayStatus := cmdDisplayStatus a;
     cmdDisplayOff := cmdDisplayOff a; cmdClearDisplay := cmdClearDisplay a;
     cmdDisplayOn := cmdDisplayOn a; cmdBtn := cmdBtn a; cmdRdy := cmdRdy a;
     cmdOkayCheck := cmdOkayCheck a; replyOkayCheck1 := replyOkayCheck1 a;
     replyOkayCheck2 := replyOkayCheck2 a;
     replyOkayCheck3 := replyOkayCheck3 a;
     replyMsgSentCheck := replyMsgSentCheck a; msgSize := msgSize a;
     reading := reading a; bufArray := bufArray a; bufLen := bufLen a;
     startFound := startFound a |}.

Definition set_reading (v : bool) (a : asustor) : asustor :=
  {| con := con a; readC := readC a; btnC := btnC a; tty := tty a;
     open := open a; keepListening := keepListening a; retry := retry a;
     lastFlush := lastFlush a; cmdByte := cmdByte a;
     replyByte := replyByte a; cmdDisplayStatus := cmdDisplayStatus a;
     cmdDisplayOff := cmdDisplayOff a; cmdClearDisplay := cmdClearDisplay a;
     cmdDisplayOn := cmdDisplayOn a; cmdBtn := cmdBtn a; cmdRdy := cmdRdy a;
     cmdOkayCheck := cmdOkayCheck a; replyOkayCheck1 := replyOkayCheck1 a;
     replyOkayCheck2 := replyOkayCheck2 a;
     replyOkayCheck3 := replyOkayCheck3 a;
     replyMsgSentCheck := replyMsgSentCheck a; msgSize := msgSize a;
     reading := v; bufArray := bufArray a; bufLen := bufLen a;
     startFound := startFound a |}.

Definition set_bufArray (v : list byte) (a : asustor) : asustor :=
  {| con := con a; readC := readC a; btnC := btnC a; tty := tty a;
     open := open a; keepListening := keepListening a; retry := retry a;
     lastFlush := lastFlush a; cmdByte := cmdByte a;
     replyByte := replyByte a; cmdDisplayStatus := cmdDisplayStatus a;
     cmdDisplayOff := cmdDisplayOff a; cmdClearDisplay := cmdClearDisplay a;
     cmdDisplayOn := cmdDisplayOn a; cmdBtn := cmdBtn a; cmdRdy := cmdRdy a;
     cmdOkayCheck := cmdOkayCheck a; replyOkayCheck1 := replyOkayCheck1 a;
     replyOkayCheck2 := replyOkayCheck2 a;
     replyOkayCheck3 := replyOkayCheck3 a;
     replyMsgSentCheck := replyMsgSentCheck a; msgSize := msgSize a;
     reading := reading a; bufArray := v; bufLen := bufLen a;
     startFound := startFound a |}.

Definition set_bufLen (v : nat) (a : asustor) : asustor :=
  {| con := con a; readC := readC a; btnC := btnC a; tty := tty a;
     open := open a; keepListening := keepListening a; retry := retry a;
     lastFlush := lastFlush a; cmdByte := cmdByte a;
     replyByte := replyByte a; cmdDisplayStatus := cmdDisplayStatus a;
     cmdDisplayOff := cmdDisplayOff a; cmdClearDisplay := cmdClearDisplay a;
     cmdDisplayOn := cmdDisplayOn a; cmdBtn := cmdBtn a; cmdRdy := cmdRdy a;
     cmdOkayCheck := cmdOkayCheck a; replyOkayCheck1 := replyOkayCheck1 a;
     replyOkayCheck2 := replyOkayCheck2 a;
     replyOkayCheck3 := replyOkayCheck3 a;
     replyMsgSentCheck := replyMsgSentCheck a; msgSize := msgSize a;
     reading := reading a; bufArray := bufArray a; bufLen := v;
     startFound := startFound a |}.

Definition set_startFound (v : bool) (a : asustor) : asustor :=
  {| con := con a; readC := readC a; btnC := btnC a; tty := tty a;
     open := open a; keepListening := keepListening a; retry := retry a;
     lastFlush := lastFlush a; cmdByte := cmdByte a;
     replyByte := replyByte a; cmdDisplayStatus := cmdDisplayStatus a;
     cmdDisplayOff := cmdDisplayOff a; cmdClearDisplay := cmdClearDisplay a;
     cmdDisplayOn := cmdDisplayOn a; cmdBtn := cmdBtn a; cmdRdy := cmdRdy a;
     cmdOkayCheck := cmdOkayCheck a; replyOkayCheck1 := replyOkayCheck1 a;
     replyOkayCheck2 := replyOkayCheck2 a;
     replyOkayCheck3 := replyOkayCheck3 a;
     replyMsgSentCheck := replyMsgSentCheck a; msgSize := msgSize a;
     reading := reading a; bufArray := bufArray a; bufLen := bufLen a;
     startFound := v |}.

(** [make(chan []byte, 100)]. *)
Definition chanCap : nat := 100.

(** The bytes a slice shows now. *)
Definition view (a : asustor) (s : slice) : list byte :=
  match s with
  | BufBytes => firstn 5 (bufArray a)
  | Bytes data => data
  end.

(** The session without what the reader goroutine, the receives and the
    pause between writes change: two states with the same [core] differ
    at most in the channels, the reader's locals and [lastFlush]. *)
Definition core (a : asustor) : asustor :=
  set_readC [] (set_btnC [] (set_lastFlush 0%Z (set_reading false
    (set_bufArray [] (set_bufLen 0 (set_startFound false a)))))).

(** The struct that [NewAsustorLCD] builds before it calls [Open]. *)
Definition newLCD (tty : string) : asustor :=
  let cmdByte := B 240 in
  let replyByte := B 241 in
  {| con := None; readC := []; btnC := []; tty := tty; open := false;
     keepListening := false; retry := B 0; lastFlush := zeroTime;
     cmdByte := cmdByte;
     replyByte := replyByte;
     cmdDisplayStatus := [cmdByte; B 1; B 17; B 1];
     cmdDisplayOff := [cmdByte; B 1; B 17; B 0];
     cmdClearDisplay := [cmdByte; B 1; B 18; B 1];
     cmdDisplayOn := [cmdByte; B 1; B 34; B 0];
     cmdBtn := [cmdByte; B 1; B 128];
     cmdRdy := [];
     cmdOkayCheck := [];
     replyOkayCheck1 := [replyByte; B 1; B 17; B 0; B 3];
     replyOkayCheck2 := [replyByte; B 1; B 17; B 4; B 7];
     replyOkayCheck3 := [replyByte; B 1; B 39; B 4; B 29];
     replyMsgSentCheck := [replyByte; B 1; B 39; B 0; B 25];
     msgSize := 5;
     reading := false; bufArray := repeat x00 64; bufLen := 0;
     startFound := false |}.

Definition createMsg (a : asustor) (line : Line) (text : list byte)
  : list byte :=
  [cmdByte a; B 0x12; B 0x27; byte_of_Z line; B 0] ++ text.

Definition strToBytes (a : asustor) (line : Line) (text : string)
  : list byte :=
  createMsg a line (list_byte_of_string (prepareTxt text)).

Definition waitForFlushBetweenWrites : M asustor unit :=
  fun a w =>
    let timeDiff := (lastFlush a + 10 * Millisecond - now w)%Z in
    let w := if (0 <? timeDiff)%Z then sleep timeDiff w else w in
    (Ret tt, set_lastFlush (now w) a, w).

(** [flush]: write synchronously to the serial port.  A call on a nil
    [a.con] panics. *)
Definition flush (data : list byte) : M asustor (option error) :=
  let data := makemsg data in
  waitForFlushBetweenWrites ;;
  a <- get ;;
  match con a with
  | None => panic
  | Some _ =>
    r <- io (con_Write data) ;;
    match snd r with
    | Some e => ret (Some e)
    | None =>
      if (fst r =? Z.of_nat (List.length data))%Z then ret None
      else ret (Some ErrWrittenSize)
    end
  end.

(** [pass]: by its first bytes a frame goes to the button channel or to
    the read channel.  [None] when the channel is full. *)
Definition pass (res : slice) (a : asustor) : option asustor :=
  if bytes_HasPrefix (view a res) (cmdBtn a) then
    match chan_send chanCap (btnC a) res with
    | Some q => Some (set_btnC q a)
    | None => None
    end
  else
    match chan_send chanCap (readC a) res with
    | Some q => Some (set_readC q a)
    | None => None
    end.

(** [buf.WriteByte(c)], within the 64 bytes of the array. *)
Definition WriteByte (c : byte) (a : asustor) : asustor :=
  set_bufLen (S (bufLen a)) (set_bufArray (store (bufLen a) c (bufArray a)) a).

(** [buf.Reset()]: the length is zero again, the array stays. *)
Definition Reset (a : asustor) : asustor := set_bufLen 0 a.

(** The inner loop of [read] over the bytes just read.  [None] when a
    frame cannot be passed because its channel is full. *)
Fixpoint scan (res : list byte) (a : asustor) : option asustor :=
  match res with
  | [] => Some a
  | c :: rest =>
    if startFound a || Byte.eqb c (replyByte a) || Byte.eqb c (cmdByte a)
    then
      let a := set_startFound true a in
      let a := WriteByte c a in
      if bufLen a =? 5 then
        let a := set_startFound false a in
        match pass BufBytes a with
        | Some a => scan rest (Reset a)
        | None => None
        end
      else scan rest a
    else scan rest a
  end.

(** One turn of the outer loop of [read].  The turn is taken as a whole:
    when the port has nothing ([ReadSilent]) or a frame cannot be passed,
    the goroutine waits and the turn is not taken.  The answer tells
    whether the loop goes on.  A read on a nil [a.con] panics. *)
Definition read_turn : M asustor bool :=
  fun a w =>
    if negb (reading a) then (Ret false, a, w)
    else if negb (open a) then (Ret false, set_reading false a, w)
    else
      match con a, port_read (script w) (reads w) with
      | None, _ => (Panicked, a, w)
      | Some _, ReadSilent => (Blocked, a, w)
      | Some _, ReadErr _ =>
        (Ret false, set_reading false a, snd (con_Read w))
      | Some _, ReadData data =>
        if negb (open a)
        then (Ret false, set_reading false a, snd (con_Read w))
        else
          match scan (firstn (msgSize a) data) a with
          | Some a' => (Ret true, a', snd (con_Read w))
          | None => (Blocked, a, w)
          end
      end.

(** The reader goroutine takes up to [n] turns. *)
Fixpoint read_turns (n : nat) (a : asustor) (w : world) : asustor * world :=
  match n with
  | O => (a, w)
  | S n' =>
    match read_turn a w with
    | (Ret true, a', w') => read_turns n' a' w'
    | (_, a', w') => (a', w')
    end
  end.

(** [go a.read()]: a new reader with a buffer of its own.  The frames
    still queued keep the bytes of the array of the reader before, which
    has ended and writes no more. *)
Definition go_read : M asustor unit :=
  modify (fun a =>
    let keep := map (fun s => Bytes (view a s)) in
    set_startFound false
      (set_bufLen 0
        (set_bufArray (repeat x00 64)
          (set_reading true
            (set_btnC (keep (btnC a)) (set_readC (keep (readC a)) a)))))).

(** [responseEqual]: the select between the read channel and the timer of
    40 ms.  On an empty channel the reader is given the turns of the
    schedule for this wait; the timer wins when the channel is still
    empty after them.  How the wait ended is noted in the log. *)
Definition responseEqual (checks : list (list byte)) : M asustor bool :=
  fun a w =>
    let '(a, w) :=
      match readC a with
      | [] => read_turns (port_sched (script w) (waits w)) a (next_wait w)
      | _ :: _ => (a, next_wait w)
      end in
    match readC a with
    | res :: q =>
      let a := set_readC q a in
      let w := note (IoAck (Some (view a res))) w in
      if negb (open a) then (Ret false, a, w)
      else (Ret (existsb (bytes_Equal (view a res)) checks), a, w)
    | [] => (Ret false, a, note (IoAck None) (sleep (40 * Millisecond) w))
    end.

Definition forceClose : M asustor (option error) :=
  modify (set_open false) ;;
  a <- get ;;
  match chan_send chanCap (readC a) (Bytes []) with
  | None => block
  | Some q =>
    modify (set_readC q) ;;
    a <- get ;;
    match chan_send chanCap (btnC a) (Bytes []) with
    | None => block
    | Some q =>
      modify (set_btnC q) ;;
      match con a with
      | None => panic
      | Some _ => io con_Close
      end
    end
  end.

(** [Close]: close the serial connection. *)
Definition Close : M asustor (option error) :=
  a <- get ;;
  if negb (open a) then ret None else forceClose.

Definition establish : M asustor (option error) :=
  a <- get ;;
  err <- flush (cmdDisplayStatus a) ;;
  match err with
  | Some e => io con_Close ;; forceClose ;; ret (Some e)
  | None =>
    ok <- responseEqual
            [replyOkayCheck1 a; replyOkayCheck2 a; replyOkayCheck3 a] ;;
    if negb ok
    then io con_Close ;; forceClose ;; ret (Some ErrDisplayNotWorking)
    else ret None
  end.

Definition Open : M asustor (option error) :=
  a <- get ;;
  if open a then ret None else
  match con a with
   | Some _ => io con_Close ;; ret tt
   | None => ret tt
   end ;;
  k <- io (fun w => (opens w, w)) ;;
  err <- io (serial_Open (tty a) 115200) ;;
  match err with
  | Some e => modify (set_con None) ;; ret (Some e)
  | None =>
    modify (set_con (Some k)) ;;
    modify (set_open true) ;;
    go_read ;;
    establish
  end.

(** The literal of [if a.retry > 10]. *)
Definition retryBound : N := 10.

(** [write]: the recursion of the source, [fuel] calls deep at most. *)
Fixpoint write (fuel : nat) (msg : list byte) : M asustor (option error) :=
  match fuel with
  | O => unfinished
  | S fuel' =>
    a <- get ;;
    if negb (open a) then ret (Some ErrClosed) else
    err <- flush msg ;;
    match err with
    | Some e => ret (Some e)
    | None =>
      ok <- responseEqual [replyMsgSentCheck a] ;;
      if negb ok then
        a <- get ;;
        if (retryBound <? Byte.to_N (retry a))%N
        then ret (Some ErrDisplayNotWorking)
        else
          modify (set_retry (byte_add (retry a) (B 1))) ;;
          write fuel' msg
      else
        modify (set_retry (B 0)) ;;
        ret err
    end
  end.

(** The depth of calls that [write] never exceeds. *)
Definition depth : nat := 12.

(** The attempts that a [write] entered with the counter at [r] makes
    when no acknowledgement comes. *)
Definition attempts (r : byte) : nat :=
  if (retryBound <? Byte.to_N r)%N then 1
  else 12 - N.to_nat (Byte.to_N r).

(** [Write]: write messages to the display. *)
Definition Write (line : Line) (text : string) : M asustor (option error) :=
  a <- get ;;
  write depth (strToBytes a line text).

Definition Enable (yes : bool) : M asustor (option error) :=
  a <- get ;;
  if negb (open a) then ret (Some ErrClosed)
  else if yes then flush (cmdDisplayOn a)
  else flush (cmdDisplayOff a).

(** [Listen], entered: the first test of [a.open], then
    [a.keepListening = true]. *)
Definition Listen_enter (a : asustor) : listen_pc * asustor :=
  if negb (open a) then (LDone, a)
  else (LTest, set_keepListening true a).

(** One step of the goroutine in [Listen]; a receive on the empty channel
    leaves everything as it is.  The third component is the call of the
    callback made in this step. *)
Definition Listen_step (l : callback) (pc : listen_pc) (a : asustor)
  : listen_pc * asustor * option call :=
  match pc with
  | LTest => (if open a then LRecv else LDone, a, None)
  | LRecv =>
    match btnC a with
    | [] => (LRecv, a, None)
    | res :: q =>
      let a := set_btnC q a in
      if negb (open a) then (LDone, a, None)
      else if keepListening a then
        match nth_error (view a res) 3 with
        | None => (LPanic, a, None)
        | Some b =>
          if l (int_of_byte b) true
          then (LTest, a, Some (int_of_byte b, true))
          else (LDone, set_keepListening false a,
                Some (int_of_byte b, true))
        end
      else (LTest, a, None)
    end
  | LDone => (LDone, a, None)
  | LPanic => (LPanic, a, None)
  end.

(** [n] steps of [Listen], with the calls made, in order. *)
Fixpoint Listen_steps (n : nat) (l : callback) (pc : listen_pc)
  (a : asustor) : listen_pc * asustor * list call :=
  match n with
  | O => (pc, a, [])
  | S n' =>
    let '(pc1, a1, c) := Listen_step l pc a in
    let '(pc2, a2, cs) := Listen_steps n' l pc1 a1 in
    (pc2, a2, match c with Some x => x :: cs | None => cs end)
  end.

End Asustor.

(** ** The QNAP protocol *)

(** [fmt.Sprintf("%d", n)]. *)
Definition decimal (n : Z) : string :=
  NilZero.string_of_int (Z.to_int n).

(** The value of a hexadecimal digit, of either case. *)
Definition fromHexChar (c : ascii) : option N :=
  let n := N_of_ascii c in
  if (48 <=? n)%N && (n <=? 57)%N then Some (n - 48)%N
  else if (97 <=? n)%N && (n <=? 102)%N then Some (n - 97 + 10)%N
  else if (65 <=? n)%N && (n <=? 70)%N then Some (n - 65 + 10)%N
  else None.

(** [hex.DecodeString] with its error dropped, as [h] uses it: the bytes
    decoded before the first character that is no digit, or before a last
    character left without its pair. *)
Fixpoint hex_decode (s : string) : list byte :=
  match s with
  | String p (String q rest) =>
    match fromHexChar p, fromHexChar q with
    | Some a, Some b => byte_of_N (a * 16 + b) :: hex_decode rest
    | _, _ => []
    end
  | _ => []
  end.

Module Qnap.

Local Open Scope go_scope.

Record qnap : Type := {
  tty : string;
  con : option nat;   (* nil, or the port of the k-th serial.Open *)
  open : bool;
  lastFlush : Z;
  writeC : list (list byte);
  btnC : list (list byte);
  released : list byte;
  upPressed : list byte;
  downPressed : list byte;
  bothPressed : list byte;
  cmdBtn : list byte;
  cmdEnable : list byte;
  cmdDisable : list byte;
  cmdWrite : list byte;
  cmdInit : list byte;
  cmdRdy : list byte
}.

Definition set_con (v : option nat) (q : qnap) : qnap :=
  {| tty := tty q; con := v; open := open q; lastFlush := lastFlush q;
     writeC := writeC q; btnC := btnC q; released := released q;
     upPressed := upPressed q; downPressed := downPressed q;
     bothPressed := bothPressed q; cmdBtn := cmdBtn q;
     cmdEnable := cmdEnable q; cmdDisable := cmdDisable q;
     cmdWrite := cmdWrite q; cmdInit := cmdInit q; cmdRdy := cmdRdy q |}.

Definition set_open (v : bool) (q : qnap) : qnap :=
  {| tty := tty q; con := con q; open := v; lastFlush := lastFlush q;
     writeC := writeC q; btnC := btnC q; released := released q;
     upPressed := upPressed q; downPressed := downPressed q;
     bothPressed := bothPressed q; cmdBtn := cmdBtn q;
     cmdEnable := cmdEnable q; cmdDisable := cmdDisable q;
     cmdWrite := cmdWrite q; cmdInit := cmdInit q; cmdRdy := cmdRdy q |}.

Definition set_lastFlush (v : Z) (q : qnap) : qnap :=
  {| tty := tty q; con := con q; open := open q; lastFlush := v;
     writeC := writeC q; btnC := btnC q; released := released q;
     upPressed := upPressed q; downPressed := downPressed q;
     bothPressed := bothPressed q; cmdBtn := cmdBtn q;
     cmdEnable := cmdEnable q; cmdDisable := cmdDisable q;
     cmdWrite := cmdWrite q; cmdInit := cmdInit q; cmdRdy := cmdRdy q |}.

(** The struct that [NewQnapLCD] builds before it calls [init]. *)
Definition newLCD (tty : string) : qnap :=
  let cmdBtn := [B 83; B 5; B 0] in
  {| tty := tty; con := None; open := false; lastFlush := zeroTime;
     writeC := []; btnC := [];
     released := cmdBtn ++ [B 0];
     upPressed := cmdBtn ++ [B 1];
     downPressed := cmdBtn ++ [B 2];
     bothPressed := cmdBtn ++ [B 3];
     cmdBtn := cmdBtn;
     cmdEnable := [B 77; B 94; B 1; B 10];
     cmdDisable := [B 77; B 94; B 0; B 10];
     cmdWrite := [B 77; B 94; B 1];
     cmdInit := [B 77; B 0];
     cmdRdy := [B 83; B 1; B 0; B 125] |}.

(** A session of [NewQnapLCD], whatever its port, its [open] flag and
    the time of its last write. *)
Definition session (tty : string) (c : option nat) (o : bool) (f : Z) : qnap :=
  set_lastFlush f (set_open o (set_con c (newLCD tty))).

Definition h (s : string) : list byte := hex_decode s.

Definition forceClose : M qnap (option error) :=
  modify (set_open false) ;;
  q <- get ;;
  match con q with
  | None => ret None
  | Some _ => io con_Close
  end.

Definition Close : M qnap (option error) :=
  q <- get ;;
  if negb (open q) then ret None else forceClose.

(** [readWithTimeout]: as in asustor.go, the read first in the source. *)
Definition readWithTimeout (n : nat)
  : M qnap (nat * option error * list byte) :=
  q <- get ;;
  match con q with
  | None => panic
  | Some _ =>
    r <- io con_Read ;;
    match r with
    | ReadData data => ret (filled n data, None, fill n data)
    | ReadErr _ | ReadSilent =>
      io (fun w => (tt, sleep ReadTimeout w)) ;;
      forceClose ;;
      ret (O, Some ErrDisplayNotWorking, repeat x00 n)
    end
  end.

Definition init : M qnap (option error) :=
  q <- get ;;
  k <- io (fun w => (opens w, w)) ;;
  err <- io (serial_Open (tty q) 1200) ;;
  match err with
  | Some e => modify (set_con None) ;; ret (Some e)
  | None =>
    modify (set_con (Some k)) ;;
    r <- io (con_Write (cmdInit q)) ;;
    match snd r with
    | Some e => io con_Close ;; ret (Some e)
    | None =>
      r <- readWithTimeout 4 ;;
      let '(i, err, res) := r in
      match err with
      | Some _ => io con_Close ;; ret (Some ErrDisplayNotWorking)
      | None =>
        if bytes_Equal (firstn i res) (cmdRdy q)
        then modify (set_open true) ;; ret None
        else
          modify (set_open false) ;;
          io con_Close ;;
          ret (Some ErrDisplayNotWorking)
      end
    end
  end.

Definition Open : M qnap (option error) :=
  q <- get ;;
  if open q then ret None else init.

(** [NewQnapLCD]: the struct, then [init]; the session or the error. *)
Definition NewQnapLCD (tty : string) (w : world)
  : outcome (option qnap * option error) * world :=
  let tty := if String.eqb tty EmptyString then DefaultTTy else tty in
  match init (newLCD tty) w with
  | (Ret (Some e), _, w') => (Ret (None, Some e), w')
  | (Ret None, q, w') => (Ret (Some q, None), w')
  | (Blocked, _, w') => (Blocked, w')
  | (Panicked, _, w') => (Panicked, w')
  | (Unfinished, _, w') => (Unfinished, w')
  end.

Definition Enable (yes : bool) : M qnap (option error) :=
  q <- get ;;
  if negb (open q) then ret (Some ErrClosed)
  else
    match con q with
    | None => panic
    | Some _ =>
      r <- io (con_Write (if yes then cmdEnable q else cmdDisable q)) ;;
      ret (snd r)
    end.

Definition wait10MillisForSureBetweenWrites : M qnap unit :=
  fun q w =>
    let timeDiff := (lastFlush q + DefaultDelayBetweenWrites - now w)%Z in
    let w := if (0 <? timeDiff)%Z then sleep timeDiff w else w in
    (Ret tt, set_lastFlush (now w) q, w).

(** The text of [Write], cut or filled to 16 bytes ([for len(txt) < 16]
    runs once: its body fills all that is missing). *)
Definition pad (txt : string) : string :=
  if 16 <? String.length txt then substring 0 16 txt
  else if String.length txt <? 16
       then (txt ++ Repeat " " (16 - String.length txt))%string
       else txt.

(** The bytes that [Write] sends. *)
Definition frame (q : qnap) (line : Line) (txt : string) : list byte :=
  cmdWrite q
    ++ h ("4d0c0" ++ decimal line ++ "10") ++ list_byte_of_string (pad txt).

Definition Write (line : Line) (txt : string) : M qnap (option error) :=
  q <- get ;;
  if negb (open q) then ret (Some ErrClosed) else
  let cnt := frame q line txt in
  wait10MillisForSureBetweenWrites ;;
  match con q with
  | None => panic
  | Some _ =>
    r <- io (con_Write cnt) ;;
    if negb (fst r =? Z.of_nat (List.length cnt))%Z
    then ret (Some ErrMsgSizeMismatch)
    else ret (snd r)
  end.

(** [remove]: the last byte takes the place of the [i]-th. *)
Definition remove (s : list byte) (i : nat) : list byte :=
  removelast (store i (last s x00) s).

(** The first index of [res] that holds [b]. *)
Fixpoint index_of (b : byte) (res : list byte) : option nat :=
  match res with
  | [] => None
  | r :: res' =>
    if Byte.eqb b r then Some O
    else match index_of b res' with
         | Some c => Some (S c)
         | None => None
         end
  end.

(** The outer loop of [ensureOrder], from the [i]-th byte of [cmdBtn]. *)
Fixpoint reorder (i : nat) (btn res ordered : list byte)
  : list byte * list byte :=
  match btn with
  | [] => (res, ordered)
  | b :: btn' =>
    match index_of b res with
    | Some c => reorder (S i) btn' (remove res c) (store i b ordered)
    | None => reorder (S i) btn' res ordered
    end
  end.

Definition ensureOrder (q : qnap) (res : list byte) : list byte :=
  if bytes_HasPrefix res (cmdBtn q) then res
  else
    let '(res, ordered) := reorder 0 (cmdBtn q) res (repeat x00 4) in
    match res with
    | r0 :: _ => store 3 r0 ordered
    | [] => ordered
    end.

(** How a turn of the loop of [Listen] ends. *)
Inductive turn : Type :=
| Continue (lastBtn : Z)   (* the loop goes on, with this [lastBtn] *)
| Return                   (* [Listen] returns *)
| Wait.                    (* the read has nothing to return yet *)

(** One turn of the loop of [Listen], with the call of the callback made
    in it.  A read on a nil [q.con] panics, and the deferred [recover]
    makes [Listen] return. *)
Definition Listen_turn (l : callback) (q : qnap) (lastBtn : Z) (w : world)
  : turn * world * option call :=
  match con q, port_read (script w) (reads w) with
  | None, _ => (Return, w, None)
  | Some _, ReadSilent => (Wait, w, None)
  | Some _, ReadErr _ => (Return, snd (con_Read w), None)
  | Some _, ReadData data =>
    let w := snd (con_Read w) in
    let res := fill 4 data in
    if negb (filled 4 data =? List.length res) then (Continue lastBtn, w, None)
    else
      let res := ensureOrder q res in
      if bytes_Equal res (released q) then
        (if negb (l lastBtn true) then Return else Continue 0%Z,
         w, Some (lastBtn, true))
      else if bytes_Equal res (upPressed q) then
        if (lastBtn =? 3)%Z then (Continue lastBtn, w, None)
        else (if negb (l 1%Z false) then Return else Continue 1%Z,
              w, Some (1%Z, false))
      else if bytes_Equal res (downPressed q) then
        if (lastBtn =? 3)%Z then (Continue lastBtn, w, None)
        else (if negb (l 2%Z false) then Return else Continue 2%Z,
              w, Some (2%Z, false))
      else if bytes_Equal res (bothPressed q) then
        (if negb (l 3%Z false) then Return else Continue 3%Z,
         w, Some (3%Z, false))
      else (Continue lastBtn, w, None)
  end.

(** Up to [n] turns of the loop, with the calls made, in order. *)
Fixpoint Listen_loop (n : nat) (l : callback) (q : qnap) (lastBtn : Z)
  (w : world) : turn * world * list call :=
  match n with
  | O => (Continue lastBtn, w, [])
  | S n' =>
    match Listen_turn l q lastBtn w with
    | (Continue b, w1, c) =>
      let '(t, w2, cs) := Listen_loop n' l q b w1 in
      (t, w2, match c with Some x => x :: cs | None => cs end)
    | (t, w1, c) => (t, w1, match c with Some x => [x] | None => [] end)
    end
  end.

(** [Listen], followed for [n] turns of its loop. *)
Definition Listen (n : nat) (l : callback) (q : qnap) (w : world)
  : turn * world * list call :=
  if negb (open q) then (Return, w, [])
  else Listen_loop n l q 0%Z w.

End Qnap.

(** ** generic.go: the interface and the factory

    [FindLED] goes with asustor.go and the QNAP file: the three files use
    the same constants. *)

(** A value of the interface [LCD]: nil, or one of the three
    implementations ([DummyLCD] is the one value of [*dummy]). *)
Inductive LCD : Type :=
| LcdNil
| LcdAsustor (a : AsustorLCD.asustorLCD)
| LcdQnap (q : Qnap.qnap)
| DummyLCD.

Definition lcd_of_asustor (m : option AsustorLCD.asustorLCD) : LCD :=
  match m with Some a => LcdAsustor a | None => LcdNil end.

Definition lcd_of_qnap (m : option Qnap.qnap) : LCD :=
  match m with Some q => LcdQnap q | None => LcdNil end.

(** [FindLED]: the factory of generic.go. *)
Definition FindLED (w : world) : outcome LCD * world :=
  match AsustorLCD.NewAsustorLCD EmptyString w with
  | (Ret (lcd, None), w1) => (Ret (lcd_of_asustor lcd), w1)
  | (Ret (_, Some _), w1) =>
    match Qnap.NewQnapLCD EmptyString w1 with
    | (Ret (lcd, None), w2) => (Ret (lcd_of_qnap lcd), w2)
    | (Ret (_, Some _), w2) => (Ret DummyLCD, w2)
    | (Blocked, w2) => (Blocked, w2)
    | (Panicked, w2) => (Panicked, w2)
    | (Unfinished, w2) => (Unfinished, w2)
    end
  | (Blocked, w1) => (Blocked, w1)
  | (Panicked, w1) => (Panicked, w1)
  | (Unfinished, w1) => (Unfinished, w1)
  end.

(** A method of the interface, called on a value of it: the call goes to
    the implementation behind the value, a call on nil panics, and the
    dummy answers [dflt] and touches nothing. *)
Definition dispatch {A : Type} (ma : M AsustorLCD.asustorLCD A)
  (mq : M Qnap.qnap A) (dflt : A) : M LCD A :=
  fun d w =>
    match d with
    | LcdNil => (Panicked, d, w)
    | LcdAsustor a => let '(r, a', w') := ma a w in (r, LcdAsustor a', w')
    | LcdQnap q => let '(r, q', w') := mq q w in (r, LcdQnap q', w')
    | DummyLCD => (Ret dflt, d, w)
    end.

Definition LCD_Open : M LCD (option error) :=
  dispatch AsustorLCD.Open Qnap.Open None.
Definition LCD_Write (line : Line) (text : string) : M LCD (option error) :=
  dispatch (AsustorLCD.Write line text) (Qnap.Write line text) None.
Definition LCD_Enable (yes : bool) : M LCD (option error) :=
  dispatch (AsustorLCD.Enable yes) (Qnap.Enable yes) None.
Definition LCD_Close : M LCD (option error) :=
  dispatch AsustorLCD.Close Qnap.Close None.

(** ** Relations of the statements *)

(** [a'] is [a] but for the counter, the channels, the reader's locals
    and [lastFlush]. *)
Definition but_retry (a a' : Asustor.asustor) : Prop :=
  Asustor.core (Asustor.set_retry (Asustor.retry a) a') = Asustor.core a.

(** The calls that the rules of the QNAP [Listen] allow when the button
    held is [held] (0 for none): a release names the button held, a press
    names 1, 2 or 3, and while both buttons are held the only press is 3. *)
Fixpoint disciplined (held : Z) (cs : list call) : Prop :=
  match cs with
  | [] => True
  | (btn, true) :: cs' => btn = held /\ disciplined 0%Z cs'
  | (btn, false) :: cs' =>
    (btn = 1 \/ btn = 2 \/ btn = 3)%Z /\ (held = 3%Z -> btn = 3%Z)
    /\ disciplined btn cs'
  end.

(** Whether [c] starts a frame for the reader of [a]. *)
Definition marker (a : Asustor.asustor) (c : byte) : bool :=
  Byte.eqb c (Asustor.replyByte a) || Byte.eqb c (Asustor.cmdByte a).

(** The reader between two frames or inside one: the buffer holds fewer
    than five bytes, and [startFound] is set exactly when it holds some. *)
Definition tidy (a : Asustor.asustor) : Prop :=
  Asustor.bufLen a < 5
  /\ Asustor.startFound a = (0 <? Asustor.bufLen a).

(** The reader of [a] has the button frame [f] next on the port and no
    room for it on the button channel; nothing waits on the read
    channel. *)
Definition starved (a : Asustor.asustor) (w : world) (f : list byte) : Prop :=
  Asustor.open a = true
  /\ Asustor.reading a = true
  /\ Asustor.con a <> None
  /\ Asustor.readC a = []
  /\ Asustor.bufLen a = 0
  /\ Asustor.startFound a = false
  /\ 5 <= List.length (Asustor.bufArray a)
  /\ Asustor.msgSize a = 5
  /\ Asustor.chanCap <= List.length (Asustor.btnC a)
  /\ List.length f = 5
  /\ marker a (hd x00 f) = true
  /\ bytes_HasPrefix f (Asustor.cmdBtn a) = true
  /\ port_read (script w) (reads w) = ReadData f.

(** The world after a write of [data] handed to the port at time [t]. *)
Definition wrote (data : list byte) (t : Z) (w : world) : world :=
  {| script := script w; opens := opens w; writes := S (writes w);
     reads := reads w; closes := closes w; waits := waits w; now := t;
     log := log w ++ [IoWrite data] |}.

(** The time at which a write is handed to the port, by the clock and by
    the time stamp of the write before. *)
Definition write_time (lastFlush : Z) (w : world) : Z :=
  Z.max (now w) (lastFlush + DefaultDelayBetweenWrites).

(** The calls on the port of a readiness check of asustor.go whose read
    the port answers with [r]: the read, and after it the [Close] of
    [forceClose] when no answer came in time. *)
Definition check_log (r : read_result) : list io_event :=
  match r with
  | ReadData _ => [IoRead]
  | ReadErr _ | ReadSilent => [IoRead; IoClose]
  end.

(** The world after that check. *)
Definition checked (r : read_result) (w : world) : world :=
  match r with
  | ReadData _ => snd (con_Read w)
  | ReadErr _ | ReadSilent =>
    snd (con_Close (sleep ReadTimeout (snd (con_Read w))))
  end.

(** What [Open] of asustor.go answers with: it returns, and nil only
    with the session open on the same device. *)
Definition opens_well (t : string)
  (x : outcome (option error) * AsustorLCD.asustorLCD * world) : Prop :=
  exists r a' w',
    x = (Ret r, a', w')
    /\ (r = None -> AsustorLCD.open a' = true /\ AsustorLCD.tty a' = t).

(** Every frame queued on the channels of [a] has the five bytes of the
    buffer it was read into. *)
Definition framed (a : AsustorLCD.asustorLCD) : Prop :=
  Forall (fun f => List.length f = 5) (AsustorLCD.btnC a)
  /\ Forall (fun f => List.length f = 5) (AsustorLCD.readC a).

(** A method keeps [framed]: whatever it answers, it leaves a session
    whose queued frames have five bytes when they had before. *)
Definition keeps_framed {A : Type} (m : M AsustorLCD.asustorLCD A) : Prop :=
  forall a w r a' w', framed a -> m a w = (r, a', w') -> framed a'.

(** ** Sessions and worlds of the examples *)

(** The world before any call, with port [p]. *)
Definition start (p : port) : world :=
  {| script := p; opens := 0; writes := 0; reads := 0; closes := 0;
     waits := 0; now := 0; log := [] |}.

(** A port that takes every write whole, and answers the reads with
    [answers], one after the other, then with nothing.  The reader is
    given [turns] turns in every wait. *)
Definition port_of (answers : list read_result) (turns : nat) : port :=
  {| port_open := fun _ => None;
     port_write := fun _ d => (Z.of_nat (List.length d), None);
     port_read := fun k => nth k answers ReadSilent;
     port_close := fun _ => None;
     port_sched := fun _ => turns |}.

(** A device that never answers. *)
Definition mute : port := port_of [] 0.

(** A device that acknowledges every write, and a reader that gets no
    turn during the first twelve waits and one turn in every later one. *)
Definition late : port :=
  {| port_open := fun _ => None;
     port_write := fun _ d => (Z.of_nat (List.length d), None);
     port_read := fun _ => ReadData [B 241; B 1; B 39; B 0; B 25];
     port_close := fun _ => None;
     port_sched := fun k => if k <? 12 then 0 else 1 |}.

(** A device that acknowledges every write, and a reader that gets one
    turn in the thirteenth wait and none in any other. *)
Definition once : port :=
  {| port_open := fun _ => None;
     port_write := fun _ d => (Z.of_nat (List.length d), None);
     port_read := fun _ => ReadData [B 241; B 1; B 39; B 0; B 25];
     port_close := fun _ => None;
     port_sched := fun k => if Nat.eqb k 12 then 1 else 0 |}.

(** An [asustor] session open on its port, the reader running, nothing
    queued and the retry counter at zero. *)
Definition asustor_open : Asustor.asustor :=
  Asustor.set_reading true
    (Asustor.set_open true
      (Asustor.set_con (Some 0) (Asustor.newLCD DefaultTTy))).

(** An [asustorLCD] session open on its port, the reader running and
    nothing queued. *)
Definition asustorLCD_open : AsustorLCD.asustorLCD :=
  AsustorLCD.set_reading true
    (AsustorLCD.set_open true
      (AsustorLCD.set_con (Some 0) (AsustorLCD.newLCD DefaultTTy))).

(** A [qnap] session open on its port. *)
Definition qnap_open : Qnap.qnap :=
  Qnap.set_open true (Qnap.set_con (Some 0) (Qnap.newLCD DefaultTTy)).

(** The four frames of the buttons of the QNAP display. *)
Definition up_pressed : list byte := [B 83; B 5; B 0; B 1].
Definition down_pressed : list byte := [B 83; B 5; B 0; B 2].
Definition both_pressed : list byte := [B 83; B 5; B 0; B 3].
Definition btn_released : list byte := [B 83; B 5; B 0; B 0].

(** A port that opens and refuses every write with the error [7]. *)
Definition refusing : port :=
  {| port_open := fun _ => None;
     port_write := fun _ _ => (0%Z, Some (ErrTransport 7));
     port_read := fun _ => ReadSilent;
     port_close := fun _ => None;
     port_sched := fun _ => 0 |}.

(** A device that never answers, behind a port that takes the first
    write whole and refuses every later one with the error [5], as a
    port does once it has been closed. *)
Definition hung_up : port :=
  {| port_open := fun _ => None;
     port_write := fun k d =>
       if Nat.eqb k 0 then (Z.of_nat (List.length d), None)
       else (0%Z, Some (ErrTransport 5));
     port_read := fun _ => ReadSilent;
     port_close := fun _ => None;
     port_sched := fun _ => 0 |}.

(** * Properties *)

(** ** Bytes and strings *)

Lemma to_N_byte_of_N (n : N) : Byte.to_N (byte_of_N n) = (n mod 256)%N.
Proof.
  unfold byte_of_N.
  destruct (Byte.of_N (n mod 256)) as [b|] eqn:E.
  - now apply Byte.to_of_N.
  - apply Byte.of_N_None_iff in E.
    pose proof (N.mod_upper_bound n 256). lia.
Qed.

Lemma to_N_byte_add (a b : byte) :
  Byte.to_N (byte_add a b) = ((Byte.to_N a + Byte.to_N b) mod 256)%N.
Proof. unfold byte_add. apply to_N_byte_of_N. Qed.

Lemma to_N_inj (a b : byte) : Byte.to_N a = Byte.to_N b -> a = b.
Proof.
  intros H.
  pose proof (Byte.of_to_N a) as Ha.
  pose proof (Byte.of_to_N b) as Hb.
  rewrite H in Ha. congruence.
Qed.

Lemma checksum_fold (b : list byte) (s : byte) :
  Byte.to_N (fold_left (fun s bb => byte_add s bb) b s)
  = ((Byte.to_N s + byte_sum b) mod 256)%N.
Proof.
  revert s. induction b as [|x b IH]; intros s; simpl.
  - rewrite N.add_0_r. symmetry. apply N.mod_small.
    pose proof (Byte.to_N_bounded s). lia.
  - rewrite IH, to_N_byte_add.
    rewrite N.Div0.add_mod_idemp_l. f_equal. lia.
Qed.

Lemma checksum_sum (b : list byte) :
  Byte.to_N (checksum b) = (byte_sum b mod 256)%N.
Proof. unfold checksum. now rewrite checksum_fold. Qed.

Lemma length_string_app (s t : string) :
  String.length (s ++ t) = String.length s + String.length t.
Proof. induction s as [|c s IH]; simpl; congruence. Qed.

Lemma length_Repeat_space (n : nat) : String.length (Repeat " " n) = n.
Proof. induction n as [|n IH]; simpl; congruence. Qed.

Lemma length_substring_0 (m : nat) (s : string) :
  m <= String.length s -> String.length (substring 0 m s) = m.
Proof.
  revert m. induction s as [|c s IH]; intros [|m] H; simpl in *; try lia.
  rewrite IH; lia.
Qed.

Lemma length_list_byte_of_string (s : string) :
  List.length (list_byte_of_string s) = String.length s.
Proof.
  unfold list_byte_of_string. rewrite length_map.
  induction s as [|c s IH]; simpl; congruence.
Qed.

Lemma length_prepareTxt (txt : string) : String.length (prepareTxt txt) = 16.
Proof.
  unfold prepareTxt.
  destruct (16 <? String.length txt) eqn:E1.
  - apply Nat.ltb_lt in E1. apply length_substring_0. lia.
  - apply Nat.ltb_ge in E1.
    destruct (String.length txt <? 16) eqn:E2.
    + apply Nat.ltb_lt in E2.
      rewrite length_string_app, length_Repeat_space. lia.
    + apply Nat.ltb_ge in E2. lia.
Qed.

Lemma prepareTxt_fixed (txt : string) :
  String.length txt = 16 -> prepareTxt txt = txt.
Proof. intros H. unfold prepareTxt. now rewrite H. Qed.

Lemma prepareTxt_idempotent (txt : string) :
  prepareTxt (prepareTxt txt) = prepareTxt txt.
Proof. apply prepareTxt_fixed, length_prepareTxt. Qed.

Lemma strToBytes_inline (a : AsustorLCD.asustorLCD) (line : Line)
  (text : string) :
  AsustorLCD.strToBytes a line text
  = [AsustorLCD.cmdByte a; B 0x12; B 0x27; byte_of_Z line; B 0]
      ++ list_byte_of_string (prepareTxt text).
Proof.
  unfold AsustorLCD.strToBytes, prepareTxt.
  destruct (16 <? String.length text) eqn:E1.
  - apply Nat.ltb_lt in E1.
    rewrite (length_substring_0 16 text) by lia. reflexivity.
  - destruct (String.length text <? 16); reflexivity.
Qed.

(** ** The frame codec *)

(** C2.  For every command byte sequence [S], the frame that [makemsg]
    builds is [S] followed by one byte, the checksum of [S], whose value
    is the sum of the bytes of [S] modulo 256; taking the last byte off
    the frame gives [S] back. *)
Theorem makemsg_checksum_roundtrip (S : list byte) :
  makemsg S = S ++ [checksum S]
  /\ List.length (makemsg S) = List.length S + 1
  /\ last (makemsg S) x00 = checksum S
  /\ Byte.to_N (checksum S) = (byte_sum S mod 256)%N
  /\ removelast (makemsg S) = S.
Proof.
  unfold makemsg. repeat split.
  - rewrite length_app. reflexivity.
  - apply last_last.
  - apply checksum_sum.
  - apply removelast_last.
Qed.

(** C3.  The text that a write frame carries is always 16 bytes long: the
    first 16 bytes of the string when it is longer, the string followed
    by spaces when it is shorter, the string itself when it has 16 bytes;
    preparing a prepared text changes nothing.  Both revisions of
    [strToBytes] put that text after the five bytes of the header, and
    the QNAP [Write] prepares its text in the same way. *)
Theorem text_payload_16 (text : string) :
  String.length (prepareTxt text) = 16
  /\ List.length (list_byte_of_string (prepareTxt text)) = 16
  /\ (16 < String.length text -> prepareTxt text = substring 0 16 text)
  /\ (String.length text < 16 ->
      prepareTxt text
      = (text ++ Repeat " " (16 - String.length text))%string)
  /\ (String.length text = 16 -> prepareTxt text = text)
  /\ prepareTxt (prepareTxt text) = prepareTxt text
  /\ (forall a line,
        skipn 5 (Asustor.strToBytes a line text)
        = list_byte_of_string (prepareTxt text))
  /\ (forall a line,
        skipn 5 (AsustorLCD.strToBytes a line text)
        = list_byte_of_string (prepareTxt text))
  /\ Qnap.pad text = prepareTxt text.
Proof.
  split; [apply length_prepareTxt|].
  split; [rewrite length_list_byte_of_string; apply length_prepareTxt|].
  split.
  { intros H. unfold prepareTxt.
    apply Nat.ltb_lt in H. now rewrite H. }
  split.
  { intros H. unfold prepareTxt.
    destruct (16 <? String.length text) eqn:E.
    - apply Nat.ltb_lt in E. lia.
    - apply Nat.ltb_lt in H. now rewrite H. }
  split; [apply prepareTxt_fixed|].
  split; [apply prepareTxt_idempotent|].
  split; [intros a line; reflexivity|].
  split; [intros a line; rewrite strToBytes_inline; reflexivity|].
  reflexivity.
Qed.

Lemma text_payload_16_witness :
  prepareTxt "The first line is long" = "The first line i"%string
  /\ prepareTxt "Hello" = "Hello           "%string.
Proof.
  split.
  - destruct (text_payload_16 "The first line is long")
      as (_ & _ & Hlong & _).
    rewrite Hlong; [reflexivity | simpl; lia].
  - destruct (text_payload_16 "Hello") as (_ & _ & _ & Hshort & _).
    rewrite Hshort; [reflexivity | simpl; lia].
Defined.

(** ** The buttons *)

Section QnapTurns.

Variables (l : callback) (t : string) (c : nat) (o : bool) (f : Z).
Variable w : world.

Let q := Qnap.session t (Some c) o f.

Lemma qnap_turn_released (lastBtn : Z) :
  port_read (script w) (reads w) = ReadData btn_released ->
  Qnap.Listen_turn l q lastBtn w
  = (if l lastBtn true then Qnap.Continue 0%Z else Qnap.Return,
     snd (con_Read w), Some (lastBtn, true)).
Proof.
  intros H. unfold Qnap.Listen_turn.
change (Qnap.con q) with (Some c). rewrite H.
  change (filled 4 btn_released =? List.length (fill 4 btn_released))
    with true.
  change (Qnap.ensureOrder q (fill 4 btn_released)) with btn_released.
  change (bytes_Equal btn_released (Qnap.released q)) with true.
  cbv beta iota zeta. simpl negb. cbv iota.
  destruct (l lastBtn true); reflexivity.
Qed.

Lemma qnap_turn_up (lastBtn : Z) :
  port_read (script w) (reads w) = ReadData up_pressed ->
  Qnap.Listen_turn l q lastBtn w
  = if (lastBtn =? 3)%Z
    then (Qnap.Continue lastBtn, snd (con_Read w), None)
    else (if l 1%Z false then Qnap.Continue 1%Z else Qnap.Return,
          snd (con_Read w), Some (1%Z, false)).
Proof.
  intros H. unfold Qnap.Listen_turn.
change (Qnap.con q) with (Some c). rewrite H.
  change (filled 4 up_pressed =? List.length (fill 4 up_pressed))
    with true.
  change (Qnap.ensureOrder q (fill 4 up_pressed)) with up_pressed.
  change (bytes_Equal up_pressed (Qnap.released q)) with false.
  change (bytes_Equal up_pressed (Qnap.upPressed q)) with true.
  cbv beta iota zeta. simpl negb. cbv iota.
  destruct (lastBtn =? 3)%Z; [reflexivity|].
  destruct (l 1%Z false); reflexivity.
Qed.

Lemma qnap_turn_down (lastBtn : Z) :
  port_read (script w) (reads w) = ReadData down_pressed ->
  Qnap.Listen_turn l q lastBtn w
  = if (lastBtn =? 3)%Z
    then (Qnap.Continue lastBtn, snd (con_Read w), None)
    else (if l 2%Z false then Qnap.Continue 2%Z else Qnap.Return,
          snd (con_Read w), Some (2%Z, false)).
Proof.
  intros H. unfold Qnap.Listen_turn.
change (Qnap.con q) with (Some c). rewrite H.
  change (filled 4 down_pressed =? List.length (fill 4 down_pressed))
    with true.
  change (Qnap.ensureOrder q (fill 4 down_pressed)) with down_pressed.
  change (bytes_Equal down_pressed (Qnap.released q)) with false.
  change (bytes_Equal down_pressed (Qnap.upPressed q)) with false.
  change (bytes_Equal down_pressed (Qnap.downPressed q)) with true.
  cbv beta iota zeta. simpl negb. cbv iota.
  destruct (lastBtn =? 3)%Z; [reflexivity|].
  destruct (l 2%Z false); reflexivity.
Qed.

Lemma qnap_turn_both (lastBtn : Z) :
  port_read (script w) (reads w) = ReadData both_pressed ->
  Qnap.Listen_turn l q lastBtn w
  = (if l 3%Z false then Qnap.Continue 3%Z else Qnap.Return,
     snd (con_Read w), Some (3%Z, false)).
Proof.
  intros H. unfold Qnap.Listen_turn.
change (Qnap.con q) with (Some c). rewrite H.
  change (filled 4 both_pressed =? List.length (fill 4 both_pressed))
    with true.
  change (Qnap.ensureOrder q (fill 4 both_pressed)) with both_pressed.
  change (bytes_Equal both_pressed (Qnap.released q)) with false.
  change (bytes_Equal both_pressed (Qnap.upPressed q)) with false.
  change (bytes_Equal both_pressed (Qnap.downPressed q)) with false.
  change (bytes_Equal both_pressed (Qnap.bothPressed q)) with true.
  cbv beta iota zeta. simpl negb. cbv iota.
  destruct (l 3%Z false); reflexivity.
Qed.

End QnapTurns.

(** C4.  A session built by [NewQnapLCD], open on its port, in [Listen], reads
    the four frames up-pressed, both-pressed, down-pressed, released, the
    callback asking to go on after the two presses.  The callback is
    called exactly three times: press of 1 (up), press of 3 (both),
    release of 3.  The down-pressed frame gives no call, and the release
    carries 3, not 2. *)
Theorem qnap_down_after_both_suppressed
  (l : callback) (t : string) (c : nat) (f : Z) (w : world) :
  port_read (script w) (reads w) = ReadData up_pressed ->
  port_read (script w) (1 + reads w) = ReadData both_pressed ->
  port_read (script w) (2 + reads w) = ReadData down_pressed ->
  port_read (script w) (3 + reads w) = ReadData btn_released ->
  l 1%Z false = true ->
  l 3%Z false = true ->
  exists w',
    Qnap.Listen 4 l (Qnap.session t (Some c) true f) w
    = (if l 3%Z true then Qnap.Continue 0%Z else Qnap.Return, w',
       [(1%Z, false); (3%Z, false); (3%Z, true)])
    /\ reads w' = 4 + reads w.
Proof.
  intros H0 H1 H2 H3 L1 L3.
  exists (snd (con_Read (snd (con_Read (snd (con_Read (snd (con_Read w)))))))).
  split; [|reflexivity].
  unfold Qnap.Listen. simpl negb. cbv iota.
  cbn [Qnap.Listen_loop].
  rewrite qnap_turn_up by exact H0. simpl (0 =? 3)%Z. cbv iota.
  rewrite L1.
  rewrite qnap_turn_both by exact H1. rewrite L3.
  rewrite qnap_turn_down by exact H2. simpl (3 =? 3)%Z. cbv iota.
  rewrite qnap_turn_released by exact H3.
  destruct (l 3%Z true); reflexivity.
Qed.

Lemma qnap_down_after_both_suppressed_witness :
  exists w',
    Qnap.Listen 4 (fun _ _ => true) qnap_open
      (start (port_of [ReadData up_pressed; ReadData both_pressed;
                       ReadData down_pressed; ReadData btn_released] 0))
    = (Qnap.Continue 0%Z, w', [(1%Z, false); (3%Z, false); (3%Z, true)])
    /\ reads w' = 4.
Proof.
  apply (qnap_down_after_both_suppressed (fun _ _ => true) DefaultTTy
           0 zeroTime
           (start (port_of [ReadData up_pressed; ReadData both_pressed;
                            ReadData down_pressed; ReadData btn_released]
                     0))); reflexivity.
Defined.

Lemma asustor_step_call (l : callback) (pc : listen_pc)
  (a : Asustor.asustor) pc' a' btn released :
  Asustor.Listen_step l pc a = (pc', a', Some (btn, released)) ->
  released = true
  /\ exists res q b,
       Asustor.btnC a = res :: q
       /\ nth_error (Asustor.view a res) 3 = Some b
       /\ btn = int_of_byte b.
Proof.
  unfold Asustor.Listen_step.
  destruct pc; try discriminate.
  destruct (Asustor.btnC a) as [|res q] eqn:Eq; [discriminate|].
  cbn [Asustor.open Asustor.keepListening Asustor.set_btnC].
  destruct (Asustor.open a); cbn [negb]; [|discriminate].
  destruct (Asustor.keepListening a); [|discriminate].
  replace (Asustor.view (Asustor.set_btnC q a) res)
    with (Asustor.view a res) by (destruct res; reflexivity).
  destruct (nth_error (Asustor.view a res) 3) as [b|] eqn:Eb;
    [|discriminate].
  destruct (l (int_of_byte b) true); intros H; inversion H; subst;
    (split; [reflexivity | exists res, q, b; auto]).
Qed.

Lemma asustorLCD_step_call (l : callback) (pc : listen_pc)
  (a : AsustorLCD.asustorLCD) pc' a' btn released :
  AsustorLCD.Listen_step l pc a = (pc', a', Some (btn, released)) ->
  released = true
  /\ exists res q b,
       AsustorLCD.btnC a = res :: q
       /\ nth_error res 3 = Some b
       /\ btn = int_of_byte b.
Proof.
  unfold AsustorLCD.Listen_step.
  destruct pc; try discriminate.
  destruct (AsustorLCD.btnC a) as [|res q] eqn:Eq; [discriminate|].
  destruct (nth_error res 3) as [b|] eqn:Eb; [|discriminate].
  intros H; inversion H; subst.
  split; [reflexivity | exists res, q, b; auto].
Qed.

Lemma asustor_steps_released (n : nat) (l : callback) (pc : listen_pc)
  (a : Asustor.asustor) :
  Forall (fun c : call => snd c = true)
    (snd (Asustor.Listen_steps n l pc a)).
Proof.
  revert pc a. induction n as [|n IH]; intros pc a; cbn [Asustor.Listen_steps].
  - constructor.
  - destruct (Asustor.Listen_step l pc a) as [[pc1 a1] c] eqn:E1.
    specialize (IH pc1 a1).
    destruct (Asustor.Listen_steps n l pc1 a1) as [[pc2 a2] cs].
    cbn [snd] in *.
    destruct c as [[btn released]|]; [|exact IH].
    constructor; [|exact IH].
    apply asustor_step_call in E1. apply E1.
Qed.

Lemma asustorLCD_steps_released (n : nat) (l : callback) (pc : listen_pc)
  (a : AsustorLCD.asustorLCD) :
  Forall (fun c : call => snd c = true)
    (snd (AsustorLCD.Listen_steps n l pc a)).
Proof.
  revert pc a.
  induction n as [|n IH]; intros pc a; cbn [AsustorLCD.Listen_steps].
  - constructor.
  - destruct (AsustorLCD.Listen_step l pc a) as [[pc1 a1] c] eqn:E1.
    specialize (IH pc1 a1).
    destruct (AsustorLCD.Listen_steps n l pc1 a1) as [[pc2 a2] cs].
    cbn [snd] in *.
    destruct c as [[btn released]|]; [|exact IH].
    constructor; [|exact IH].
    apply asustorLCD_step_call in E1. apply E1.
Qed.

(** What holds of the calls in both Asustor revisions.  Every call of
    the callback that [Listen] makes has [released = true], and its
    button is the fourth byte of what the frame taken from the button
    channel shows at that moment: in asustor.go the bytes of the frame
    itself, in the revision with the lock the bytes then in the array
    that the queued slice shares with the reader.  However long [Listen]
    runs, no call has [released = false]. *)
Theorem asustor_listen_released_only :
  (forall l pc a pc' a' btn released,
     Asustor.Listen_step l pc a = (pc', a', Some (btn, released)) ->
     released = true
     /\ exists res q b,
          Asustor.btnC a = res :: q
          /\ nth_error (Asustor.view a res) 3 = Some b
          /\ btn = int_of_byte b)
  /\ (forall l pc a pc' a' btn released,
        AsustorLCD.Listen_step l pc a = (pc', a', Some (btn, released)) ->
        released = true
        /\ exists res q b,
             AsustorLCD.btnC a = res :: q
             /\ nth_error res 3 = Some b
             /\ btn = int_of_byte b)
  /\ (forall n l pc a,
        Forall (fun c : call => snd c = true)
          (snd (Asustor.Listen_steps n l pc a)))
  /\ (forall n l pc a,
        Forall (fun c : call => snd c = true)
          (snd (AsustorLCD.Listen_steps n l pc a))).
Proof.
  split; [exact asustor_step_call|].
  split; [exact asustorLCD_step_call|].
  split; [exact asustor_steps_released | exact asustorLCD_steps_released].
Qed.

Lemma asustor_listen_released_only_witness :
  let a := Asustor.set_btnC
             [Asustor.Bytes [B 240; B 1; B 128; B 2; B 115]]
             (Asustor.set_keepListening true asustor_open) in
  snd (Asustor.Listen_step (fun _ _ => true) LRecv a) = Some (2%Z, true)
  /\ exists res q b,
       Asustor.btnC a = res :: q
       /\ nth_error (Asustor.view a res) 3 = Some b
       /\ 2%Z = int_of_byte b.
Proof.
  intros a. split; [reflexivity|].
  exact (proj2 (proj1 asustor_listen_released_only (fun _ _ => true) LRecv a
                  LTest (Asustor.set_btnC [] a) 2%Z true eq_refl)).
Defined.

(** C9.  In the revision with the lock the callback of [Listen] does not
    always get the fourth byte of the button frame.  [Listen] has been
    entered and the port delivers the frame [240 1 128 2 115] of button
    2, then the acknowledgement [241 1 39 0 25].  The reader queues for
    the button frame a slice of the array of its buffer.  When [Listen]
    takes it before the next read, the callback is called with button 2.
    When the reader scans the acknowledgement first, its bytes have
    replaced those of the button frame in the array, and the callback is
    called with button 0, the fourth byte of the acknowledgement.  In
    asustor.go, where every read has a buffer of its own, the same two
    reads give button 2.  [released] is [true] in every one of the
    calls. *)
Theorem asustor_listen_button_overwritten :
  let btn := [B 240; B 1; B 128; B 2; B 115] in
  let ack := [B 241; B 1; B 39; B 0; B 25] in
  let l : callback := fun _ _ => true in
  let w := start (port_of [ReadData btn; ReadData ack] 0) in
  let '(pc, a) := Asustor.Listen_enter asustor_open in
  let '(a1, w1) := Asustor.read_turns 1 a w in
  let '(a2, _) := Asustor.read_turns 1 a1 w1 in
  let '(b2, _) := AsustorLCD.read_turns 2 asustorLCD_open w in
  valid_frame btn
  /\ nth_error btn 3 = Some (B 2)
  /\ Asustor.btnC a1 = [Asustor.BufBytes]
  /\ Asustor.view a1 Asustor.BufBytes = btn
  /\ snd (Asustor.Listen_steps 2 l pc a1) = [(2%Z, true)]
  /\ Asustor.btnC a2 = [Asustor.BufBytes]
  /\ Asustor.readC a2 = [Asustor.BufBytes]
  /\ Asustor.view a2 Asustor.BufBytes = ack
  /\ snd (Asustor.Listen_steps 2 l pc a2) = [(0%Z, true)]
  /\ AsustorLCD.btnC b2 = [btn]
  /\ AsustorLCD.readC b2 = [ack]
  /\ snd (AsustorLCD.Listen_steps 2 l
            (AsustorLCD.Listen_enter asustorLCD_open) b2)
     = [(2%Z, true)].
Proof.
  vm_compute. repeat split.
Qed.

(** ** The write path of the revision with the lock *)

(** A device that answers the probe of [Open] and acknowledges a write:
    [NewAsustorLCD] succeeds and leaves the session open with its reader
    running; [Write(0, "Hello")] then sends the 22 bytes of its frame once
    and returns nil. *)
Example asustor_open_then_write :
  let w := start (port_of [ReadData [B 241; B 1; B 17; B 0; B 3];
                           ReadData [B 241; B 1; B 39; B 0; B 25]] 1) in
  let '(r1, a1, w1) := Asustor.Open (Asustor.newLCD DefaultTTy) w in
  let '(r2, a2, w2) := Asustor.Write LineOne "Hello" a1 w1 in
  r1 = Ret None
  /\ Asustor.open a1 = true /\ Asustor.reading a1 = true
  /\ Asustor.con a1 = Some 0 /\ Asustor.retry a1 = B 0
  /\ r2 = Ret None
  /\ written (since w1 w2)
     = [makemsg (Asustor.strToBytes a1 LineOne "Hello")]
  /\ List.length (makemsg (Asustor.strToBytes a1 LineOne "Hello")) = 22.
Proof. vm_compute. repeat split. Qed.

(** The slice that the reader passes shares its array with the buffer: a
    frame still queued on the read channel shows the bytes of the frame
    that came after it. *)
Example asustor_queued_frame_overwritten :
  let ack := [B 241; B 1; B 39; B 0; B 25] in
  let other := [B 241; B 1; B 17; B 4; B 7] in
  let w := start (port_of [ReadData ack; ReadData other] 0) in
  let '(_, a1, w1) := Asustor.read_turn asustor_open w in
  let '(_, a2, _) := Asustor.read_turn a1 w1 in
  map (Asustor.view a1) (Asustor.readC a1) = [ack]
  /\ map (Asustor.view a2) (Asustor.readC a2) = [other; other].
Proof. vm_compute. split; reflexivity. Qed.

Lemma bytes_Equal_eq (x y : list byte) : bytes_Equal x y = true <-> x = y.
Proof.
  revert y. induction x as [|b x IH]; intros [|c y]; simpl;
    try (split; [discriminate | discriminate]); [tauto|].
  rewrite andb_true_iff, IH. split.
  - intros [Hb ->]. apply Byte.byte_dec_bl in Hb. now subst.
  - intros H; inversion H; subst. split; [apply Byte.byte_dec_lb|]; reflexivity.
Qed.

Lemma written_app (l1 l2 : list io_event) :
  written (l1 ++ l2) = written l1 ++ written l2.
Proof. apply flat_map_app. Qed.

Lemma acks_app (l1 l2 : list io_event) : acks (l1 ++ l2) = acks l1 ++ acks l2.
Proof. apply flat_map_app. Qed.

Lemma since_app (w w' : world) (evs : list io_event) :
  log w' = log w ++ evs -> since w w' = evs.
Proof.
  intros H. unfold since. rewrite H.
  rewrite skipn_app, skipn_all, Nat.sub_diag. reflexivity.
Qed.

Lemma extends_refl (w : world) : extends w w [].
Proof.
  unfold extends. rewrite app_nil_r. simpl. repeat split; lia.
Qed.

Lemma extends_trans (w1 w2 w3 : world) (e1 e2 : list io_event) :
  extends w1 w2 e1 -> extends w2 w3 e2 -> extends w1 w3 (e1 ++ e2).
Proof.
  intros (S1 & W1 & L1) (S2 & W2 & L2). unfold extends.
  rewrite written_app, length_app, app_assoc.
  repeat split; congruence || lia.
Qed.

Lemma asustor_scan_core (res : list byte) (a a' : Asustor.asustor) :
  Asustor.scan res a = Some a' -> Asustor.core a' = Asustor.core a.
Proof.
  revert a. induction res as [|c rest IH]; intros a; cbn [Asustor.scan].
  - intros H; inversion H; reflexivity.
  - destruct (Asustor.startFound a || Byte.eqb c (Asustor.replyByte a)
              || Byte.eqb c (Asustor.cmdByte a)); [|apply IH].
    match goal with |- context [Nat.eqb ?x 5] => destruct (Nat.eqb x 5) end.
    + unfold Asustor.pass.
      match goal with |- context [bytes_HasPrefix ?x ?y] =>
        destruct (bytes_HasPrefix x y) end;
      match goal with |- context [chan_send ?c ?q ?x] =>
        destruct (chan_send c q x) end; try discriminate;
      intros H; apply IH in H; rewrite H; reflexivity.
    + intros H; apply IH in H; rewrite H; reflexivity.
Qed.

Lemma asustor_read_turn_frame (a : Asustor.asustor) (w : world) r a' w' :
  Asustor.read_turn a w = (r, a', w') ->
  Asustor.core a' = Asustor.core a
  /\ waits w' = waits w
  /\ exists evs, extends w w' evs /\ written evs = [] /\ acks evs = [].
Proof.
  unfold Asustor.read_turn.
  assert (Hread : extends w (snd (con_Read w)) [IoRead]).
  { unfold extends; simpl. repeat split; lia. }
  destruct (Asustor.reading a); cbn [negb].
  2:{ intros H; inversion H; subst. repeat split.
      exists []. split; [apply extends_refl | split; reflexivity]. }
  destruct (Asustor.open a) eqn:Eo; cbn [negb].
  2:{ intros H; inversion H; subst. repeat split.
      exists []. split; [apply extends_refl | split; reflexivity]. }
  destruct (Asustor.con a) as [c|].
  2:{ intros H; inversion H; subst. repeat split.
      exists []. split; [apply extends_refl | split; reflexivity]. }
  destruct (port_read (script w) (reads w)) as [data|e|].
  - destruct (Asustor.scan (firstn (Asustor.msgSize a) data) a)
      as [a1|] eqn:Es.
    + intros H; inversion H; subst. split; [eapply asustor_scan_core; eauto|].
      split; [reflexivity|]. exists [IoRead]. auto.
    + intros H; inversion H; subst. repeat split.
      exists []. split; [apply extends_refl | split; reflexivity].
  - intros H; inversion H; subst. split; [reflexivity|].
    split; [reflexivity|]. exists [IoRead]. auto.
  - intros H; inversion H; subst. repeat split.
    exists []. split; [apply extends_refl | split; reflexivity].
Qed.

Lemma asustor_read_turns_frame (n : nat) (a : Asustor.asustor) (w : world)
  a' w' :
  Asustor.read_turns n a w = (a', w') ->
  Asustor.core a' = Asustor.core a
  /\ waits w' = waits w
  /\ exists evs, extends w w' evs /\ written evs = [] /\ acks evs = [].
Proof.
  revert a w. induction n as [|n IH]; intros a w; cbn [Asustor.read_turns].
  - intros H; inversion H; subst. repeat split.
    exists []. split; [apply extends_refl | split; reflexivity].
  - destruct (Asustor.read_turn a w) as [[r a1] w1] eqn:E1.
    apply asustor_read_turn_frame in E1.
    destruct E1 as (C1 & N1 & evs1 & X1 & Wr1 & A1).
    assert (Hstop : (a1, w1) = (a', w') ->
      Asustor.core a' = Asustor.core a /\ waits w' = waits w
      /\ exists evs, extends w w' evs /\ written evs = [] /\ acks evs = []).
    { intros H; inversion H; subst. repeat split; auto.
      exists evs1. auto. }
    destruct r as [[|]| | |]; try exact Hstop.
    intros H. apply IH in H. destruct H as (C2 & N2 & evs2 & X2 & Wr2 & A2).
    split; [congruence|]. split; [congruence|].
    exists (evs1 ++ evs2). split; [eapply extends_trans; eauto|].
    rewrite written_app, acks_app, Wr1, Wr2, A1, A2. auto.
Qed.

Lemma asustor_core_fields (a a' : Asustor.asustor) :
  Asustor.core a' = Asustor.core a ->
  Asustor.open a' = Asustor.open a
  /\ Asustor.con a' = Asustor.con a
  /\ Asustor.retry a' = Asustor.retry a
  /\ Asustor.replyMsgSentCheck a' = Asustor.replyMsgSentCheck a.
Proof.
  intros H.
  split; [exact (f_equal Asustor.open H)|].
  split; [exact (f_equal Asustor.con H)|].
  split; [exact (f_equal Asustor.retry H)|].
  exact (f_equal Asustor.replyMsgSentCheck H).
Qed.

Lemma asustor_flush_frame (data : list byte) (a : Asustor.asustor)
  (w : world) (c : nat) :
  Asustor.con a = Some c ->
  exists a' w',
    Asustor.flush data a w
    = (Ret (flushed (port_write (script w) (writes w) (makemsg data))
              (makemsg data)), a', w')
    /\ Asustor.core a' = Asustor.core a
    /\ Asustor.readC a' = Asustor.readC a
    /\ waits w' = waits w
    /\ extends w w' [IoWrite (makemsg data)].
Proof.
  intros Hc.
  unfold Asustor.flush, bind, Asustor.waitForFlushBetweenWrites, get, io.
  cbn [Asustor.con Asustor.set_lastFlush]. rewrite Hc.
  set (w1 := if (0 <? _)%Z then _ else w).
  assert (Hw1 : script w1 = script w /\ writes w1 = writes w
                /\ waits w1 = waits w /\ log w1 = log w).
  { unfold w1. destruct (0 <? _)%Z; simpl; auto. }
  destruct Hw1 as (S1 & W1 & N1 & L1).
  unfold con_Write. rewrite S1, W1.
  unfold flushed.
  destruct (port_write (script w) (writes w) (makemsg data)) as [n err].
  cbn [fst snd].
  assert (X : forall r, exists a' w',
    (Ret r, Asustor.set_lastFlush (now w1) a,
      {| script := script w; opens := opens w1; writes := S (writes w);
         reads := reads w1; closes := closes w1; waits := waits w1;
         now := now w1; log := log w1 ++ [IoWrite (makemsg data)] |})
    = (@Ret (option error) r, a', w')
    /\ Asustor.core a' = Asustor.core a
    /\ Asustor.readC a' = Asustor.readC a
    /\ waits w' = waits w
    /\ extends w w' [IoWrite (makemsg data)]).
  { intros r. eexists; eexists. split; [reflexivity|].
    split; [reflexivity|]. split; [reflexivity|]. split; [exact N1|].
    unfold extends; simpl. rewrite L1. repeat split; lia. }
  destruct err as [e|]; [apply X|].
  destruct (n =? Z.of_nat (List.length (makemsg data)))%Z; apply X.
Qed.

Lemma asustor_responseEqual_frame (checks : list (list byte))
  (a : Asustor.asustor) (w : world) :
  exists ok a' w' evs got,
    Asustor.responseEqual checks a w = (Ret ok, a', w')
    /\ Asustor.core a' = Asustor.core a
    /\ extends w w' (evs ++ [IoAck got])
    /\ written evs = [] /\ acks evs = []
    /\ ok = match got with
            | Some f => Asustor.open a && existsb (bytes_Equal f) checks
            | None => false
            end.
Proof.
  unfold Asustor.responseEqual.
  assert (H : exists a1 w1 evs,
    match Asustor.readC a with
    | [] => Asustor.read_turns (port_sched (script w) (waits w)) a
              (next_wait w)
    | _ :: _ => (a, next_wait w)
    end = (a1, w1)
    /\ Asustor.core a1 = Asustor.core a
    /\ extends w w1 evs /\ written evs = [] /\ acks evs = []).
  { destruct (Asustor.readC a).
    - destruct (Asustor.read_turns (port_sched (script w) (waits w)) a
                  (next_wait w)) as [a1 w1] eqn:E.
      apply asustor_read_turns_frame in E.
      destruct E as (C & _ & evs & X & Wr & A).
      exists a1, w1, evs. repeat split; auto; apply X.
    - exists a, (next_wait w), []. repeat split; auto.
      simpl. now rewrite app_nil_r. }
  destruct H as (a1 & w1 & evs & E & C & X & Wr & A). rewrite E.
  destruct (asustor_core_fields _ _ C) as (Ho & _).
  destruct (Asustor.readC a1) as [|res q] eqn:Eq.
  - exists false, a1, (note (IoAck None) (sleep (40 * Millisecond) w1)),
      evs, None.
    repeat split; auto; try apply X.
    + destruct X as (_ & X & _). simpl. rewrite X, !written_app, Wr. reflexivity.
    + destruct X as (_ & _ & X). simpl. now rewrite X, app_assoc.
  - set (a2 := Asustor.set_readC q a1).
    set (f := Asustor.view a2 res).
    exists (Asustor.open a && existsb (bytes_Equal f) checks), a2,
      (note (IoAck (Some f)) w1), evs, (Some f).
    split.
    { change (Asustor.open a2) with (Asustor.open a1). rewrite Ho.
      destruct (Asustor.open a); reflexivity. }
    repeat split; auto; try apply X.
    + destruct X as (_ & X & _). simpl. rewrite X, !written_app, Wr. reflexivity.
    + destruct X as (_ & _ & X). simpl. now rewrite X, app_assoc.
Qed.

(** One call of [write] on an open session, laid out: the flush, the
    wait for the acknowledgement, and what follows from its result. *)
Lemma asustor_write_unfold (msg : list byte)
  (a : Asustor.asustor) (w : world) (c : nat) :
  Asustor.open a = true ->
  Asustor.con a = Some c ->
  exists a1 w1 a2 w2 evs got,
    Asustor.core a1 = Asustor.core a
    /\ extends w w1 [IoWrite (makemsg msg)]
    /\ Asustor.core a2 = Asustor.core a
    /\ extends w1 w2 (evs ++ [IoAck got])
    /\ written evs = [] /\ acks evs = []
    /\ forall fuel,
       Asustor.write (S fuel) msg a w
       = match flushed (port_write (script w) (writes w) (makemsg msg))
                 (makemsg msg) with
         | Some e => (Ret (Some e), a1, w1)
         | None =>
           if match got with
              | Some f => bytes_Equal f (Asustor.replyMsgSentCheck a)
              | None => false
              end
           then (Ret None, Asustor.set_retry (B 0) a2, w2)
           else if (Asustor.retryBound <? Byte.to_N (Asustor.retry a))%N
                then (Ret (Some ErrDisplayNotWorking), a2, w2)
                else Asustor.write fuel msg
                       (Asustor.set_retry
                          (byte_add (Asustor.retry a) (B 1)) a2) w2
         end.
Proof.
  intros Ho Hc.
  destruct (asustor_flush_frame msg a w c Hc)
    as (a1 & w1 & Ef & C1 & _ & _ & X1).
  destruct (asustor_responseEqual_frame [Asustor.replyMsgSentCheck a] a1 w1)
    as (ok & a2 & w2 & evs & got & Er & C2 & X2 & Wr & A & Hok).
  exists a1, w1, a2, w2, evs, got.
  split; [exact C1|]. split; [exact X1|].
  split; [congruence|]. split; [exact X2|].
  split; [exact Wr|]. split; [exact A|].
  intros fuel.
  cbn [Asustor.write]. unfold bind at 1. unfold get at 1.
  rewrite Ho. cbn [negb]. unfold bind at 1. rewrite Ef.
  destruct (flushed _ _) as [e|]; [reflexivity|].
  unfold bind at 1. rewrite Er.
  destruct (asustor_core_fields _ _ C1) as (Ho1 & _).
  destruct (asustor_core_fields _ _ C2) as (_ & _ & Hr2 & _).
  destruct (asustor_core_fields _ _ C1) as (_ & _ & Hr1 & _).
  assert (Hok' : ok = match got with
                      | Some f => bytes_Equal f (Asustor.replyMsgSentCheck a)
                      | None => false
                      end).
  { rewrite Hok. destruct got as [f|]; [|reflexivity].
    rewrite Ho1, Ho. simpl. now rewrite orb_false_r. }
  rewrite <- Hok'. destruct ok; cbn [negb].
  - reflexivity.
  - unfold bind at 1. unfold get at 1. rewrite Hr2, Hr1.
    destruct (Asustor.retryBound <? Byte.to_N (Asustor.retry a))%N;
      reflexivity.
Qed.

Lemma byte_succ (r : byte) :
  (Byte.to_N r <= 10)%N ->
  Byte.to_N (byte_add r (B 1)) = (Byte.to_N r + 1)%N.
Proof.
  intros H. rewrite to_N_byte_add. change (Byte.to_N (B 1)) with 1%N.
  apply N.mod_small. lia.
Qed.

Lemma attempts_pos (r : byte) : 1 <= Asustor.attempts r.
Proof.
  unfold Asustor.attempts, Asustor.retryBound.
  destruct (10 <? Byte.to_N r)%N eqn:E; [lia|].
  apply N.ltb_ge in E. lia.
Qed.

Lemma attempts_le_depth (r : byte) : Asustor.attempts r <= 12.
Proof.
  unfold Asustor.attempts. destruct (_ <? _)%N; lia.
Qed.

Lemma attempts_succ (r : byte) :
  (Byte.to_N r <= 10)%N ->
  Asustor.attempts r = S (Asustor.attempts (byte_add r (B 1))).
Proof.
  intros H. unfold Asustor.attempts, Asustor.retryBound.
  rewrite byte_succ by exact H.
  destruct (10 <? Byte.to_N r)%N eqn:E1; [apply N.ltb_lt in E1; lia|].
  destruct (10 <? Byte.to_N r + 1)%N eqn:E2.
  - apply N.ltb_lt in E2. lia.
  - apply N.ltb_ge in E2. lia.
Qed.

Lemma flushed_whole (p : port) (k : nat) (d : list byte) :
  takes_writes p -> flushed (port_write p k d) d = None.
Proof.
  intros H. rewrite H. unfold flushed. cbn [fst snd].
  now rewrite Z.eqb_refl.
Qed.

Lemma asustor_core_retry (r : byte) (a : Asustor.asustor) :
  Asustor.core (Asustor.set_retry r a) = Asustor.set_retry r (Asustor.core a).
Proof. reflexivity. Qed.

Lemma asustor_set_retry_twice (r r' : byte) (a : Asustor.asustor) :
  Asustor.set_retry r (Asustor.set_retry r' a) = Asustor.set_retry r a.
Proof. reflexivity. Qed.

Lemma asustor_set_retry_same (a : Asustor.asustor) :
  Asustor.set_retry (Asustor.retry a) a = a.
Proof. destruct a; reflexivity. Qed.

Lemma but_retry_core (a a' : Asustor.asustor) :
  Asustor.core a' = Asustor.core a -> but_retry a a'.
Proof.
  intros C. unfold but_retry. rewrite asustor_core_retry, C.
  rewrite <- asustor_core_retry. now rewrite asustor_set_retry_same.
Qed.

Lemma but_retry_set (r : byte) (a a' : Asustor.asustor) :
  but_retry a a' -> but_retry a (Asustor.set_retry r a').
Proof. unfold but_retry. now rewrite asustor_set_retry_twice. Qed.

Lemma but_retry_trans (a a' a'' : Asustor.asustor) :
  but_retry a a' -> but_retry a' a'' -> but_retry a a''.
Proof.
  unfold but_retry. intros H1 H2.
  rewrite asustor_core_retry in *.
  rewrite <- (asustor_set_retry_twice _ (Asustor.retry a')).
  now rewrite H2, <- asustor_core_retry, asustor_core_retry.
Qed.

(** The run of [write] on an open session: it returns, having written
    the frame [j] times, one time at least and [attempts] times at most,
    in one of three ways.  The last wait met the expected acknowledgement:
    the result is nil and the counter is zero.  Or no wait met it and the
    call gave up: the result is [ErrDisplayNotWorking], the frame was
    written [attempts] times and the counter is beyond the bound.  Or
    the port did not take the [j]-th write: its error is the result, and
    the counter has grown by the [j - 1] retries. *)
Lemma asustor_write_run (k : nat) :
  forall (fuel : nat) (msg : list byte) (a : Asustor.asustor) (w : world)
         (c : nat),
    Asustor.open a = true ->
    Asustor.con a = Some c ->
    11 - N.to_nat (Byte.to_N (Asustor.retry a)) <= k ->
    k < fuel ->
    exists r a' w' evs j,
      Asustor.write fuel msg a w = (Ret r, a', w')
      /\ extends w w' evs
      /\ written evs = repeat (makemsg msg) j
      /\ 1 <= j <= Asustor.attempts (Asustor.retry a)
      /\ but_retry a a'
      /\ ((r = None
           /\ List.length (acks evs) = j
           /\ last (acks evs) None = Some (Asustor.replyMsgSentCheck a)
           /\ Asustor.retry a' = B 0)
          \/ (r = Some ErrDisplayNotWorking
              /\ List.length (acks evs) = j
              /\ Forall (fun g => g <> Some (Asustor.replyMsgSentCheck a))
                   (acks evs)
              /\ j = Asustor.attempts (Asustor.retry a)
              /\ Asustor.retry a'
                 = if (Asustor.retryBound <? Byte.to_N (Asustor.retry a))%N
                   then Asustor.retry a else B 11)
          \/ (flushed (port_write (script w) (writes w + (j - 1))
                         (makemsg msg)) (makemsg msg) = r
              /\ r <> None
              /\ List.length (acks evs) = j - 1
              /\ Forall (fun g => g <> Some (Asustor.replyMsgSentCheck a))
                   (acks evs)
              /\ Byte.to_N (Asustor.retry a')
                 = (Byte.to_N (Asustor.retry a) + N.of_nat (j - 1))%N)).
Proof.
  induction k as [|k IH]; intros fuel msg a w c Ho Hc Hk Hf.
  all: destruct fuel as [|fuel]; [lia|].
  all: destruct (asustor_write_unfold msg a w c Ho Hc)
         as (a1 & w1 & a2 & w2 & evs & got & C1 & X1 & C2 & X2 & Wr & A & E).
  all: specialize (E fuel).
  all: pose proof (attempts_pos (Asustor.retry a)) as Hpos.
  all: destruct (flushed (port_write (script w) (writes w) (makemsg msg))
                   (makemsg msg)) as [e|] eqn:Ef.
  1,3: (* the port did not take the write *)
    exists (Some e), a1, w1, [IoWrite (makemsg msg)], 1;
    split; [exact E|]; split; [exact X1|]; split; [reflexivity|];
    split; [lia|]; split; [apply but_retry_core, C1|];
    right; right; cbn [Nat.sub]; rewrite Nat.add_0_r;
    split; [exact Ef|]; split; [discriminate|]; split; [reflexivity|];
    split; [constructor|];
    rewrite (proj1 (proj2 (proj2 (asustor_core_fields _ _ C1))));
    cbn; lia.
  all: assert (X : extends w w2 ([IoWrite (makemsg msg)] ++ evs ++ [IoAck got]))
         by (eapply extends_trans; eauto).
  all: assert (Hw : written ([IoWrite (makemsg msg)] ++ evs ++ [IoAck got])
                    = repeat (makemsg msg) 1)
         by (rewrite !written_app, Wr; reflexivity).
  all: assert (Ha : acks ([IoWrite (makemsg msg)] ++ evs ++ [IoAck got])
                    = [got])
         by (rewrite !acks_app, A; reflexivity).
  all: destruct (match got with
                 | Some f => bytes_Equal f (Asustor.replyMsgSentCheck a)
                 | None => false
                 end) eqn:Eg.
  1,3: (* acknowledged *)
    exists None, (Asustor.set_retry (B 0) a2), w2,
      ([IoWrite (makemsg msg)] ++ evs ++ [IoAck got]), 1;
    split; [exact E|]; split; [exact X|]; split; [exact Hw|];
    split; [lia|];
    split; [apply but_retry_set, but_retry_core, C2|];
    left; split; [reflexivity|]; split; [rewrite Ha; reflexivity|];
    split; [|reflexivity];
    rewrite Ha; destruct got as [f|]; [|discriminate];
    apply bytes_Equal_eq in Eg; subst; reflexivity.
  all: assert (Hg : got <> Some (Asustor.replyMsgSentCheck a))
         by (intros ->; rewrite (proj2 (bytes_Equal_eq _ _) eq_refl) in Eg;
             discriminate).
  all: destruct (Asustor.retryBound <? Byte.to_N (Asustor.retry a))%N eqn:Er.
  1,3: (* the counter is beyond the bound *)
    exists (Some ErrDisplayNotWorking), a2, w2,
      ([IoWrite (makemsg msg)] ++ evs ++ [IoAck got]), 1;
    split; [exact E|]; split; [exact X|]; split; [exact Hw|];
    split; [lia|];
    split; [apply but_retry_core, C2|];
    right; left; split; [reflexivity|];
    split; [rewrite Ha; reflexivity|];
    split; [rewrite Ha; constructor; [exact Hg | constructor]|];
    split; [unfold Asustor.attempts; rewrite Er; reflexivity|];
    exact (proj1 (proj2 (proj2 (asustor_core_fields _ _ C2)))).
  - (* no call is left, yet the counter is within the bound *)
    apply N.ltb_ge in Er. unfold Asustor.retryBound in Er. lia.
  - (* one more call *)
    apply N.ltb_ge in Er. unfold Asustor.retryBound in Er.
    set (a3 := Asustor.set_retry (byte_add (Asustor.retry a) (B 1)) a2) in *.
    destruct (asustor_core_fields _ _ C2) as (Ho2 & Hc2 & Hr2 & Hm2).
    destruct (IH fuel msg a3 w2 c) as
      (r & a' & w' & evs' & j & E' & X' & Hw' & Hj & C' & Hcases).
    + unfold a3. cbn. congruence.
    + unfold a3. cbn. congruence.
    + unfold a3. cbn [Asustor.retry Asustor.set_retry].
      rewrite byte_succ by exact Er. lia.
    + lia.
    + change (Asustor.retry a3) with (byte_add (Asustor.retry a) (B 1)) in *.
      change (Asustor.replyMsgSentCheck a3)
        with (Asustor.replyMsgSentCheck a2) in *.
      rewrite Hm2 in Hcases.
      exists r, a', w',
        (([IoWrite (makemsg msg)] ++ evs ++ [IoAck got]) ++ evs'), (S j).
      split; [congruence|].
      split; [eapply extends_trans; eauto|].
      split; [rewrite written_app, Hw, Hw'; reflexivity|].
      split; [rewrite (attempts_succ _ Er); lia|].
      split.
      { apply (but_retry_trans a a3 a'); [|exact C'].
        apply but_retry_set, but_retry_core, C2. }
      destruct Hcases as [(-> & Hn & Hl & Hz) | [(-> & Hn & Hall & Hja & Hz)
                          | (Hfl & Hne & Hn & Hall & Hz)]].
      * left. split; [reflexivity|].
        split; [rewrite acks_app, Ha, length_app, Hn; reflexivity|].
        split; [|exact Hz].
        rewrite acks_app, Ha.
        destruct (acks evs') as [|g gs] eqn:Eacks; [simpl in Hn; lia|].
        cbn [app]. exact Hl.
      * right; left. split; [reflexivity|].
        split; [rewrite acks_app, Ha, length_app, Hn; reflexivity|].
        split; [rewrite acks_app, Ha; constructor; assumption|].
        split; [rewrite (attempts_succ _ Er); congruence|].
        rewrite Hz.
        destruct (Asustor.retryBound
                    <? Byte.to_N (byte_add (Asustor.retry a) (B 1)))%N
          eqn:Er'; [|reflexivity].
        apply N.ltb_lt in Er'. unfold Asustor.retryBound in Er'.
        rewrite byte_succ in Er' by exact Er.
        apply to_N_inj. rewrite byte_succ by exact Er.
        change (Byte.to_N (B 11)) with 11%N. lia.
      * right; right.
        destruct X as (S2 & W2 & _). rewrite Hw in W2. cbn in W2.
        rewrite S2, W2 in Hfl.
        replace (writes w + (S j - 1)) with (writes w + 1 + (j - 1)) by lia.
        split; [exact Hfl|]. split; [exact Hne|].
        split; [rewrite acks_app, Ha, length_app, Hn; cbn; lia|].
        split; [rewrite acks_app, Ha; constructor; assumption|].
        rewrite Hz, byte_succ by exact Er. lia.
Qed.

Lemma asustor_write_closed (fuel : nat) (msg : list byte)
  (a : Asustor.asustor) (w : world) :
  Asustor.open a = false ->
  Asustor.write (S fuel) msg a w = (Ret (Some ErrClosed), a, w).
Proof.
  intros Ho. cbn [Asustor.write]. unfold bind, get. now rewrite Ho.
Qed.

Lemma asustor_flush_nil (data : list byte) (a : Asustor.asustor) (w : world) :
  Asustor.con a = None ->
  exists a' w', Asustor.flush data a w = (Panicked, a', w').
Proof.
  intros Hc.
  unfold Asustor.flush, bind, Asustor.waitForFlushBetweenWrites, get.
  cbn [Asustor.con Asustor.set_lastFlush]. rewrite Hc.
  eexists; eexists; reflexivity.
Qed.

Lemma asustor_write_nil (msg : list byte) (a : Asustor.asustor) (w : world) :
  Asustor.open a = true ->
  Asustor.con a = None ->
  exists a' w', forall fuel,
    Asustor.write (S fuel) msg a w = (Panicked, a', w').
Proof.
  intros Ho Hc.
  destruct (asustor_flush_nil msg a w Hc) as (a' & w' & E).
  exists a', w'. intros fuel.
  cbn [Asustor.write]. unfold bind at 1. unfold get at 1.
  rewrite Ho. cbn [negb]. unfold bind at 1. now rewrite E.
Qed.

(** [write] never goes deeper than [depth] calls: whatever the session
    and the world, from [depth] on the fuel makes no difference, and the
    answer is never [Unfinished]. *)
Lemma asustor_write_fuel (k : nat) :
  forall (fuel1 fuel2 : nat) (msg : list byte) (a : Asustor.asustor)
         (w : world),
    11 - N.to_nat (Byte.to_N (Asustor.retry a)) <= k ->
    k < fuel1 -> k < fuel2 ->
    Asustor.write fuel1 msg a w = Asustor.write fuel2 msg a w
    /\ fst (fst (Asustor.write fuel1 msg a w)) <> Unfinished.
Proof.
  induction k as [|k IH]; intros fuel1 fuel2 msg a w Hk H1 H2.
  all: destruct fuel1 as [|fuel1]; [lia|].
  all: destruct fuel2 as [|fuel2]; [lia|].
  all: destruct (Asustor.open a) eqn:Ho;
    [|rewrite !asustor_write_closed by exact Ho;
      split; [reflexivity | discriminate]].
  all: destruct (Asustor.con a) as [c|] eqn:Hc;
    [|destruct (asustor_write_nil msg a w Ho Hc) as (a' & w' & E);
      rewrite !E; split; [reflexivity | discriminate]].
  all: destruct (asustor_write_unfold msg a w c Ho Hc)
         as (a1 & w1 & a2 & w2 & evs & got & C1 & X1 & C2 & X2 & Wr & A & E).
  all: rewrite !E.
  all: destruct (flushed _ _); [split; [reflexivity | discriminate]|].
  all: destruct (match got with
                 | Some f => bytes_Equal f (Asustor.replyMsgSentCheck a)
                 | None => false
                 end); [split; [reflexivity | discriminate]|].
  all: destruct (Asustor.retryBound <? Byte.to_N (Asustor.retry a))%N eqn:Er;
    [split; [reflexivity | discriminate]|].
  all: apply N.ltb_ge in Er; unfold Asustor.retryBound in Er.
  - lia.
  - apply IH; try lia.
    cbn [Asustor.retry Asustor.set_retry].
    rewrite byte_succ by exact Er. lia.
Qed.

Lemma asustor_write_depth (fuel : nat) (msg : list byte)
  (a : Asustor.asustor) (w : world) :
  Asustor.depth <= fuel ->
  Asustor.write fuel msg a w = Asustor.write Asustor.depth msg a w
  /\ fst (fst (Asustor.write fuel msg a w)) <> Unfinished.
Proof.
  intros H. apply (asustor_write_fuel 11); unfold Asustor.depth in *; lia.
Qed.

Lemma in_acks (g : option (list byte)) (l : list io_event) :
  In g (acks l) -> In (IoAck g) l.
Proof.
  unfold acks. rewrite in_flat_map. intros (e & He & Hg).
  destruct e; simpl in Hg; try contradiction.
  destruct Hg as [->|[]]. exact He.
Qed.

Lemma last_in {A : Type} (l : list A) (d : A) : l <> [] -> In (last l d) l.
Proof.
  induction l as [|x l IH]; [congruence|]. intros _.
  destruct l as [|y l]; [left; reflexivity|].
  right. apply IH. discriminate.
Qed.

Lemma asustor_Write_write (line : Line) (text : string)
  (a : Asustor.asustor) (w : world) :
  Asustor.Write line text a w
  = Asustor.write Asustor.depth (Asustor.strToBytes a line text) a w.
Proof. reflexivity. Qed.

(** C1, as the code has it.  On an open session whose port takes every
    write, [Write] always returns, never more than [depth] calls deep, and
    never writes the frame more than [attempts] times: 12 less the value
    of the retry counter at entry when that is 10 at most, once when it
    is more.  When every wait for the acknowledgement times out or
    yields another frame, [Write] returns [ErrDisplayNotWorking] after
    exactly that many attempts and leaves the counter beyond the bound.
    A fresh session makes 12 attempts. *)
Theorem asustor_write_gives_up (line : Line) (text : string)
  (a : Asustor.asustor) (w : world) :
  Asustor.open a = true ->
  Asustor.con a <> None ->
  takes_writes (script w) ->
  exists r a' w',
    Asustor.Write line text a w = (Ret r, a', w')
    /\ (forall fuel, Asustor.depth <= fuel ->
          Asustor.write fuel (Asustor.strToBytes a line text) a w
          = (Ret r, a', w'))
    /\ List.length (written (since w w'))
       <= Asustor.attempts (Asustor.retry a)
    /\ ((forall got, In (IoAck got) (since w w') ->
           got <> Some (Asustor.replyMsgSentCheck a)) ->
        r = Some ErrDisplayNotWorking
        /\ written (since w w')
           = repeat (makemsg (Asustor.strToBytes a line text))
               (Asustor.attempts (Asustor.retry a))
        /\ List.length (acks (since w w'))
           = Asustor.attempts (Asustor.retry a)
        /\ (Asustor.retryBound < Byte.to_N (Asustor.retry a'))%N)
    /\ Asustor.attempts (Asustor.retry a) <= 12
    /\ Asustor.attempts (B 0) = 12.
Proof.
  intros Ho Hc Hp.
  destruct (Asustor.con a) as [c|] eqn:Ec; [clear Hc | congruence].
  set (msg := Asustor.strToBytes a line text).
  destruct (asustor_write_run 11 Asustor.depth msg a w c Ho Ec)
    as (r & a' & w' & evs & j & E & X & Hw & Hj & _ & Hcases);
    [lia | unfold Asustor.depth; lia |].
  exists r, a', w'.
  rewrite (since_app w w' evs) by apply X.
  split; [exact E|].
  split; [intros fuel Hf;
          rewrite (proj1 (asustor_write_depth fuel msg a w Hf)); exact E|].
  split; [rewrite Hw, repeat_length; lia|].
  split; [|split; [apply attempts_le_depth | reflexivity]].
  intros Hno.
  destruct Hcases as [(-> & Hn & Hl & Hz) | [(-> & Hn & Hall & Hja & Hz)
                      | (Hfl & Hne & _)]].
  - exfalso. apply (Hno (Some (Asustor.replyMsgSentCheck a))); [|reflexivity].
    apply in_acks. rewrite <- Hl. apply last_in.
    destruct (acks evs); [simpl in Hn; lia | discriminate].
  - split; [reflexivity|]. split; [congruence|]. split; [congruence|].
    rewrite Hz. unfold Asustor.retryBound.
    destruct (10 <? Byte.to_N (Asustor.retry a))%N eqn:Er.
    + now apply N.ltb_lt in Er.
    + change (Byte.to_N (B 11)) with 11%N. lia.
  - rewrite (flushed_whole _ _ _ Hp) in Hfl. congruence.
Qed.

Lemma asustor_write_gives_up_witness :
  exists r a' w',
    Asustor.Write 0%Z "Hello" asustor_open (start mute) = (Ret r, a', w')
    /\ (forall fuel, Asustor.depth <= fuel ->
          Asustor.write fuel (Asustor.strToBytes asustor_open 0%Z "Hello")
            asustor_open (start mute)
          = (Ret r, a', w'))
    /\ List.length (written (since (start mute) w'))
       <= Asustor.attempts (Asustor.retry asustor_open)
    /\ ((forall got, In (IoAck got) (since (start mute) w') ->
           got <> Some (Asustor.replyMsgSentCheck asustor_open)) ->
        r = Some ErrDisplayNotWorking
        /\ written (since (start mute) w')
           = repeat (makemsg (Asustor.strToBytes asustor_open 0%Z "Hello"))
               (Asustor.attempts (Asustor.retry asustor_open))
        /\ List.length (acks (since (start mute) w'))
           = Asustor.attempts (Asustor.retry asustor_open)
        /\ (Asustor.retryBound < Byte.to_N (Asustor.retry a'))%N)
    /\ Asustor.attempts (Asustor.retry asustor_open) <= 12
    /\ Asustor.attempts (B 0) = 12.
Proof.
  apply (asustor_write_gives_up 0%Z "Hello" asustor_open (start mute)).
  - reflexivity.
  - discriminate.
  - intros k d. reflexivity.
Defined.

(** C1 as the specification has it fails.  On a fresh open session whose
    device never answers, every one of the waits times out and [Write]
    gives up after 12 attempts, not after the 10 of the bound; the next
    [Write] on the same session gives up after one. *)
Lemma asustor_write_attempts_counterexample :
  let '(r1, a1, w1) :=
    Asustor.Write 0%Z "Hello" asustor_open (start mute) in
  let '(r2, a2, w2) := Asustor.Write 0%Z "Hello" a1 w1 in
  r1 = Ret (Some ErrDisplayNotWorking)
  /\ acks (log w1) = repeat None 12
  /\ List.length (written (log w1)) = 12
  /\ 12 <> N.to_nat Asustor.retryBound
  /\ r2 = Ret (Some ErrDisplayNotWorking)
  /\ acks (since w1 w2) = [None]
  /\ List.length (written (since w1 w2)) = 1
  /\ 1 < N.to_nat Asustor.retryBound.
Proof.
  vm_compute. repeat split; try discriminate. lia.
Qed.

(** C10, as the code has it.  The retry counter is a field of the
    session.  A [Write] leaves it at zero only when it was acknowledged,
    or found it at zero and changed nothing.  A [Write] that returns
    [ErrDisplayNotWorking] after a frame that the port took has made all
    its attempts, none of them acknowledged, and leaves the counter
    beyond the bound.  While the counter is beyond the bound a [Write] on
    that session makes a single attempt.  When the port refuses the frame
    it returns the error of the port; when its wait for the
    acknowledgement fails it returns [ErrDisplayNotWorking]; both
    without any retry and with the counter where it was, so the same
    holds for the next one.  When the acknowledgement comes it returns
    nil and the counter is zero again.  A [Write] that finds the counter
    at zero makes up to 12 attempts, and all of them when the port takes
    the frames and no wait is acknowledged. *)
Theorem asustor_retry_counter_sticks (line : Line) (text : string)
  (a : Asustor.asustor) (w : world) :
  Asustor.open a = true ->
  Asustor.con a <> None ->
  let frame := makemsg (Asustor.strToBytes a line text) in
  let ack := Some (Asustor.replyMsgSentCheck a) in
  exists r a' w' j,
    Asustor.Write line text a w = (Ret r, a', w')
    /\ written (since w w') = repeat frame j
    /\ 1 <= j <= Asustor.attempts (Asustor.retry a)
    /\ (Asustor.retry a' = B 0 -> r = None \/ Asustor.retry a = B 0)
    /\ (r = None ->
        Asustor.retry a' = B 0 /\ last (acks (since w w')) None = ack)
    /\ (r = Some ErrDisplayNotWorking ->
        flushed (port_write (script w) (writes w + (j - 1)) frame) frame
        = None ->
        (Asustor.retryBound < Byte.to_N (Asustor.retry a'))%N
        /\ j = Asustor.attempts (Asustor.retry a)
        /\ Forall (fun g => g <> ack) (acks (since w w')))
    /\ (Forall (fun g => g <> ack) (acks (since w w')) ->
        flushed (port_write (script w) (writes w + (j - 1)) frame) frame
        = None ->
        r = Some ErrDisplayNotWorking)
    /\ ((Asustor.retryBound < Byte.to_N (Asustor.retry a))%N ->
        j = 1
        /\ match flushed (port_write (script w) (writes w) frame) frame with
           | Some e =>
             r = Some e
             /\ acks (since w w') = []
             /\ Asustor.retry a' = Asustor.retry a
           | None =>
             exists got,
               acks (since w w') = [got]
               /\ (got = ack -> r = None /\ Asustor.retry a' = B 0)
               /\ (got <> ack ->
                   r = Some ErrDisplayNotWorking
                   /\ Asustor.retry a' = Asustor.retry a)
           end)
    /\ Asustor.attempts (B 0) = 12.
Proof.
  intros Ho Hc frame ack.
  destruct (Asustor.con a) as [c|] eqn:Ec; [clear Hc | congruence].
  set (msg := Asustor.strToBytes a line text) in *.
  destruct (asustor_write_run 11 Asustor.depth msg a w c Ho Ec)
    as (r & a' & w' & evs & j & E & X & Hw & Hj & _ & Hcases);
    [lia | unfold Asustor.depth; lia |].
  exists r, a', w', j.
  rewrite (since_app w w' evs) by apply X.
  split; [exact E|]. split; [exact Hw|]. split; [exact Hj|].
  (* the single attempt beyond the bound, from the body of [write] *)
  assert (Hone : (Asustor.retryBound < Byte.to_N (Asustor.retry a))%N ->
            j = 1
            /\ match flushed (port_write (script w) (writes w) frame) frame with
               | Some e =>
                 r = Some e /\ acks evs = []
                 /\ Asustor.retry a' = Asustor.retry a
               | None =>
                 exists got,
                   acks evs = [got]
                   /\ (got = ack -> r = None /\ Asustor.retry a' = B 0)
                   /\ (got <> ack ->
                       r = Some ErrDisplayNotWorking
                       /\ Asustor.retry a' = Asustor.retry a)
               end).
  { intros Hb.
    assert (Hj1 : j = 1).
    { unfold Asustor.attempts in Hj. apply N.ltb_lt in Hb.
      rewrite Hb in Hj. lia. }
    split; [exact Hj1|].
    destruct (asustor_write_unfold msg a w c Ho Ec)
      as (a1 & w1 & a2 & w2 & evs' & got & C1 & X1 & C2 & X2 & Wr & A & U).
    specialize (U 11). change (S 11) with Asustor.depth in U.
    rewrite E in U. fold frame in U.
    destruct X as (_ & _ & L).
    destruct X1 as (_ & _ & L1). destruct X2 as (_ & _ & L2).
    destruct (flushed (port_write (script w) (writes w) frame) frame)
      as [e|].
    - inversion U; subst r a' w'.
      rewrite L1 in L. apply app_inv_head in L. subst evs.
      split; [reflexivity|]. split; [reflexivity|].
      apply (asustor_core_fields _ _ C1).
    - rewrite (proj2 (N.ltb_lt _ _) Hb) in U.
      assert (La : acks evs = [got]).
      { assert (L' : log w' = log w ++ [IoWrite (makemsg msg)]
                                ++ evs' ++ [IoAck got]).
        { destruct (match got with
                    | Some f => bytes_Equal f (Asustor.replyMsgSentCheck a)
                    | None => false
                    end); inversion U; subst w';
            rewrite L2, L1, <- app_assoc; reflexivity. }
        rewrite L in L'. apply app_inv_head in L'. subst evs.
        rewrite !acks_app, A. reflexivity. }
      exists got. split; [exact La|].
      destruct (match got with
                | Some f => bytes_Equal f (Asustor.replyMsgSentCheck a)
                | None => false
                end) eqn:Eg; inversion U; subst r a' w'.
      + split; [auto|]. intros Hne. exfalso. apply Hne.
        destruct got as [f|]; [|discriminate].
        apply bytes_Equal_eq in Eg. unfold ack. now subst.
      + split.
        * intros Hg. exfalso. subst got. unfold ack in Eg.
          now rewrite (proj2 (bytes_Equal_eq _ _) eq_refl) in Eg.
        * intros _. split; [reflexivity|].
          apply (asustor_core_fields _ _ C2). }
  destruct Hcases as [(-> & Hn & Hl & Hz) | [(-> & Hn & Hall & Hja & Hz)
                      | (Hfl & Hne & Hn & Hall & Hz)]].
  - (* acknowledged *)
    split; [auto|]. split; [auto|]. split; [discriminate|].
    split; [|split; [exact Hone | reflexivity]].
    intros Hno _. exfalso.
    assert (Hin : In (last (acks evs) None) (acks evs)).
    { apply last_in. destruct (acks evs); [simpl in Hn; lia | discriminate]. }
    rewrite Forall_forall in Hno. apply (Hno _ Hin). exact Hl.
  - (* gave up *)
    assert (Hbeyond : (Asustor.retryBound < Byte.to_N (Asustor.retry a'))%N).
    { rewrite Hz. unfold Asustor.retryBound.
      destruct (10 <? Byte.to_N (Asustor.retry a))%N eqn:Er.
      - now apply N.ltb_lt in Er.
      - change (Byte.to_N (B 11)) with 11%N. lia. }
    split.
    { intros H0. rewrite H0 in Hbeyond.
      change (Byte.to_N (B 0)) with 0%N in Hbeyond.
      unfold Asustor.retryBound in Hbeyond. lia. }
    split; [discriminate|]. split; [auto|].
    split; [auto|]. split; [exact Hone | reflexivity].
  - (* the port refused a write *)
    fold frame in Hfl.
    split.
    { intros H0. right. apply to_N_inj. rewrite H0 in Hz.
      change (Byte.to_N (B 0)) with 0%N in *. lia. }
    split; [intros ->; congruence|].
    split; [intros _ Hf; congruence|].
    split; [intros _ Hf; congruence|].
    split; [exact Hone | reflexivity].
Qed.

Lemma asustor_retry_counter_sticks_witness :
  let a := Asustor.set_retry (B 11) asustor_open in
  let frame := makemsg (Asustor.strToBytes a 1%Z "Hello") in
  let ack := Some (Asustor.replyMsgSentCheck a) in
  let w := start mute in
  exists r a' w' j,
    Asustor.Write 1%Z "Hello" a w = (Ret r, a', w')
    /\ written (since w w') = repeat frame j
    /\ 1 <= j <= Asustor.attempts (Asustor.retry a)
    /\ (Asustor.retry a' = B 0 -> r = None \/ Asustor.retry a = B 0)
    /\ (r = None ->
        Asustor.retry a' = B 0 /\ last (acks (since w w')) None = ack)
    /\ (r = Some ErrDisplayNotWorking ->
        flushed (port_write (script w) (writes w + (j - 1)) frame) frame
        = None ->
        (Asustor.retryBound < Byte.to_N (Asustor.retry a'))%N
        /\ j = Asustor.attempts (Asustor.retry a)
        /\ Forall (fun g => g <> ack) (acks (since w w')))
    /\ (Forall (fun g => g <> ack) (acks (since w w')) ->
        flushed (port_write (script w) (writes w + (j - 1)) frame) frame
        = None ->
        r = Some ErrDisplayNotWorking)
    /\ ((Asustor.retryBound < Byte.to_N (Asustor.retry a))%N ->
        j = 1
        /\ match flushed (port_write (script w) (writes w) frame) frame with
           | Some e =>
             r = Some e
             /\ acks (since w w') = []
             /\ Asustor.retry a' = Asustor.retry a
           | None =>
             exists got,
               acks (since w w') = [got]
               /\ (got = ack -> r = None /\ Asustor.retry a' = B 0)
               /\ (got <> ack ->
                   r = Some ErrDisplayNotWorking
                   /\ Asustor.retry a' = Asustor.retry a)
           end)
    /\ Asustor.attempts (B 0) = 12.
Proof.
  intros a frame ack w.
  apply (asustor_retry_counter_sticks 1%Z "Hello" a w).
  - reflexivity.
  - discriminate.
Defined.

(** C10 as the specification has it fails: not every [Write] after a
    [Write] that gave up fails.  The device is silent during the twelve
    attempts of the first [Write], which gives up with the counter at 11;
    it acknowledges the second, which succeeds at its single attempt and
    puts the counter back to zero. *)
Lemma asustor_write_after_giving_up_counterexample :
  let '(r1, a1, w1) :=
    Asustor.Write 0%Z "Hello" asustor_open (start late) in
  let '(r2, a2, w2) := Asustor.Write 0%Z "Hello" a1 w1 in
  r1 = Ret (Some ErrDisplayNotWorking)
  /\ List.length (written (log w1)) = 12
  /\ Asustor.retry a1 = B 11
  /\ r2 = Ret None
  /\ List.length (written (since w1 w2)) = 1
  /\ Asustor.retry a2 = B 0.
Proof.
  vm_compute. repeat split.
Qed.

(** Three calls of [Write] in a row on a fresh open session.  The first
    is never acknowledged: 12 attempts, and the counter is left at 11.
    The second is acknowledged at its single attempt and puts the
    counter back to zero.  The third, never acknowledged, makes 12
    attempts again. *)
Lemma asustor_write_retries_again :
  let '(r1, a1, w1) :=
    Asustor.Write 0%Z "Hello" asustor_open (start once) in
  let '(r2, a2, w2) := Asustor.Write 0%Z "Hello" a1 w1 in
  let '(r3, a3, w3) := Asustor.Write 0%Z "Hello" a2 w2 in
  r1 = Ret (Some ErrDisplayNotWorking)
  /\ List.length (written (log w1)) = 12
  /\ Asustor.retry a1 = B 11
  /\ r2 = Ret None
  /\ List.length (written (since w1 w2)) = 1
  /\ Asustor.retry a2 = B 0
  /\ r3 = Ret (Some ErrDisplayNotWorking)
  /\ List.length (written (since w2 w3)) = 12
  /\ Asustor.retry a3 = B 11.
Proof.
  vm_compute. repeat split.
Qed.

(** ** The handshake of asustor.go *)

Lemma bind_ret {S A C : Type} (m : M S A) (k : A -> M S C) (s s' : S)
  (w w' : world) (x : A) :
  m s w = (Ret x, s', w') -> bind m k s w = k x s' w'.
Proof. intros H. unfold bind. now rewrite H. Qed.

Lemma asustorLCD_isReady_spec (a : AsustorLCD.asustorLCD) (w : world)
  (c : nat) :
  AsustorLCD.con a = Some c ->
  exists a' w' evs,
    AsustorLCD.isReady a w
    = (Ret (AsustorLCD.ready_reply a (port_read (script w) (reads w))),
       a', w')
    /\ AsustorLCD.core a' = AsustorLCD.core a
    /\ (AsustorLCD.open a = false -> AsustorLCD.open a' = false)
    /\ reads w' = S (reads w)
    /\ extends w w' evs /\ written evs = []
    /\ (AsustorLCD.ready_reply a (port_read (script w) (reads w)) = false
        \/ a' = a).
Proof.
  intros Hc.
  unfold AsustorLCD.isReady, AsustorLCD.readWithTimeout,
    AsustorLCD.ready_reply.
  unfold bind at 1. unfold bind at 1. unfold get at 1. rewrite Hc.
  unfold bind at 1. unfold io at 1. unfold con_Read at 1.
  destruct (port_read (script w) (reads w)) as [data|e|].
  - unfold ret at 1. unfold get, bind. cbn [AsustorLCD.cmdRdy].
    exists a. eexists. exists [IoRead].
    split.
    { unfold filled, fill.
      destruct (5 <=? List.length data) eqn:E5.
      - apply Nat.leb_le in E5.
        replace (5 - List.length data) with 0 by lia.
        rewrite app_nil_r, length_firstn.
        replace (Nat.min 5 (List.length data)) with 5 by lia.
        cbn [Nat.eqb negb andb].
        destruct (bytes_HasPrefix (firstn 5 data) (AsustorLCD.cmdRdy a));
          reflexivity.
      - apply Nat.leb_gt in E5.
        rewrite length_app, length_firstn, repeat_length.
        replace (Nat.min 5 (List.length data)) with (List.length data) by lia.
        replace (List.length data + (5 - List.length data)) with 5 by lia.
        replace (List.length data =? 5) with false
          by (symmetry; apply Nat.eqb_neq; lia).
        reflexivity. }
    split; [reflexivity|]. split; [auto|]. split; [reflexivity|].
    split; [unfold extends; simpl; repeat split; lia|].
    split; [reflexivity | right; reflexivity].
  - unfold bind, io, AsustorLCD.forceClose, bind, modify, get, ret.
    cbn [AsustorLCD.con AsustorLCD.set_open]. rewrite Hc.
    unfold io, con_Close. cbn.
    eexists; eexists; exists [IoRead; IoClose].
    split; [reflexivity|]. split; [reflexivity|]. split; [reflexivity|].
    split; [reflexivity|].
    split; [unfold extends; simpl; repeat split; try lia;
            now rewrite <- app_assoc|].
    split; [reflexivity | left; reflexivity].
  - unfold bind, io, AsustorLCD.forceClose, bind, modify, get, ret.
    cbn [AsustorLCD.con AsustorLCD.set_open]. rewrite Hc.
    unfold io, con_Close. cbn.
    eexists; eexists; exists [IoRead; IoClose].
    split; [reflexivity|]. split; [reflexivity|]. split; [reflexivity|].
    split; [reflexivity|].
    split; [unfold extends; simpl; repeat split; try lia;
            now rewrite <- app_assoc|].
    split; [reflexivity | left; reflexivity].
Qed.

Lemma asustorLCD_core_fields (a a' : AsustorLCD.asustorLCD) :
  AsustorLCD.core a' = AsustorLCD.core a ->
  AsustorLCD.con a' = AsustorLCD.con a
  /\ AsustorLCD.cmdRdy a' = AsustorLCD.cmdRdy a.
Proof.
  intros H.
  split; [exact (f_equal AsustorLCD.con H)|].
  exact (f_equal AsustorLCD.cmdRdy H).
Qed.

(** ** The line of a write *)

Lemma qnap_line_digit (line : Line) :
  (0 <= line <= 9)%Z ->
  Qnap.h ("4d0c0" ++ decimal line ++ "10")
  = [B 0x4d; B 0x0c; byte_of_Z line; B 0x10].
Proof.
  intros H.
  assert (D : (line = 0 \/ line = 1 \/ line = 2 \/ line = 3 \/ line = 4
               \/ line = 5 \/ line = 6 \/ line = 7 \/ line = 8
               \/ line = 9)%Z) by lia.
  repeat (destruct D as [->|D]; [reflexivity|]). subst. reflexivity.
Qed.

(** C8, as the code has it.  No revision checks the line.  The fourth
    byte of an Asustor frame is [byte(line)], the low eight bits of the
    line whatever its value: 0 for line 0, 1 for line 1.  [Write] of the
    revision with the lock sends that frame, once at least, for every
    line.  The QNAP frame carries the decimal digit of the line as the
    third byte after the write command, for every line from 0 to 9. *)
Theorem write_line_not_validated :
  (forall a line text,
     nth_error (Asustor.strToBytes a line text) 3 = Some (byte_of_Z line))
  /\ (forall a line text,
        nth_error (AsustorLCD.strToBytes a line text) 3
        = Some (byte_of_Z line))
  /\ (forall line, Byte.to_N (byte_of_Z line) = Z.to_N (line mod 256))
  /\ byte_of_Z LineOne = B 0 /\ byte_of_Z LineTwo = B 1
  /\ (forall line text a w,
        Asustor.open a = true -> Asustor.con a <> None ->
        exists r a' w' j,
          Asustor.Write line text a w = (Ret r, a', w')
          /\ written (since w w')
             = repeat (makemsg (Asustor.strToBytes a line text)) (S j))
  /\ (forall q line text,
        (0 <= line <= 9)%Z ->
        Qnap.frame q line text
        = Qnap.cmdWrite q ++ [B 0x4d; B 0x0c; byte_of_Z line; B 0x10]
            ++ list_byte_of_string (Qnap.pad text)).
Proof.
  split; [reflexivity|].
  split; [intros a line text; rewrite strToBytes_inline; reflexivity|].
  split.
  { intros line. unfold byte_of_Z. rewrite to_N_byte_of_N.
    apply N.mod_small.
    pose proof (Z.mod_pos_bound line 256 ltac:(lia)). lia. }
  split; [reflexivity|]. split; [reflexivity|].
  split.
  - intros line text a w Ho Hc.
    destruct (Asustor.con a) as [c|] eqn:Ec; [clear Hc | congruence].
    destruct (asustor_write_run 11 Asustor.depth
                (Asustor.strToBytes a line text) a w c Ho Ec)
      as (r & a' & w' & evs & j & E & X & Hw & Hj & _);
      [lia | unfold Asustor.depth; lia |].
    exists r, a', w', (j - 1).
    split; [exact E|].
    rewrite (since_app w w' evs) by apply X.
    replace (S (j - 1)) with j by lia. exact Hw.
  - intros q line text H. unfold Qnap.frame.
    now rewrite (qnap_line_digit line H).
Qed.

Lemma write_line_not_validated_witness :
  (exists r a' w' j,
     Asustor.Write 7%Z "Hello" asustor_open (start mute) = (Ret r, a', w')
     /\ written (since (start mute) w')
        = repeat (makemsg (Asustor.strToBytes asustor_open 7%Z "Hello"))
            (S j))
  /\ Qnap.frame qnap_open 7%Z "Hello"
     = Qnap.cmdWrite qnap_open ++ [B 0x4d; B 0x0c; byte_of_Z 7%Z; B 0x10]
         ++ list_byte_of_string (Qnap.pad "Hello").
Proof.
  destruct write_line_not_validated as (_ & _ & _ & _ & _ & Hwrite & Hqnap).
  split.
  - apply (Hwrite 7%Z "Hello"%string asustor_open (start mute)).
    + reflexivity.
    + discriminate.
  - apply (Hqnap qnap_open 7%Z "Hello"%string). lia.
Defined.

(** C8 as the specification has it fails: nothing validates the line.
    [Write(5, ...)] on an open session whose device acknowledges is
    carried out like any other: the frame sent has 5 as its fourth byte
    and the result is nil.  The QNAP [Write] does the same. *)
Lemma write_line_five_counterexample :
  let w := start (port_of [ReadData [B 241; B 1; B 39; B 0; B 25]] 1) in
  let '(r, a', w') := Asustor.Write 5%Z "Hello" asustor_open w in
  let '(r', q', v') := Qnap.Write 5%Z "Hello" qnap_open w in
  r = Ret None
  /\ written (log w')
     = [makemsg (Asustor.strToBytes asustor_open 5%Z "Hello")]
  /\ nth_error (Asustor.strToBytes asustor_open 5%Z "Hello") 3 = Some (B 5)
  /\ r' = Ret None
  /\ written (log v') = [Qnap.frame qnap_open 5%Z "Hello"]
  /\ nth_error (Qnap.frame qnap_open 5%Z "Hello") 5 = Some (B 5).
Proof.
  vm_compute. repeat split.
Qed.

(** ** The read demultiplexer *)


Lemma chan_send_room {A : Type} (cap : nat) (q : list A) (x : A) :
  List.length q < cap -> chan_send cap q x = Some (q ++ [x]).
Proof.
  intros H. unfold chan_send.
  now rewrite (proj2 (Nat.ltb_lt _ _) H).
Qed.

(** What [scan] makes of five bytes that begin with a marker, from an
    empty buffer: the frame is in the array of the buffer and the slice of
    it is passed. *)
Lemma asustor_scan_frame (a : Asustor.asustor) (b0 b1 b2 b3 b4 : byte) :
  Asustor.bufLen a = 0 ->
  Asustor.startFound a = false ->
  5 <= List.length (Asustor.bufArray a) ->
  Byte.eqb b0 (Asustor.replyByte a) || Byte.eqb b0 (Asustor.cmdByte a)
  = true ->
  let a5 :=
    Asustor.set_startFound false
      (Asustor.set_bufLen 5
        (Asustor.set_bufArray
           ([b0; b1; b2; b3; b4] ++ skipn 5 (Asustor.bufArray a)) a)) in
  Asustor.view a5 Asustor.BufBytes = [b0; b1; b2; b3; b4]
  /\ Asustor.scan [b0; b1; b2; b3; b4] a
     = match Asustor.pass Asustor.BufBytes a5 with
       | Some a' => Some (Asustor.Reset a')
       | None => None
       end.
Proof.
  intros Hl Hs Ha Hm a5.
  split; [reflexivity|].
  unfold a5. clear a5.
  destruct a as [con readC btnC tty open keep retry lastFlush cmdByte
                 replyByte c1 c2 c3 c4 cmdBtn c6 c7 c8 c9 c10 c11 msgSize
                 reading bufArray bufLen startFound].
  cbn [Asustor.bufLen Asustor.startFound Asustor.bufArray
       Asustor.replyByte Asustor.cmdByte] in Hl, Hs, Ha, Hm.
  subst bufLen startFound.
  destruct bufArray as [|x0 [|x1 [|x2 [|x3 [|x4 tl]]]]];
    simpl in Ha; try lia.
  cbn [Asustor.scan Asustor.startFound Asustor.replyByte Asustor.cmdByte
       orb].
  rewrite Hm.
  cbn -[Asustor.pass Asustor.Reset].
  reflexivity.
Qed.

Lemma fill_whole (n : nat) (data : list byte) :
  List.length data = n -> fill n data = data.
Proof.
  intros H. unfold fill. rewrite <- H, firstn_all, Nat.sub_diag.
  apply app_nil_r.
Qed.






(** ** Closing *)

Lemma asustor_close_closed (a : Asustor.asustor) (w : world) :
  Asustor.open a = false -> Asustor.Close a w = (Ret None, a, w).
Proof. intros Ho. unfold Asustor.Close, bind, get. now rewrite Ho. Qed.

Lemma asustorLCD_close_closed (a : AsustorLCD.asustorLCD) (w : world) :
  AsustorLCD.open a = false -> AsustorLCD.Close a w = (Ret None, a, w).
Proof. intros Ho. unfold AsustorLCD.Close, bind, get. now rewrite Ho. Qed.

Lemma qnap_close_closed (q : Qnap.qnap) (w : world) :
  Qnap.open q = false -> Qnap.Close q w = (Ret None, q, w).
Proof. intros Ho. unfold Qnap.Close, bind, get. now rewrite Ho. Qed.

Lemma asustor_close_leaves_closed (a : Asustor.asustor) (w : world) r a' w' :
  Asustor.Close a w = (r, a', w') -> Asustor.open a' = false.
Proof.
  unfold Asustor.Close, bind, get.
  destruct (Asustor.open a) eqn:Ho; cbn [negb].
  2:{ intros H; inversion H; subst; exact Ho. }
  unfold Asustor.forceClose, bind, modify, get, block, panic, io.
  cbn [Asustor.readC Asustor.btnC Asustor.con Asustor.set_open
       Asustor.set_readC Asustor.set_btnC].
  match goal with |- context [chan_send ?c ?q ?x] =>
    destruct (chan_send c q x) end;
    [|intros H; inversion H; reflexivity].
  match goal with |- context [chan_send ?c ?q ?x] =>
    destruct (chan_send c q x) end;
    [|intros H; inversion H; reflexivity].
  cbn [Asustor.con Asustor.set_open].
  destruct (Asustor.con a); [|intros H; inversion H; reflexivity].
  destruct (con_Close w). intros H; inversion H; reflexivity.
Qed.

Lemma asustorLCD_close_leaves_closed (a : AsustorLCD.asustorLCD) (w : world)
  r a' w' :
  AsustorLCD.Close a w = (r, a', w') -> AsustorLCD.open a' = false.
Proof.
  unfold AsustorLCD.Close, bind, get.
  destruct (AsustorLCD.open a) eqn:Ho; cbn [negb].
  2:{ intros H; inversion H; subst; exact Ho. }
  unfold AsustorLCD.forceClose, bind, modify, get, io, ret.
  cbn [AsustorLCD.con AsustorLCD.set_open].
  destruct (AsustorLCD.con a); [|intros H; inversion H; reflexivity].
  destruct (con_Close w). intros H; inversion H; reflexivity.
Qed.

Lemma qnap_close_leaves_closed (q : Qnap.qnap) (w : world) r q' w' :
  Qnap.Close q w = (r, q', w') -> Qnap.open q' = false.
Proof.
  unfold Qnap.Close, bind, get.
  destruct (Qnap.open q) eqn:Ho; cbn [negb].
  2:{ intros H; inversion H; subst; exact Ho. }
  unfold Qnap.forceClose, bind, modify, get, io, ret.
  cbn [Qnap.con Qnap.set_open].
  destruct (Qnap.con q); [|intros H; inversion H; reflexivity].
  destruct (con_Close w). intros H; inversion H; reflexivity.
Qed.

(** [Close] of the revision with the lock, on an open session with room
    in both channels: the session is closed, an empty frame is behind
    what each channel held, and the port is closed. *)
Lemma asustor_close_open (a : Asustor.asustor) (w : world) (c : nat) :
  Asustor.open a = true ->
  Asustor.con a = Some c ->
  List.length (Asustor.readC a) < Asustor.chanCap ->
  List.length (Asustor.btnC a) < Asustor.chanCap ->
  Asustor.Close a w
  = (Ret (port_close (script w) (closes w)),
     Asustor.set_btnC (Asustor.btnC a ++ [Asustor.Bytes []])
       (Asustor.set_readC (Asustor.readC a ++ [Asustor.Bytes []])
          (Asustor.set_open false a)),
     snd (con_Close w)).
Proof.
  intros Ho Hc Hr Hb.
  unfold Asustor.Close, bind, get. rewrite Ho. cbn [negb].
  unfold Asustor.forceClose, bind, modify, get, io.
  cbn [Asustor.readC Asustor.btnC Asustor.con Asustor.set_open
       Asustor.set_readC Asustor.set_btnC].
  rewrite (chan_send_room _ _ _ Hr), (chan_send_room _ _ _ Hb).
  cbn [Asustor.con Asustor.set_open]. rewrite Hc.
  reflexivity.
Qed.

(** A goroutine in [Listen], at the test of its loop or at the receive,
    on a closed session whose button channel is not empty: its next step
    returns, and calls nothing. *)
Lemma asustor_listen_sees_close (l : callback) (pc : listen_pc)
  (a : Asustor.asustor) :
  Asustor.open a = false ->
  Asustor.btnC a <> [] ->
  pc = LTest \/ pc = LRecv ->
  exists a', Asustor.Listen_steps 1 l pc a = (LDone, a', []).
Proof.
  intros Ho Hb [-> | ->]; cbn [Asustor.Listen_steps Asustor.Listen_step].
  - rewrite Ho. eexists; reflexivity.
  - destruct (Asustor.btnC a) as [|res q]; [congruence|].
    cbn [Asustor.open Asustor.set_btnC]. rewrite Ho. cbn [negb].
    eexists; reflexivity.
Qed.

(** C7, as the code has it.  [Close] is idempotent in every revision: on
    a session that is not open it does nothing and returns nil, and
    whatever it did it leaves the session not open.  In the revision
    with the lock, [Close] on an open session with room in both channels
    closes the session and the port and puts an empty frame on each
    channel; a goroutine waiting in [Listen] then takes that frame (or a
    frame before it), sees the session closed and returns at its next
    step without calling the callback.  [Write] and [Close] hold the same
    lock, so no [Write] is in flight while [Close] runs: each of its
    waits ends, by a frame or by the timer, and a [Write] after [Close]
    returns [ErrClosed] and touches nothing. *)
Theorem asustor_close_wakes_listen :
  (forall a w, Asustor.open a = false ->
               Asustor.Close a w = (Ret None, a, w))
  /\ (forall a w, AsustorLCD.open a = false ->
                  AsustorLCD.Close a w = (Ret None, a, w))
  /\ (forall q w, Qnap.open q = false -> Qnap.Close q w = (Ret None, q, w))
  /\ (forall a w r a' w',
        Asustor.Close a w = (r, a', w') -> Asustor.open a' = false)
  /\ (forall a w r a' w',
        AsustorLCD.Close a w = (r, a', w') -> AsustorLCD.open a' = false)
  /\ (forall q w r q' w',
        Qnap.Close q w = (r, q', w') -> Qnap.open q' = false)
  /\ (forall a w,
        Asustor.open a = true ->
        Asustor.con a <> None ->
        List.length (Asustor.readC a) < Asustor.chanCap ->
        List.length (Asustor.btnC a) < Asustor.chanCap ->
        exists e a' w',
          Asustor.Close a w = (Ret e, a', w')
          /\ Asustor.open a' = false
          /\ Asustor.readC a' = Asustor.readC a ++ [Asustor.Bytes []]
          /\ Asustor.btnC a' = Asustor.btnC a ++ [Asustor.Bytes []]
          /\ since w w' = [IoClose]
          /\ (forall l pc, pc = LTest \/ pc = LRecv ->
                exists a'', Asustor.Listen_steps 1 l pc a' = (LDone, a'', []))
          /\ (forall line text,
                Asustor.Write line text a' w' = (Ret (Some ErrClosed), a', w')))
  /\ (forall checks a w,
        exists ok a' w', Asustor.responseEqual checks a w = (Ret ok, a', w')).
Proof.
  split; [exact asustor_close_closed|].
  split; [exact asustorLCD_close_closed|].
  split; [exact qnap_close_closed|].
  split; [exact asustor_close_leaves_closed|].
  split; [exact asustorLCD_close_leaves_closed|].
  split; [exact qnap_close_leaves_closed|].
  split.
  - intros a w Ho Hc Hr Hb.
    destruct (Asustor.con a) as [c|] eqn:Ec; [clear Hc | congruence].
    eexists; eexists; eexists.
    split; [exact (asustor_close_open a w c Ho Ec Hr Hb)|].
    split; [reflexivity|]. split; [reflexivity|]. split; [reflexivity|].
    split.
    { unfold since. simpl. rewrite skipn_app, skipn_all, Nat.sub_diag.
      reflexivity. }
    split.
    + intros l pc Hpc. apply asustor_listen_sees_close; [reflexivity | | exact Hpc].
      cbn [Asustor.btnC Asustor.set_btnC].
      destruct (Asustor.btnC a); discriminate.
    + intros line text. rewrite asustor_Write_write.
      apply asustor_write_closed. reflexivity.
  - intros checks a w.
    destruct (asustor_responseEqual_frame checks a w)
      as (ok & a' & w' & _ & _ & E & _).
    exists ok, a', w'. exact E.
Qed.

Lemma asustor_close_wakes_listen_witness :
  exists e a' w',
    Asustor.Close asustor_open (start mute) = (Ret e, a', w')
    /\ Asustor.open a' = false
    /\ Asustor.readC a' = [Asustor.Bytes []]
    /\ Asustor.btnC a' = [Asustor.Bytes []]
    /\ since (start mute) w' = [IoClose]
    /\ (forall l pc, pc = LTest \/ pc = LRecv ->
          exists a'', Asustor.Listen_steps 1 l pc a' = (LDone, a'', []))
    /\ (forall line text,
          Asustor.Write line text a' w' = (Ret (Some ErrClosed), a', w')).
Proof.
  destruct asustor_close_wakes_listen as (_ & _ & _ & _ & _ & _ & H & _).
  apply (H asustor_open (start mute)).
  - reflexivity.
  - discriminate.
  - simpl. unfold Asustor.chanCap. lia.
  - simpl. unfold Asustor.chanCap. lia.
Defined.

Lemma asustorLCD_listen_waits (n : nat) (l : callback)
  (a : AsustorLCD.asustorLCD) :
  AsustorLCD.btnC a = [] ->
  AsustorLCD.Listen_steps n l LRecv a = (LRecv, a, []).
Proof.
  intros Hb. induction n as [|n IH]; [reflexivity|].
  cbn [AsustorLCD.Listen_steps AsustorLCD.Listen_step].
  rewrite Hb, IH. reflexivity.
Qed.

(** C7 as the specification has it fails in asustor.go, whose
    [forceClose] signals nobody.  A goroutine waits in [Listen] on the
    empty button channel and a [Write] waits for its acknowledgement on
    the empty read channel.  [Close] returns nil and the session is
    closed; the reader, which would have three turns and a frame to read,
    ends at its first turn because the session is closed; however many
    steps it is given, [Listen] still waits and has returned nothing, and
    the receive of [Write] is still blocked. *)
Lemma asustorLCD_close_wakes_nobody_counterexample :
  let a := asustorLCD_open in
  let w := start (port_of [ReadData [B 241; B 1; B 39; B 0; B 25]] 3) in
  (forall l, AsustorLCD.Listen_step l LRecv a = (LRecv, a, None))
  /\ exists a' w',
       AsustorLCD.Close a w = (Ret None, a', w')
       /\ AsustorLCD.open a' = false
       /\ (forall n l, AsustorLCD.Listen_steps n l LRecv a' = (LRecv, a', []))
       /\ fst (fst (AsustorLCD.read_turn a' w')) = Ret false
       /\ fst (fst (AsustorLCD.recv_readC a' w')) = Blocked.
Proof.
  intros a w. split; [reflexivity|].
  eexists; eexists. split; [reflexivity|].
  split; [reflexivity|].
  split; [intros n l; apply asustorLCD_listen_waits; reflexivity|].
  split; reflexivity.
Qed.

(** ** Tactics of the sections below *)

(** The log written between two worlds, laid out. *)
Ltac since_log :=
  unfold since, wrote, sleep, note, next_wait; cbn [log];
  rewrite <- ?app_assoc;
  rewrite skipn_app, skipn_all, Nat.sub_diag; cbn [skipn app].

(** The fields of a session after its setters. *)
Ltac asustor_fields :=
  cbn [Asustor.con Asustor.readC Asustor.btnC Asustor.tty Asustor.open
       Asustor.keepListening Asustor.retry Asustor.lastFlush
       Asustor.cmdByte Asustor.replyByte Asustor.cmdDisplayStatus
       Asustor.cmdDisplayOff Asustor.cmdClearDisplay Asustor.cmdDisplayOn
       Asustor.cmdBtn Asustor.cmdRdy Asustor.cmdOkayCheck
       Asustor.replyOkayCheck1 Asustor.replyOkayCheck2
       Asustor.replyOkayCheck3 Asustor.replyMsgSentCheck Asustor.msgSize
       Asustor.reading Asustor.bufArray Asustor.bufLen Asustor.startFound
       Asustor.set_con Asustor.set_readC Asustor.set_btnC Asustor.set_open
       Asustor.set_keepListening Asustor.set_retry Asustor.set_lastFlush
       Asustor.set_reading Asustor.set_bufArray Asustor.set_bufLen
       Asustor.set_startFound].

Ltac asustorLCD_fields :=
  cbn [AsustorLCD.con AsustorLCD.readC AsustorLCD.btnC AsustorLCD.tty
       AsustorLCD.open AsustorLCD.lastFlush AsustorLCD.cmdByte
       AsustorLCD.replyByte AsustorLCD.cmdDisplayStatus
       AsustorLCD.cmdDisplayOff AsustorLCD.cmdClearDisplay
       AsustorLCD.cmdDisplayOn AsustorLCD.cmdBtn AsustorLCD.cmdRdy
       AsustorLCD.cmdMsgSentCheck AsustorLCD.reading
       AsustorLCD.set_con AsustorLCD.set_readC AsustorLCD.set_btnC
       AsustorLCD.set_open AsustorLCD.set_lastFlush AsustorLCD.set_reading].

(** ** The progress bar *)

Lemma int_wrap_small (z : Z) :
  (- 2 ^ 63 <= z < 2 ^ 63)%Z -> int_wrap z = z.
Proof.
  intros H. unfold int_wrap.
  rewrite Z.mod_small; lia.
Qed.

Lemma int_wrap_range (z : Z) : (- 2 ^ 63 <= int_wrap z < 2 ^ 63)%Z.
Proof.
  unfold int_wrap.
  pose proof (Z.mod_pos_bound (z + 2 ^ 63) (2 ^ 64) ltac:(lia)). lia.
Qed.

Lemma length_Repeat_one (c : ascii) (n : nat) :
  String.length (Repeat (String c EmptyString) n) = n.
Proof. induction n as [|n IH]; simpl; congruence. Qed.

Lemma progress_chars (perc : Z) :
  (- 2 ^ 27 <= perc < 2 ^ 27)%Z ->
  percentOf 16 100 perc = Some (Z.quot (16 * perc) 100).
Proof.
  intros H. unfold percentOf. simpl (100 =? 0)%Z. cbv iota.
  rewrite (int_wrap_small (16 * perc)) by lia.
  rewrite int_wrap_small; [reflexivity|].
  pose proof (Z.quot_lt_upper_bound).
  destruct (Z_le_gt_dec 0 perc).
  - pose proof (Z.quot_pos (16 * perc) 100 ltac:(lia) ltac:(lia)).
    pose proof (Z.quot_le_upper_bound (16 * perc) 100 (16 * perc) ltac:(lia) ltac:(lia)).
    lia.
  - replace (16 * perc)%Z with (- (16 * - perc))%Z by lia.
    rewrite Z.quot_opp_l by lia.
    pose proof (Z.quot_pos (16 * - perc) 100 ltac:(lia) ltac:(lia)).
    pose proof (Z.quot_le_upper_bound (16 * - perc) 100 (16 * - perc) ltac:(lia) ltac:(lia)).
    lia.
Qed.

Lemma quot_16_100_bounds (perc : Z) :
  ((-7 < perc < 107 <-> 0 <= Z.quot (16 * perc) 100 <= 16)
   /\ (perc <= -7 -> Z.quot (16 * perc) 100 < 0)
   /\ (107 <= perc -> 16 < Z.quot (16 * perc) 100))%Z.
Proof.
  destruct (Z_le_gt_dec 0 perc).
  - rewrite Z.quot_div_nonneg by lia.
    pose proof (Z.div_mod (16 * perc) 100 ltac:(lia)).
    pose proof (Z.mod_pos_bound (16 * perc) 100 ltac:(lia)).
    lia.
  - replace (16 * perc)%Z with (- (16 * - perc))%Z by lia.
    rewrite Z.quot_opp_l by lia.
    rewrite Z.quot_div_nonneg by lia.
    pose proof (Z.div_mod (16 * - perc) 100 ltac:(lia)).
    pose proof (Z.mod_pos_bound (16 * - perc) 100 ltac:(lia)).
    lia.
Qed.

(** X1.  [Progress] for a percentage between [-2^27] and [2^27], where the
    product [16 * perc] wraps in no [int] of 32 or of 64 bits.  For
    [perc] from -6 to 106 it returns [k] line feeds followed by [16 - k]
    dashes, [k] being [16 * perc / 100] cut toward zero: 0 for the
    negative ones, 16 from 100 on.  For [perc <= -7] and for
    [perc >= 107] one of the two counts given to [strings.Repeat] is
    negative and the call panics.  Between 0 and 100 the bar is full at
    100 only. *)
Theorem progress_bar_range (perc : Z) :
  (- 2 ^ 27 <= perc < 2 ^ 27)%Z ->
  ((-7 < perc < 107)%Z ->
   exists k,
     Z.of_nat k = Z.quot (16 * perc) 100
     /\ k <= 16
     /\ Progress perc
        = Some (Repeat newline k ++ Repeat "-" (16 - k))%string)
  /\ ((perc <= -7 \/ 107 <= perc)%Z -> Progress perc = None)
  /\ ((0 <= perc <= 100)%Z ->
      (Z.quot (16 * perc) 100 = 16 <-> perc = 100)%Z).
Proof.
  intros H.
  destruct (quot_16_100_bounds perc) as (Hin & Hlo & Hhi).
  unfold Progress. rewrite progress_chars by exact H.
  set (c := Z.quot (16 * perc) 100) in *.
  split; [|split].
  - intros Hr. apply Hin in Hr.
    exists (Z.to_nat c). split; [lia|]. split; [lia|].
    unfold strings_Repeat.
    rewrite int_wrap_small by lia.
    destruct (c <? 0)%Z eqn:E1; [apply Z.ltb_lt in E1; lia|].
    destruct (16 - c <? 0)%Z eqn:E2; [apply Z.ltb_lt in E2; lia|].
    do 3 f_equal. lia.
  - intros [Hr|Hr].
    + apply Hlo in Hr. unfold strings_Repeat.
      destruct (c <? 0)%Z eqn:E1; [reflexivity|apply Z.ltb_ge in E1; lia].
    + apply Hhi in Hr. unfold strings_Repeat.
      assert (Hc : (c < 2 ^ 62)%Z).
      { subst c. rewrite Z.quot_div_nonneg by lia.
        apply Z.div_lt_upper_bound; lia. }
      rewrite int_wrap_small by lia.
      destruct (c <? 0)%Z; [reflexivity|].
      destruct (16 - c <? 0)%Z eqn:E2; [reflexivity|apply Z.ltb_ge in E2; lia].
  - intros Hr. subst c. rewrite Z.quot_div_nonneg by lia.
    pose proof (Z.div_mod (16 * perc) 100 ltac:(lia)).
    pose proof (Z.mod_pos_bound (16 * perc) 100 ltac:(lia)).
    lia.
Qed.

Lemma progress_bar_range_witness :
  Progress 50 = Some (Repeat newline 8 ++ Repeat "-" 8)%string
  /\ Progress 107 = None.
Proof.
  destruct (progress_bar_range 50 ltac:(lia)) as (H1 & _).
  destruct (progress_bar_range 107 ltac:(lia)) as (_ & H2 & _).
  split; [|apply H2; lia].
  destruct (H1 ltac:(lia)) as (k & Hk & _ & Hp).
  assert (k = 8) by (change (Z.quot (16 * 50) 100) with 8%Z in Hk; lia).
  subst k. exact Hp.
Defined.

Lemma progress_length (perc : Z) (s : string) :
  Progress perc = Some s -> String.length s = 16.
Proof.
  unfold Progress, percentOf. simpl (100 =? 0)%Z. cbv iota.
  set (c := int_wrap (Z.quot (int_wrap (16 * perc)) 100)).
  pose proof (int_wrap_range (Z.quot (int_wrap (16 * perc)) 100)) as Hc.
  fold c in Hc. clearbody c.
  unfold strings_Repeat.
  destruct (c <? 0)%Z eqn:E1; [discriminate|]. apply Z.ltb_ge in E1.
  rewrite (int_wrap_small (16 - c)) by lia.
  destruct (16 - c <? 0)%Z eqn:E2; [discriminate|]. apply Z.ltb_ge in E2.
  intros Hs.
  assert (E : (Repeat newline (Z.to_nat c) ++ Repeat "-" (Z.to_nat (16 - c)))%string = s)
    by congruence.
  rewrite <- E.
  rewrite length_string_app. unfold newline.
  rewrite !length_Repeat_one. lia.
Qed.

(** X2.  Whatever [Progress] returns has 16 bytes: [prepareTxt] leaves it as
    it is, and the frame of a [Write] carries it whole, behind the five
    bytes of the Asustor header or behind the header of the QNAP
    frame. *)
Theorem progress_fills_line (perc : Z) (s : string) :
  Progress perc = Some s ->
  String.length s = 16
  /\ prepareTxt s = s
  /\ (forall a line,
        Asustor.strToBytes a line s
        = [Asustor.cmdByte a; B 0x12; B 0x27; byte_of_Z line; B 0]
            ++ list_byte_of_string s)
  /\ (forall q line,
        Qnap.frame q line s
        = Qnap.cmdWrite q ++ Qnap.h ("4d0c0" ++ decimal line ++ "10")
            ++ list_byte_of_string s).
Proof.
  intros H. apply progress_length in H.
  split; [exact H|]. split; [now apply prepareTxt_fixed|]. split.
  - intros a line. unfold Asustor.strToBytes, Asustor.createMsg.
    now rewrite prepareTxt_fixed.
  - intros q line. unfold Qnap.frame, Qnap.pad. now rewrite H.
Qed.

Lemma progress_fills_line_witness :
  prepareTxt (Repeat newline 8 ++ Repeat "-" 8) 
  = (Repeat newline 8 ++ Repeat "-" 8)%string.
Proof.
  exact (proj1 (proj2 (progress_fills_line 50 _ eq_refl))).
Defined.

(** ** Valid frames *)


Lemma byte_sum_app (s t : list byte) :
  byte_sum (s ++ t) = (byte_sum s + byte_sum t)%N.
Proof.
  induction s as [|b s IH]; simpl; [reflexivity|]. rewrite IH. lia.
Qed.

Lemma byte_sum_perm (s t : list byte) :
  Permutation s t -> byte_sum s = byte_sum t.
Proof.
  induction 1; simpl; lia.
Qed.

Lemma checksum_of_sum (s t : list byte) :
  byte_sum s = byte_sum t -> checksum s = checksum t.
Proof.
  intros H. apply to_N_inj. now rewrite !checksum_sum, H.
Qed.

Lemma valid_makemsg (S : list byte) : valid_frame (makemsg S).
Proof.
  unfold valid_frame, makemsg. now rewrite last_last, removelast_last.
Qed.

(** X3.  A frame that is not empty is valid exactly when [makemsg] builds it
    from its bytes but the last: taking the checksum off a valid frame
    and appending it again gives the frame back, and the valid frames
    are the frames that [makemsg] builds. *)
Theorem frame_is_valid_iff_built (f : list byte) :
  f <> [] ->
  (valid_frame f <-> makemsg (removelast f) = f)
  /\ (valid_frame f <-> exists S, f = makemsg S).
Proof.
  intros Hf.
  assert (H1 : valid_frame f <-> makemsg (removelast f) = f).
  { unfold valid_frame, makemsg. split.
    - intros H. rewrite <- H. symmetry. now apply app_removelast_last.
    - intros H. rewrite <- H at 1. now rewrite last_last. }
  split; [exact H1|].
  split.
  - intros H. exists (removelast f). symmetry. now apply H1.
  - intros (S & ->). apply valid_makemsg.
Qed.

Lemma frame_is_valid_iff_built_witness :
  valid_frame [B 241; B 1; B 39; B 0; B 25]
  <-> makemsg (removelast [B 241; B 1; B 39; B 0; B 25])
      = [B 241; B 1; B 39; B 0; B 25].
Proof.
  apply (frame_is_valid_iff_built [B 241; B 1; B 39; B 0; B 25]).
  discriminate.
Defined.

(** X4.  [checksum] does not see the order of the bytes.  Two sequences with
    the same bytes in another order have the same checksum, so the bytes
    of a frame before its checksum can be reordered and the frame stays
    valid; and the checksum of a concatenation is the sum, wrapping as
    bytes do, of the checksums of its parts. *)
Theorem checksum_blind_to_order (s t : list byte) :
  Permutation s t ->
  checksum s = checksum t
  /\ valid_frame (t ++ [checksum s])
  /\ forall u, checksum (s ++ u) = byte_add (checksum s) (checksum u).
Proof.
  intros H.
  assert (E : checksum s = checksum t)
    by (apply checksum_of_sum, byte_sum_perm, H).
  split; [exact E|]. split.
  - rewrite E. apply valid_makemsg.
  - intros u. apply to_N_inj.
    rewrite to_N_byte_add, !checksum_sum, byte_sum_app.
    now rewrite N.Div0.add_mod.
Qed.

Lemma checksum_blind_to_order_witness :
  checksum [B 241; B 1; B 39; B 0] = checksum [B 241; B 39; B 1; B 0]
  /\ valid_frame ([B 241; B 39; B 1; B 0] ++ [B 25]).
Proof.
  destruct (checksum_blind_to_order [B 241; B 1; B 39; B 0]
              [B 241; B 39; B 1; B 0]) as (H1 & H2 & _).
  - apply perm_skip, perm_swap.
  - split; [exact H1 | exact H2].
Defined.

(** ** The order of the bytes of a QNAP button frame *)


Lemma byte_eqb_eq (x y : byte) : Byte.eqb x y = true <-> x = y.
Proof.
  split.
  - intros H. apply Byte.byte_dec_bl. exact H.
  - intros ->. apply Byte.byte_dec_lb. reflexivity.
Qed.

Lemma qnap_index_of_nth (b : byte) (res : list byte) (c : nat) :
  Qnap.index_of b res = Some c -> nth_error res c = Some b.
Proof.
  revert c. induction res as [|r res IH]; intros c; simpl; [discriminate|].
  destruct (Byte.eqb b r) eqn:E.
  - intros [= <-]. apply byte_eqb_eq in E. now subst.
  - destruct (Qnap.index_of b res) as [c'|]; [|discriminate].
    intros [= <-]. simpl. now apply IH.
Qed.

Lemma qnap_index_of_in (b : byte) (res : list byte) :
  In b res -> exists c, Qnap.index_of b res = Some c.
Proof.
  induction res as [|r res IH]; simpl; [tauto|].
  intros [->|H].
  - exists 0. now rewrite (proj2 (byte_eqb_eq b b) eq_refl).
  - destruct (Byte.eqb b r); [now exists 0|].
    destruct (IH H) as (c & ->). now exists (S c).
Qed.

Lemma store_app (pre post : list byte) (x y : byte) :
  store (List.length pre) y (pre ++ x :: post) = pre ++ y :: post.
Proof. induction pre as [|p pre IH]; simpl; [reflexivity|now rewrite IH]. Qed.

(** [remove] takes out the byte at the index and keeps the others, not
    their order. *)
Lemma qnap_remove_perm (s : list byte) (i : nat) (x : byte) :
  nth_error s i = Some x -> Permutation s (x :: Qnap.remove s i).
Proof.
  intros H. apply nth_error_split in H as (pre & post & -> & <-).
  unfold Qnap.remove.
  rewrite store_app.
  destruct post as [|p post] using rev_ind.
  - rewrite last_last, removelast_last.
    apply Permutation_sym, Permutation_cons_append.
  - clear IHpost.
    replace (pre ++ x :: post ++ [p]) with ((pre ++ x :: post) ++ [p])
      by (rewrite <- app_assoc; reflexivity).
    rewrite last_last.
    replace (pre ++ p :: post ++ [p]) with ((pre ++ p :: post) ++ [p])
      by (rewrite <- app_assoc; reflexivity).
    rewrite removelast_last.
    rewrite <- app_assoc. simpl.
    transitivity (x :: pre ++ post ++ [p]).
    + symmetry. apply Permutation_middle.
    + apply perm_skip, Permutation_app_head, Permutation_sym,
        Permutation_cons_append.
Qed.

Lemma qnap_remove_in (b : byte) (res : list byte) (rest : list byte) :
  Permutation res (b :: rest) ->
  exists c, Qnap.index_of b res = Some c
            /\ Permutation (Qnap.remove res c) rest.
Proof.
  intros H.
  assert (Hin : In b res).
  { apply (Permutation_in b (Permutation_sym H)). now left. }
  destruct (qnap_index_of_in b res Hin) as (c & Hc).
  exists c. split; [exact Hc|].
  apply qnap_index_of_nth, qnap_remove_perm in Hc.
  apply (Permutation_cons_inv (a := b)).
  now rewrite <- Hc.
Qed.

Lemma qnap_reorder_perm (b1 b2 b3 x : byte) (res : list byte) :
  Permutation res [b1; b2; b3; x] ->
  Qnap.reorder 0 [b1; b2; b3] res (repeat x00 4) = ([x], [b1; b2; b3; x00]).
Proof.
  intros H. cbn [Qnap.reorder].
  destruct (qnap_remove_in _ _ _ H) as (c1 & -> & H1).
  destruct (qnap_remove_in _ _ _ H1) as (c2 & -> & H2).
  destruct (qnap_remove_in _ _ _ H2) as (c3 & -> & H3).
  apply Permutation_sym, Permutation_length_1_inv in H3. rewrite H3.
  reflexivity.
Qed.

Lemma qnap_ensureOrder_perm (q : Qnap.qnap) (b1 b2 b3 x : byte)
  (res : list byte) :
  Qnap.cmdBtn q = [b1; b2; b3] ->
  Permutation res [b1; b2; b3; x] ->
  Qnap.ensureOrder q res = [b1; b2; b3; x].
Proof.
  intros Hq H. unfold Qnap.ensureOrder. rewrite Hq.
  destruct (bytes_HasPrefix res [b1; b2; b3]) eqn:E.
  - destruct res as [|r1 [|r2 [|r3 rest]]]; simpl in E;
      repeat match goal with
             | H : _ && _ = true |- _ => apply andb_prop in H as (? & ?)
             end; try discriminate.
    repeat match goal with
           | H : Byte.eqb _ _ = true |- _ => apply byte_eqb_eq in H
           end.
    subst.
    do 3 apply Permutation_cons_inv in H.
    apply Permutation_sym, Permutation_length_1_inv in H. now subst.
  - now rewrite (qnap_reorder_perm b1 b2 b3 x res H).
Qed.

Lemma length_store (n : nat) (c : byte) (l : list byte) :
  List.length (store n c l) = List.length l.
Proof.
  revert n. induction l as [|x l IH]; intros [|n]; simpl; auto.
Qed.

Lemma qnap_reorder_length (btn : list byte) :
  forall i res ordered,
    List.length (snd (Qnap.reorder i btn res ordered)) = List.length ordered.
Proof.
  induction btn as [|b btn IH]; intros i res ordered; cbn [Qnap.reorder];
    [reflexivity|].
  destruct (Qnap.index_of b res); rewrite IH; [apply length_store|reflexivity].
Qed.

(** X5.  [ensureOrder], for a session whose button prefix has three bytes:
    four bytes that are the prefix and one more byte [x], in whatever
    order they were read, come back as the prefix followed by [x].
    Bytes that begin with the prefix come back as they are, and for
    all other bytes the result has four bytes. *)
Theorem qnap_ensureOrder_restores (q : Qnap.qnap) (b1 b2 b3 x : byte)
  (res : list byte) :
  Qnap.cmdBtn q = [b1; b2; b3] ->
  (Permutation res [b1; b2; b3; x] ->
   Qnap.ensureOrder q res = [b1; b2; b3; x])
  /\ (bytes_HasPrefix res (Qnap.cmdBtn q) = true ->
      Qnap.ensureOrder q res = res)
  /\ (bytes_HasPrefix res (Qnap.cmdBtn q) = false ->
      List.length (Qnap.ensureOrder q res) = 4).
Proof.
  intros Hq. split; [|split].
  - now apply qnap_ensureOrder_perm.
  - intros H. unfold Qnap.ensureOrder. now rewrite H.
  - intros H. unfold Qnap.ensureOrder. rewrite H.
    pose proof (qnap_reorder_length (Qnap.cmdBtn q) 0 res (repeat x00 4))
      as L.
    destruct (Qnap.reorder 0 (Qnap.cmdBtn q) res (repeat x00 4))
      as [rest ordered].
    cbn [snd] in L. rewrite repeat_length in L.
    destruct rest; [exact L|]. now rewrite length_store.
Qed.

Lemma qnap_ensureOrder_restores_witness :
  Qnap.ensureOrder qnap_open [B 3; B 0; B 83; B 5] = both_pressed.
Proof.
  apply (proj1 (qnap_ensureOrder_restores qnap_open (B 83) (B 5) (B 0) (B 3)
                  [B 3; B 0; B 83; B 5] eq_refl)).
  apply Permutation_sym.
  apply (perm_trans (l' := [B 83; B 5; B 3; B 0])).
  - apply perm_skip, perm_skip, perm_swap.
  - apply (perm_trans (l' := [B 83; B 3; B 5; B 0])).
    + apply perm_skip, perm_swap.
    + apply (perm_trans (l' := [B 3; B 83; B 5; B 0])).
      * apply perm_swap.
      * apply perm_skip.
        apply (perm_trans (l' := [B 83; B 0; B 5])).
        -- apply perm_skip, perm_swap.
        -- apply perm_swap.
Defined.

(** ** The callback of the QNAP display *)

Lemma filled_whole (n : nat) (data : list byte) :
  List.length data = n -> filled n data = n.
Proof. intros H. unfold filled. rewrite H. apply Nat.min_id. Qed.

Section QnapScrambled.

Variables (l : callback) (t : string) (c : nat) (o : bool) (f : Z).
Variable w : world.
Variable data : list byte.

Let q := Qnap.session t (Some c) o f.

Hypothesis Hread : port_read (script w) (reads w) = ReadData data.

Lemma qnap_turn_perm_released (lastBtn : Z) :
  Permutation data btn_released ->
  Qnap.Listen_turn l q lastBtn w
  = (if l lastBtn true then Qnap.Continue 0%Z else Qnap.Return,
     snd (con_Read w), Some (lastBtn, true)).
Proof.
  intros H. unfold Qnap.Listen_turn.
  change (Qnap.con q) with (Some c). rewrite Hread.
  rewrite (fill_whole 4 data (Permutation_length H)).
  rewrite (filled_whole 4 data (Permutation_length H)).
  rewrite (qnap_ensureOrder_perm q (B 83) (B 5) (B 0) (B 0) data eq_refl H).
  rewrite (Permutation_length H).
  simpl. destruct (l lastBtn true); reflexivity.
Qed.

Lemma qnap_turn_perm_up (lastBtn : Z) :
  Permutation data up_pressed ->
  Qnap.Listen_turn l q lastBtn w
  = if (lastBtn =? 3)%Z
    then (Qnap.Continue lastBtn, snd (con_Read w), None)
    else (if l 1%Z false then Qnap.Continue 1%Z else Qnap.Return,
          snd (con_Read w), Some (1%Z, false)).
Proof.
  intros H. unfold Qnap.Listen_turn.
  change (Qnap.con q) with (Some c). rewrite Hread.
  rewrite (fill_whole 4 data (Permutation_length H)).
  rewrite (filled_whole 4 data (Permutation_length H)).
  rewrite (qnap_ensureOrder_perm q (B 83) (B 5) (B 0) (B 1) data eq_refl H).
  rewrite (Permutation_length H).
  simpl. destruct (lastBtn =? 3)%Z; [reflexivity|].
  destruct (l 1%Z false); reflexivity.
Qed.

Lemma qnap_turn_perm_down (lastBtn : Z) :
  Permutation data down_pressed ->
  Qnap.Listen_turn l q lastBtn w
  = if (lastBtn =? 3)%Z
    then (Qnap.Continue lastBtn, snd (con_Read w), None)
    else (if l 2%Z false then Qnap.Continue 2%Z else Qnap.Return,
          snd (con_Read w), Some (2%Z, false)).
Proof.
  intros H. unfold Qnap.Listen_turn.
  change (Qnap.con q) with (Some c). rewrite Hread.
  rewrite (fill_whole 4 data (Permutation_length H)).
  rewrite (filled_whole 4 data (Permutation_length H)).
  rewrite (qnap_ensureOrder_perm q (B 83) (B 5) (B 0) (B 2) data eq_refl H).
  rewrite (Permutation_length H).
  simpl. destruct (lastBtn =? 3)%Z; [reflexivity|].
  destruct (l 2%Z false); reflexivity.
Qed.

Lemma qnap_turn_perm_both (lastBtn : Z) :
  Permutation data both_pressed ->
  Qnap.Listen_turn l q lastBtn w
  = (if l 3%Z false then Qnap.Continue 3%Z else Qnap.Return,
     snd (con_Read w), Some (3%Z, false)).
Proof.
  intros H. unfold Qnap.Listen_turn.
  change (Qnap.con q) with (Some c). rewrite Hread.
  rewrite (fill_whole 4 data (Permutation_length H)).
  rewrite (filled_whole 4 data (Permutation_length H)).
  rewrite (qnap_ensureOrder_perm q (B 83) (B 5) (B 0) (B 3) data eq_refl H).
  rewrite (Permutation_length H).
  simpl. destruct (l 3%Z false); reflexivity.
Qed.

End QnapScrambled.

(** X6.  A turn of [Listen] on a session of [NewQnapLCD] that reads the four
    bytes of a button frame in any order does what it does for the frame
    in order: a release calls the callback with the button held, a press
    of up or down is skipped while both are held and reported otherwise,
    a press of both is always reported. *)
Theorem qnap_listen_any_byte_order
  (l : callback) (t : string) (c : nat) (o : bool) (f : Z) (w : world)
  (data : list byte) (lastBtn : Z) :
  port_read (script w) (reads w) = ReadData data ->
  let q := Qnap.session t (Some c) o f in
  let w1 := snd (con_Read w) in
  (Permutation data btn_released ->
   Qnap.Listen_turn l q lastBtn w
   = (if l lastBtn true then Qnap.Continue 0%Z else Qnap.Return,
      w1, Some (lastBtn, true)))
  /\ (Permutation data up_pressed ->
      Qnap.Listen_turn l q lastBtn w
      = if (lastBtn =? 3)%Z then (Qnap.Continue lastBtn, w1, None)
        else (if l 1%Z false then Qnap.Continue 1%Z else Qnap.Return,
              w1, Some (1%Z, false)))
  /\ (Permutation data down_pressed ->
      Qnap.Listen_turn l q lastBtn w
      = if (lastBtn =? 3)%Z then (Qnap.Continue lastBtn, w1, None)
        else (if l 2%Z false then Qnap.Continue 2%Z else Qnap.Return,
              w1, Some (2%Z, false)))
  /\ (Permutation data both_pressed ->
      Qnap.Listen_turn l q lastBtn w
      = (if l 3%Z false then Qnap.Continue 3%Z else Qnap.Return,
         w1, Some (3%Z, false))).
Proof.
  intros H q w1. repeat split; intros HP.
  - exact (qnap_turn_perm_released l t c o f w data H lastBtn HP).
  - exact (qnap_turn_perm_up l t c o f w data H lastBtn HP).
  - exact (qnap_turn_perm_down l t c o f w data H lastBtn HP).
  - exact (qnap_turn_perm_both l t c o f w data H lastBtn HP).
Qed.

Lemma qnap_listen_any_byte_order_witness :
  snd (Qnap.Listen_turn (fun _ _ => true) qnap_open 0%Z
         (start (port_of [ReadData [B 5; B 83; B 0; B 3]] 0)))
  = Some (3%Z, false).
Proof.
  pose proof (qnap_listen_any_byte_order (fun _ _ => true) DefaultTTy 0 true
                zeroTime (start (port_of [ReadData [B 5; B 83; B 0; B 3]] 0))
                [B 5; B 83; B 0; B 3] 0%Z eq_refl) as H.
  cbv zeta in H. destruct H as (_ & _ & _ & H).
  change (Qnap.session DefaultTTy (Some 0) true zeroTime) with qnap_open in H.
  rewrite H; [reflexivity|].
  apply perm_swap.
Defined.

Lemma qnap_turn_disciplined (l : callback) (q : Qnap.qnap) (b : Z)
  (w : world) :
  match Qnap.Listen_turn l q b w with
  | (Qnap.Continue b', _, Some (btn, true)) => btn = b /\ b' = 0%Z
  | (Qnap.Continue b', _, Some (btn, false)) =>
    (btn = 1 \/ btn = 2 \/ btn = 3)%Z /\ (b = 3%Z -> btn = 3%Z) /\ b' = btn
  | (Qnap.Continue b', _, None) => b' = b
  | (_, _, Some (btn, true)) => btn = b
  | (_, _, Some (btn, false)) =>
    (btn = 1 \/ btn = 2 \/ btn = 3)%Z /\ (b = 3%Z -> btn = 3%Z)
  | (_, _, None) => True
  end.
Proof.
  unfold Qnap.Listen_turn.
  destruct (Qnap.con q); [|exact I].
  destruct (port_read (script w) (reads w)) as [data| |]; try exact I.
  destruct (negb _); [reflexivity|].
  destruct (bytes_Equal _ (Qnap.released q)).
  { destruct (l b true); simpl; auto. }
  destruct (bytes_Equal _ (Qnap.upPressed q)).
  { destruct (b =? 3)%Z eqn:E; [reflexivity|].
    apply Z.eqb_neq in E.
    destruct (l 1%Z false); simpl; (repeat split; auto; try lia). }
  destruct (bytes_Equal _ (Qnap.downPressed q)).
  { destruct (b =? 3)%Z eqn:E; [reflexivity|].
    apply Z.eqb_neq in E.
    destruct (l 2%Z false); simpl; (repeat split; auto; try lia). }
  destruct (bytes_Equal _ (Qnap.bothPressed q)).
  { destruct (l 3%Z false); simpl; (repeat split; auto; try lia). }
  reflexivity.
Qed.

Lemma qnap_loop_disciplined (n : nat) (l : callback) (q : Qnap.qnap)
  (b : Z) (w : world) :
  disciplined b (snd (Qnap.Listen_loop n l q b w)).
Proof.
  revert b w. induction n as [|n IH]; intros b w; cbn [Qnap.Listen_loop].
  - exact I.
  - pose proof (qnap_turn_disciplined l q b w) as H.
    destruct (Qnap.Listen_turn l q b w) as [[t w1] c].
    destruct t as [b'| |].
    + specialize (IH b' w1).
      destruct (Qnap.Listen_loop n l q b' w1) as [[t2 w2] cs].
      cbn [snd] in *.
      destruct c as [[btn [|]]|]; cbn [disciplined].
      * destruct H as (-> & ->). auto.
      * destruct H as (H1 & H2 & ->). auto.
      * now subst.
    + cbn [snd]. destruct c as [[btn [|]]|]; cbn [disciplined]; tauto.
    + cbn [snd]. destruct c as [[btn [|]]|]; cbn [disciplined]; tauto.
Qed.

(** X7.  However long [Listen] of the QNAP display runs and whatever it
    reads, the calls of its callback follow the button held (0 at the
    start and after every release): a call with [released = true] names
    the button held; a call with [released = false] names 1, 2 or 3 and
    makes it the button held; and while 3 is held the only press
    reported is 3. *)
Theorem qnap_listen_disciplined (n : nat) (l : callback) (q : Qnap.qnap)
  (w : world) :
  disciplined 0%Z (snd (Qnap.Listen n l q w)).
Proof.
  unfold Qnap.Listen. destruct (negb (Qnap.open q)); [exact I|].
  apply qnap_loop_disciplined.
Qed.

(** ** Opening the QNAP display *)


(** What a read into a buffer of [n] bytes leaves in [res[0:i]]. *)
Lemma firstn_filled_fill (n : nat) (data : list byte) :
  firstn (filled n data) (fill n data) = firstn n data.
Proof.
  unfold filled, fill.
  destruct (Nat.le_ge_cases n (List.length data)) as [H|H].
  - rewrite Nat.min_l by exact H.
    replace (n - List.length data) with 0 by lia. simpl.
    rewrite app_nil_r. rewrite firstn_firstn. f_equal. lia.
  - rewrite Nat.min_r by exact H.
    rewrite (firstn_all2 (n := n) data) by exact H.
    rewrite firstn_app, firstn_all, Nat.sub_diag. simpl. apply app_nil_r.
Qed.

Lemma qnap_init_answers (q : Qnap.qnap) (w : world) :
  Qnap.open q = false ->
  exists r q' w',
    Qnap.init q w = (Ret r, q', w')
    /\ (r = None <->
        port_open (script w) (opens w) = None
        /\ snd (port_write (script w) (writes w) (Qnap.cmdInit q)) = None
        /\ exists data,
             port_read (script w) (reads w) = ReadData data
             /\ firstn 4 data = Qnap.cmdRdy q)
    /\ (Qnap.open q' = true <-> r = None)
    /\ (r = None ->
        Qnap.con q' = Some (opens w)
        /\ Qnap.tty q' = Qnap.tty q
        /\ since w w' = [IoOpen (Qnap.tty q) 1200; IoWrite (Qnap.cmdInit q);
                         IoRead])
    /\ (r <> None ->
        (port_open (script w) (opens w) <> None
         /\ Qnap.con q' = None
         /\ since w w' = [IoOpen (Qnap.tty q) 1200])
        \/ exists evs, since w w' = evs ++ [IoClose]).
Proof.
  intros Ho.
  unfold Qnap.init, bind, get, io, modify, ret, serial_Open.
  destruct (port_open (script w) (opens w)) as [e|] eqn:Eo.
  { eexists; eexists; eexists. split; [reflexivity|].
    split; [split; [discriminate | intros (X & _); discriminate]|].
    split; [cbn; rewrite Ho; split; discriminate|].
    split; [discriminate|].
    intros _. left. split; [discriminate|]. split; [reflexivity|].
    since_log. reflexivity. }
  cbn [Qnap.cmdInit Qnap.set_con Qnap.tty Qnap.cmdRdy].
  unfold con_Write. cbn [script writes].
  destruct (port_write (script w) (writes w) (Qnap.cmdInit q)) as [n err]
    eqn:Ew.
  cbn [snd].
  destruct err as [e|].
  { unfold con_Close.
    eexists; eexists; eexists. split; [reflexivity|].
    split; [split; [discriminate | intros (_ & X & _); discriminate]|].
    split; [cbn; rewrite Ho; split; discriminate|].
    split; [discriminate|].
    intros _. right.
    exists [IoOpen (Qnap.tty q) 1200; IoWrite (Qnap.cmdInit q)].
    since_log. reflexivity. }
  unfold Qnap.readWithTimeout, bind, get, io, ret.
  cbn [Qnap.con Qnap.set_con].
  unfold con_Read. cbn [script reads].
  destruct (port_read (script w) (reads w)) as [data|e|] eqn:Er.
  - rewrite firstn_filled_fill.
    cbn [Qnap.cmdRdy Qnap.set_con].
    destruct (bytes_Equal (firstn 4 data) (Qnap.cmdRdy q)) eqn:Eb.
    + apply bytes_Equal_eq in Eb.
      eexists; eexists; eexists. split; [reflexivity|].
      split; [split; [intros _; repeat split; eauto | reflexivity]|].
      split; [split; reflexivity|].
      split; [|intros X; now elim X].
      intros _. split; [reflexivity|]. split; [reflexivity|].
      since_log. reflexivity.
    + eexists; eexists; eexists. split; [reflexivity|].
      split.
      { split; [discriminate|]. intros (_ & _ & d & Hd & Hr).
        inversion Hd; subst d.
        apply bytes_Equal_eq in Hr. congruence. }
      split; [cbn; split; discriminate|].
      split; [discriminate|].
      intros _. right.
      exists [IoOpen (Qnap.tty q) 1200; IoWrite (Qnap.cmdInit q); IoRead].
      since_log. reflexivity.
  - unfold Qnap.forceClose, bind, modify, get, io, ret.
    cbn [Qnap.con Qnap.set_con Qnap.set_open].
    eexists; eexists; eexists. split; [reflexivity|].
    split.
    { split; [discriminate|]. intros (_ & _ & d & Hd & _). discriminate. }
    split; [cbn; split; discriminate|].
    split; [discriminate|].
    intros _. right.
    exists [IoOpen (Qnap.tty q) 1200; IoWrite (Qnap.cmdInit q); IoRead;
            IoClose].
    since_log. reflexivity.
  - unfold Qnap.forceClose, bind, modify, get, io, ret.
    cbn [Qnap.con Qnap.set_con Qnap.set_open].
    eexists; eexists; eexists. split; [reflexivity|].
    split.
    { split; [discriminate|]. intros (_ & _ & d & Hd & _). discriminate. }
    split; [cbn; split; discriminate|].
    split; [discriminate|].
    intros _. right.
    exists [IoOpen (Qnap.tty q) 1200; IoWrite (Qnap.cmdInit q); IoRead;
            IoClose].
    since_log. reflexivity.
Qed.

(** X8.  [Open] on a QNAP session that is not open always returns.  It
    returns nil exactly when the port opens, takes the init command
    without an error (the count written is not looked at) and answers in
    time with bytes of which the first four are [cmdRdy]; the session is
    open afterwards in that case and in no other.  With nil the port of
    this [serial.Open] is kept and the calls made were the open, the
    write and the read.  With an error, either the port did not open,
    nothing else was called and [con] is nil, or the last call on the
    port is its [Close]. *)
Theorem qnap_open_answers (q : Qnap.qnap) (w : world) :
  Qnap.open q = false ->
  exists r q' w',
    Qnap.Open q w = (Ret r, q', w')
    /\ (r = None <->
        port_open (script w) (opens w) = None
        /\ snd (port_write (script w) (writes w) (Qnap.cmdInit q)) = None
        /\ exists data,
             port_read (script w) (reads w) = ReadData data
             /\ firstn 4 data = Qnap.cmdRdy q)
    /\ (Qnap.open q' = true <-> r = None)
    /\ (r = None ->
        Qnap.con q' = Some (opens w)
        /\ Qnap.tty q' = Qnap.tty q
        /\ since w w' = [IoOpen (Qnap.tty q) 1200; IoWrite (Qnap.cmdInit q);
                         IoRead])
    /\ (r <> None ->
        (port_open (script w) (opens w) <> None
         /\ Qnap.con q' = None
         /\ since w w' = [IoOpen (Qnap.tty q) 1200])
        \/ exists evs, since w w' = evs ++ [IoClose]).
Proof.
  intros Ho. unfold Qnap.Open, bind, get. rewrite Ho.
  now apply qnap_init_answers.
Qed.

Lemma qnap_open_answers_witness :
  exists q' w',
    Qnap.Open (Qnap.newLCD DefaultTTy)
      (start (port_of [ReadData [B 83; B 1; B 0; B 125]] 0))
    = (Ret None, q', w')
    /\ Qnap.open q' = true.
Proof.
  destruct (qnap_open_answers (Qnap.newLCD DefaultTTy)
              (start (port_of [ReadData [B 83; B 1; B 0; B 125]] 0))
              eq_refl) as (r & q' & w' & E & Hr & Ho & _).
  assert (R : r = None).
  { apply Hr. split; [reflexivity|]. split; [reflexivity|].
    exists [B 83; B 1; B 0; B 125]. split; reflexivity. }
  exists q', w'. split; [now rewrite E, R | now apply Ho].
Defined.

(** ** The pause between two writes *)

Lemma paused (lastFlush : Z) (w : world) :
  (if (0 <? lastFlush + DefaultDelayBetweenWrites - now w)%Z
   then sleep (lastFlush + DefaultDelayBetweenWrites - now w) w else w)
  = {| script := script w; opens := opens w; writes := writes w;
       reads := reads w; closes := closes w; waits := waits w;
       now := write_time lastFlush w; log := log w |}.
Proof.
  unfold write_time.
  destruct (0 <? lastFlush + DefaultDelayBetweenWrites - now w)%Z eqn:E.
  - apply Z.ltb_lt in E. unfold sleep. f_equal. lia.
  - apply Z.ltb_ge in E. destruct w; cbn in *. f_equal. lia.
Qed.

Lemma asustor_flush_eq (data : list byte) (a : Asustor.asustor) (w : world)
  (c : nat) :
  Asustor.con a = Some c ->
  Asustor.flush data a w
  = (Ret (flushed (port_write (script w) (writes w) (makemsg data))
            (makemsg data)),
     Asustor.set_lastFlush (write_time (Asustor.lastFlush a) w) a,
     wrote (makemsg data) (write_time (Asustor.lastFlush a) w) w).
Proof.
  intros Hc.
  unfold Asustor.flush, bind, Asustor.waitForFlushBetweenWrites, get, io.
  change (10 * Millisecond)%Z with DefaultDelayBetweenWrites.
  rewrite paused. asustor_fields. rewrite Hc.
  unfold con_Write, flushed, wrote. cbn [script writes opens reads closes waits now log].
  destruct (port_write (script w) (writes w) (makemsg data)) as [n err].
  cbn [fst snd].
  destruct err as [e|]; [reflexivity|].
  destruct (n =? Z.of_nat (List.length (makemsg data)))%Z; reflexivity.
Qed.

Lemma asustorLCD_flush_eq (data : list byte) (a : AsustorLCD.asustorLCD)
  (w : world) (c : nat) :
  AsustorLCD.con a = Some c ->
  AsustorLCD.flush data a w
  = (Ret (flushed (port_write (script w) (writes w) (makemsg data))
            (makemsg data)),
     AsustorLCD.set_lastFlush (write_time (AsustorLCD.lastFlush a) w) a,
     wrote (makemsg data) (write_time (AsustorLCD.lastFlush a) w) w).
Proof.
  intros Hc.
  unfold AsustorLCD.flush, bind,
    AsustorLCD.wait10MillisForSureBetweenWrites, get, io.
  rewrite paused.
  cbn [AsustorLCD.con AsustorLCD.set_lastFlush]. rewrite Hc.
  unfold con_Write, flushed, wrote. cbn [script writes opens reads closes waits now log].
  destruct (port_write (script w) (writes w) (makemsg data)) as [n err].
  cbn [fst snd].
  destruct err as [e|]; [reflexivity|].
  destruct (n =? Z.of_nat (List.length (makemsg data)))%Z; reflexivity.
Qed.

Lemma qnap_Write_eq (line : Line) (txt : string) (q : Qnap.qnap) (w : world)
  (c : nat) :
  Qnap.open q = true ->
  Qnap.con q = Some c ->
  Qnap.Write line txt q w
  = (Ret (let r := port_write (script w) (writes w) (Qnap.frame q line txt) in
          if (fst r =? Z.of_nat (List.length (Qnap.frame q line txt)))%Z
          then snd r else Some ErrMsgSizeMismatch),
     Qnap.set_lastFlush (write_time (Qnap.lastFlush q) w) q,
     wrote (Qnap.frame q line txt) (write_time (Qnap.lastFlush q) w) w).
Proof.
  intros Ho Hc.
  unfold Qnap.Write, bind, get, Qnap.wait10MillisForSureBetweenWrites, io.
  rewrite Ho. cbn [negb]. rewrite paused, Hc.
  unfold con_Write, wrote. cbn [script writes opens reads closes waits now log].
  destruct (port_write (script w) (writes w) (Qnap.frame q line txt))
    as [n err].
  cbn [fst snd].
  destruct (n =? Z.of_nat (List.length (Qnap.frame q line txt)))%Z;
    reflexivity.
Qed.

(** X9.  Two writes in a row through [flush] of either Asustor revision, or
    through [Write] of an open QNAP session: each stores in [lastFlush]
    the time at which its frame goes to the port, and the second frame
    goes at least 10 ms after the first, whatever the clock shows when
    the second call begins.  (The write itself takes no time in this
    model: the distance is from time stamp to time stamp.) *)
Theorem writes_keep_their_distance :
  (forall d1 d2 a w c w1',
     Asustor.con a = Some c ->
     let '(_, a1, w1) := Asustor.flush d1 a w in
     let '(_, a2, w2) := Asustor.flush d2 a1 w1' in
     Asustor.lastFlush a1 = now w1 /\ Asustor.lastFlush a2 = now w2
     /\ (now w1 + 10 * Millisecond <= now w2)%Z
     /\ (now w <= now w1)%Z)
  /\ (forall d1 d2 a w c w1',
        AsustorLCD.con a = Some c ->
        let '(_, a1, w1) := AsustorLCD.flush d1 a w in
        let '(_, a2, w2) := AsustorLCD.flush d2 a1 w1' in
        AsustorLCD.lastFlush a1 = now w1 /\ AsustorLCD.lastFlush a2 = now w2
        /\ (now w1 + 10 * Millisecond <= now w2)%Z
        /\ (now w <= now w1)%Z)
  /\ (forall l1 t1 l2 t2 q w c w1',
        Qnap.open q = true -> Qnap.con q = Some c ->
        let '(_, q1, w1) := Qnap.Write l1 t1 q w in
        let '(_, q2, w2) := Qnap.Write l2 t2 q1 w1' in
        Qnap.lastFlush q1 = now w1 /\ Qnap.lastFlush q2 = now w2
        /\ (now w1 + 10 * Millisecond <= now w2)%Z
        /\ (now w <= now w1)%Z).
Proof.
  split; [|split].
  - intros d1 d2 a w c w1' Hc.
    rewrite (asustor_flush_eq d1 a w c Hc).
    rewrite (asustor_flush_eq d2 _ w1' c) by exact Hc.
    cbn [Asustor.lastFlush Asustor.set_lastFlush wrote now].
    unfold write_time, DefaultDelayBetweenWrites. repeat split; lia.
  - intros d1 d2 a w c w1' Hc.
    rewrite (asustorLCD_flush_eq d1 a w c Hc).
    rewrite (asustorLCD_flush_eq d2 _ w1' c) by exact Hc.
    cbn [AsustorLCD.lastFlush AsustorLCD.set_lastFlush wrote now].
    unfold write_time, DefaultDelayBetweenWrites. repeat split; lia.
  - intros l1 t1 l2 t2 q w c w1' Ho Hc.
    rewrite (qnap_Write_eq l1 t1 q w c Ho Hc).
    rewrite (qnap_Write_eq l2 t2 _ w1' c) by assumption.
    cbn [Qnap.lastFlush Qnap.set_lastFlush wrote now].
    unfold write_time, DefaultDelayBetweenWrites. repeat split; lia.
Qed.

Lemma writes_keep_their_distance_witness :
  let '(_, a1, w1) := Asustor.flush [B 1] asustor_open (start mute) in
  let '(_, a2, w2) := Asustor.flush [B 2] a1 (start mute) in
  Asustor.lastFlush a1 = now w1 /\ Asustor.lastFlush a2 = now w2
  /\ (now w1 + 10 * Millisecond <= now w2)%Z
  /\ (now (start mute) <= now w1)%Z.
Proof.
  exact (proj1 writes_keep_their_distance [B 1] [B 2] asustor_open
           (start mute) 0 (start mute) eq_refl).
Defined.

(** ** A write of asustor.go *)


Lemma asustorLCD_read_turns_silent (n : nat) (a : AsustorLCD.asustorLCD)
  (w : world) (c : nat) :
  AsustorLCD.open a = true ->
  AsustorLCD.con a = Some c ->
  port_read (script w) (reads w) = ReadSilent ->
  AsustorLCD.read_turns n a w = (a, w).
Proof.
  intros Ho Hc Hr. destruct n as [|n]; [reflexivity|].
  cbn [AsustorLCD.read_turns]. unfold AsustorLCD.read_turn.
  rewrite Ho, Hc, Hr.
  destruct (AsustorLCD.reading a); reflexivity.
Qed.

(** X10.  [Write] of asustor.go on an open session writes its frame exactly
    once and never again.  When the port refuses the write, [Write]
    returns that error and takes nothing from the read channel.  When a
    frame waits on the read channel, [Write] takes that one frame and
    returns nil if it is the expected acknowledgement,
    [ErrDisplayNotWorking] if not.  When the channel is empty and the
    port stays silent, [Write] does not return: the wait has no
    timeout. *)
Theorem asustorLCD_write_single_attempt
  (line : Line) (text : string) (a : AsustorLCD.asustorLCD) (w : world)
  (c : nat) :
  AsustorLCD.open a = true ->
  AsustorLCD.con a = Some c ->
  let frame := makemsg (AsustorLCD.strToBytes a line text) in
  let r := port_write (script w) (writes w) frame in
  (forall e, flushed r frame = Some e ->
     exists a' w',
       AsustorLCD.Write line text a w = (Ret (Some e), a', w')
       /\ since w w' = [IoWrite frame]
       /\ AsustorLCD.readC a' = AsustorLCD.readC a)
  /\ (forall res q,
        flushed r frame = None ->
        AsustorLCD.readC a = res :: q ->
        exists a' w',
          AsustorLCD.Write line text a w
          = (Ret (if bytes_Equal res (AsustorLCD.cmdMsgSentCheck a)
                  then None else Some ErrDisplayNotWorking), a', w')
          /\ since w w' = [IoWrite frame]
          /\ AsustorLCD.readC a' = q)
  /\ (flushed r frame = None ->
      AsustorLCD.readC a = [] ->
      port_read (script w) (reads w) = ReadSilent ->
      exists a' w',
        AsustorLCD.Write line text a w = (Blocked, a', w')
        /\ since w w' = [IoWrite frame]).
Proof.
  intros Ho Hc frame r.
  assert (E : AsustorLCD.Write line text a w
              = bind (AsustorLCD.flush (AsustorLCD.strToBytes a line text))
                  (fun err =>
                     match err with
                     | Some e => ret (Some e)
                     | None =>
                       bind AsustorLCD.isMsgSent
                         (fun sent =>
                            if negb sent then ret (Some ErrDisplayNotWorking)
                            else ret err)
                     end) a w).
  { unfold AsustorLCD.Write. unfold bind at 1. unfold get at 1.
    rewrite Ho. reflexivity. }
  rewrite E. clear E.
  rewrite (bind_ret _ _ _ _ _ _ _
             (asustorLCD_flush_eq (AsustorLCD.strToBytes a line text)
                a w c Hc)).
  fold frame. fold r.
  split; [|split].
  - intros e He. rewrite He. unfold ret.
    eexists; eexists. split; [reflexivity|].
    split; [since_log; reflexivity | reflexivity].
  - intros res q Hf Hq. rewrite Hf.
    unfold AsustorLCD.isMsgSent, bind, get, AsustorLCD.recv_readC, ret.
    repeat progress (asustorLCD_fields; rewrite ?Ho, ?Hq; cbv beta iota).
    destruct (bytes_Equal res (AsustorLCD.cmdMsgSentCheck a)); cbn [negb];
      (eexists; eexists; split; [reflexivity|];
       split; [since_log; reflexivity | reflexivity]).
  - intros Hf Hq Hs. rewrite Hf.
    unfold AsustorLCD.isMsgSent, bind, get, AsustorLCD.recv_readC, ret.
    repeat progress (asustorLCD_fields; rewrite ?Ho, ?Hq; cbv beta iota).
    rewrite (asustorLCD_read_turns_silent _ _ _ c)
      by (asustorLCD_fields; auto).
    repeat progress (asustorLCD_fields; rewrite ?Ho, ?Hq; cbv beta iota).
    eexists; eexists. split; [reflexivity|].
    since_log. reflexivity.
Qed.

Lemma asustorLCD_write_single_attempt_witness :
  exists a' w',
    AsustorLCD.Write LineOne "Hello" asustorLCD_open (start mute)
    = (Blocked, a', w')
    /\ since (start mute) w'
       = [IoWrite (makemsg (AsustorLCD.strToBytes asustorLCD_open LineOne
                              "Hello"))].
Proof.
  apply (asustorLCD_write_single_attempt LineOne "Hello" asustorLCD_open
           (start mute) 0); reflexivity.
Defined.

(** ** A frame already queued when a write begins *)



Lemma asustor_view_fields (a a' : Asustor.asustor) (s : Asustor.slice) :
  Asustor.bufArray a' = Asustor.bufArray a ->
  Asustor.view a' s = Asustor.view a s.
Proof. intros H. destruct s; cbn; [now rewrite H | reflexivity]. Qed.

Lemma asustor_write_S (fuel : nat) (msg : list byte) :
  Asustor.write (S fuel) msg
  = bind get (fun a =>
      if negb (Asustor.open a) then ret (Some ErrClosed) else
      bind (Asustor.flush msg) (fun err =>
        match err with
        | Some e => ret (Some e)
        | None =>
          bind (Asustor.responseEqual [Asustor.replyMsgSentCheck a])
            (fun ok =>
               if negb ok then
                 bind get (fun a =>
                   if (Asustor.retryBound <? Byte.to_N (Asustor.retry a))%N
                   then ret (Some ErrDisplayNotWorking)
                   else
                     bind (modify (Asustor.set_retry
                                     (byte_add (Asustor.retry a) (B 1))))
                       (fun _ => Asustor.write fuel msg))
               else
                 bind (modify (Asustor.set_retry (B 0)))
                   (fun _ => ret err))
        end)).
Proof. reflexivity. Qed.

Lemma asustor_wait_queued (checks : list (list byte)) (a : Asustor.asustor)
  (w : world) (s : Asustor.slice) (q : list Asustor.slice) :
  Asustor.readC a = s :: q ->
  Asustor.responseEqual checks a w
  = (Ret (Asustor.open a && existsb (bytes_Equal (Asustor.view a s)) checks),
     Asustor.set_readC q a,
     note (IoAck (Some (Asustor.view a s))) (next_wait w)).
Proof.
  intros Hq. unfold Asustor.responseEqual. rewrite Hq.
  cbv beta iota zeta. rewrite Hq.
  rewrite (asustor_view_fields a (Asustor.set_readC q a) s) by reflexivity.
  asustor_fields. destruct (Asustor.open a); reflexivity.
Qed.

Lemma asustor_read_turns_silent (n : nat) (a : Asustor.asustor) (w : world) :
  Asustor.open a = true ->
  port_read (script w) (reads w) = ReadSilent ->
  Asustor.read_turns n a w = (a, w).
Proof.
  intros Ho Hr. destruct n as [|n]; [reflexivity|].
  cbn [Asustor.read_turns]. unfold Asustor.read_turn.
  rewrite Ho, Hr.
  destruct (Asustor.reading a); [|reflexivity].
  destruct (Asustor.con a); reflexivity.
Qed.

(** X11.  [Write] of the revision with the lock compares the frame at the
    head of the read channel, not an answer to what it has just sent.
    The reader goroutine takes no lock and runs beside [Write]; here the
    port has nothing for it, so its read does not return: as long as the
    session is open and no read of the port has been completed, the
    reader changes nothing, however many turns it is given, and the
    frames queued stay as they are.  When the expected acknowledgement
    is queued as the call begins, [Write] then sends its frame once,
    takes the queued frame, returns nil and sets the retry counter to
    zero, and nothing is read from the port in between. *)
Theorem asustor_write_takes_queued_frame
  (line : Line) (text : string) (a : Asustor.asustor) (w : world) (c : nat)
  (s : Asustor.slice) (q : list Asustor.slice) :
  Asustor.open a = true ->
  Asustor.con a = Some c ->
  Asustor.readC a = s :: q ->
  let frame := makemsg (Asustor.strToBytes a line text) in
  flushed (port_write (script w) (writes w) frame) frame = None ->
  Asustor.view a s = Asustor.replyMsgSentCheck a ->
  port_read (script w) (reads w) = ReadSilent ->
  (forall n a0 w0,
     Asustor.open a0 = true ->
     script w0 = script w ->
     reads w0 = reads w ->
     Asustor.read_turns n a0 w0 = (a0, w0))
  /\ exists a' w',
       Asustor.Write line text a w = (Ret None, a', w')
       /\ Asustor.retry a' = B 0
       /\ Asustor.readC a' = q
       /\ since w w' = [IoWrite frame; IoAck (Some (Asustor.view a s))]
       /\ reads w' = reads w
       /\ script w' = script w
       /\ Asustor.open a' = true.
Proof.
  intros Ho Hc Hq frame Hf Hv Hs.
  split.
  { intros n a0 w0 Ho0 Hs0 Hr0. apply asustor_read_turns_silent; [exact Ho0|].
    now rewrite Hs0, Hr0. }
  unfold Asustor.Write, bind at 1, get at 1.
  change Asustor.depth with (S 11). rewrite asustor_write_S.
  unfold bind at 1, get at 1. rewrite Ho. cbn [negb].
  rewrite (bind_ret _ _ _ _ _ _ _
             (asustor_flush_eq (Asustor.strToBytes a line text) a w c Hc)).
  fold frame. rewrite Hf.
  set (a1 := Asustor.set_lastFlush _ a).
  rewrite (bind_ret _ _ _ _ _ _ _
             (asustor_wait_queued [Asustor.replyMsgSentCheck a] a1 _ s q Hq)).
  change (Asustor.open a1) with (Asustor.open a). rewrite Ho.
  rewrite (asustor_view_fields a a1 s) by reflexivity.
  rewrite Hv. cbn [existsb].
  rewrite (proj2 (bytes_Equal_eq _ _) eq_refl). cbn [orb andb negb].
  unfold bind, modify, ret.
  eexists; eexists. split; [reflexivity|].
  split; [reflexivity|]. split; [reflexivity|].
  split; [|split; [reflexivity|split; [reflexivity | exact Ho]]].
  since_log. reflexivity.
Qed.

Lemma asustor_write_takes_queued_frame_witness :
  let ack := [B 241; B 1; B 39; B 0; B 25] in
  let a := Asustor.set_readC [Asustor.Bytes ack] asustor_open in
  (forall n a0 w0,
     Asustor.open a0 = true ->
     script w0 = script (start mute) ->
     reads w0 = reads (start mute) ->
     Asustor.read_turns n a0 w0 = (a0, w0))
  /\ exists a' w',
       Asustor.Write LineOne "Hello" a (start mute) = (Ret None, a', w')
       /\ Asustor.retry a' = B 0
       /\ Asustor.readC a' = []
       /\ since (start mute) w'
          = [IoWrite (makemsg (Asustor.strToBytes a LineOne "Hello"));
             IoAck (Some ack)]
       /\ reads w' = reads (start mute)
       /\ script w' = script (start mute)
       /\ Asustor.open a' = true.
Proof.
  intros ack a.
  apply (asustor_write_takes_queued_frame LineOne "Hello" a (start mute) 0
           (Asustor.Bytes ack) []); reflexivity.
Defined.

(** ** What [Open] makes of the errors of the port *)



Lemma asustorLCD_open_port_fails (a : AsustorLCD.asustorLCD) (w : world)
  (e : error) :
  AsustorLCD.open a = false ->
  port_open (script w) (opens w) = Some e ->
  exists a' w',
    AsustorLCD.Open a w = (Ret (Some e), a', w')
    /\ AsustorLCD.open a' = false
    /\ AsustorLCD.con a' = None
    /\ written (since w w') = []
    /\ reads w' = reads w.
Proof.
  intros Ho Hp.
  unfold AsustorLCD.Open, bind, get, io, modify, ret. rewrite Ho.
  destruct (AsustorLCD.con a);
    unfold serial_Open, con_Close; cbn [script opens]; rewrite Hp;
    (eexists; eexists; split; [reflexivity|]);
    asustorLCD_fields; (split; [exact Ho|]); (split; [reflexivity|]);
    (split; [since_log; reflexivity | reflexivity]).
Qed.

Lemma asustorLCD_open_write_fails (a : AsustorLCD.asustorLCD) (w : world)
  (e : error) :
  AsustorLCD.open a = false ->
  port_open (script w) (opens w) = None ->
  flushed (port_write (script w) (writes w)
             (makemsg (AsustorLCD.cmdDisplayStatus a)))
    (makemsg (AsustorLCD.cmdDisplayStatus a)) = Some e ->
  exists a' w',
    AsustorLCD.Open a w = (Ret (Some e), a', w')
    /\ AsustorLCD.open a' = false
    /\ (exists evs, since w w' = evs ++ [IoClose])
    /\ written (since w w') = [makemsg (AsustorLCD.cmdDisplayStatus a)]
    /\ reads w' = reads w.
Proof.
  intros Ho Hp Hf.
  unfold AsustorLCD.Open, bind, get, io, modify, ret, serial_Open, con_Close.
  rewrite Ho.
  destruct (AsustorLCD.con a) as [c|]; cbn [script opens fst snd];
    rewrite Hp;
    (erewrite asustorLCD_flush_eq; [|reflexivity]);
    cbn [script writes]; asustorLCD_fields; rewrite Hf;
    unfold AsustorLCD.close_and_return, bind, io, ret, con_Close;
    cbv beta iota zeta;
    (eexists; eexists; split; [reflexivity|]); asustorLCD_fields;
    (split; [exact Ho|]); since_log.
  - split; [|split; reflexivity].
    exists [IoClose; IoOpen (AsustorLCD.tty a) 115200;
            IoWrite (makemsg (AsustorLCD.cmdDisplayStatus a))].
    reflexivity.
  - split; [|split; reflexivity].
    exists [IoOpen (AsustorLCD.tty a) 115200;
            IoWrite (makemsg (AsustorLCD.cmdDisplayStatus a))].
    reflexivity.
Qed.

Lemma asustor_open_port_fails (a : Asustor.asustor) (w : world) (e : error) :
  Asustor.open a = false ->
  port_open (script w) (opens w) = Some e ->
  exists a' w',
    Asustor.Open a w = (Ret (Some e), a', w')
    /\ Asustor.open a' = false
    /\ Asustor.con a' = None
    /\ written (since w w') = []
    /\ reads w' = reads w.
Proof.
  intros Ho Hp.
  unfold Asustor.Open, bind, get, io, modify, ret. rewrite Ho.
  destruct (Asustor.con a);
    unfold serial_Open, con_Close; cbn [script opens]; rewrite Hp;
    (eexists; eexists; split; [reflexivity|]);
    asustor_fields; (split; [exact Ho|]); (split; [reflexivity|]);
    (split; [since_log; reflexivity | reflexivity]).
Qed.

Lemma asustor_open_write_fails (a : Asustor.asustor) (w : world) (e : error) :
  Asustor.open a = false ->
  port_open (script w) (opens w) = None ->
  flushed (port_write (script w) (writes w)
             (makemsg (Asustor.cmdDisplayStatus a)))
    (makemsg (Asustor.cmdDisplayStatus a)) = Some e ->
  List.length (Asustor.readC a) < Asustor.chanCap ->
  List.length (Asustor.btnC a) < Asustor.chanCap ->
  exists a' w',
    Asustor.Open a w = (Ret (Some e), a', w')
    /\ Asustor.open a' = false
    /\ (exists evs, since w w' = evs ++ [IoClose; IoClose])
    /\ written (since w w') = [makemsg (Asustor.cmdDisplayStatus a)]
    /\ reads w' = reads w.
Proof.
  intros Ho Hp Hf Hr Hb.
  unfold Asustor.Open, bind, get, io, modify, ret, serial_Open, con_Close,
    Asustor.go_read, modify.
  rewrite Ho.
  destruct (Asustor.con a) as [c|]; cbn [script opens fst snd];
    rewrite Hp;
    unfold Asustor.establish, bind, get;
    (erewrite asustor_flush_eq; [|reflexivity]);
    cbn [script writes]; asustor_fields; rewrite Hf;
    unfold Asustor.forceClose, bind, io, ret, con_Close, modify, get;
    cbv beta iota zeta;
    repeat (asustor_fields;
            rewrite chan_send_room by (rewrite length_map; assumption));
    asustor_fields;
    (eexists; eexists; split; [reflexivity|]); asustor_fields;
    (split; [reflexivity|]); since_log.
  - split; [|split; reflexivity].
    exists [IoClose; IoOpen (Asustor.tty a) 115200;
            IoWrite (makemsg (Asustor.cmdDisplayStatus a))].
    reflexivity.
  - split; [|split; reflexivity].
    exists [IoOpen (Asustor.tty a) 115200;
            IoWrite (makemsg (Asustor.cmdDisplayStatus a))].
    reflexivity.
Qed.

(** X12.  [Open] of both Asustor revisions.  On an open session it does
    nothing and returns nil.  When [serial.Open] fails, [Open] returns
    its error, the session stays closed with a nil [con], nothing is
    written and nothing is read.  When the port opens and refuses the
    first probe, [Open] returns the error of the write, leaves the
    session closed, has written that one frame, has read nothing, and
    its last call on the port is [Close] (twice in the revision with the
    lock, where [forceClose] follows the [Close] of [establish]). *)
Theorem open_reports_port_errors :
  (forall a w, AsustorLCD.open a = true ->
               AsustorLCD.Open a w = (Ret None, a, w))
  /\ (forall a w, Asustor.open a = true ->
                  Asustor.Open a w = (Ret None, a, w))
  /\ (forall a w e,
        AsustorLCD.open a = false ->
        port_open (script w) (opens w) = Some e ->
        exists a' w',
          AsustorLCD.Open a w = (Ret (Some e), a', w')
          /\ AsustorLCD.open a' = false
          /\ AsustorLCD.con a' = None
          /\ written (since w w') = []
          /\ reads w' = reads w)
  /\ (forall a w e,
        Asustor.open a = false ->
        port_open (script w) (opens w) = Some e ->
        exists a' w',
          Asustor.Open a w = (Ret (Some e), a', w')
          /\ Asustor.open a' = false
          /\ Asustor.con a' = None
          /\ written (since w w') = []
          /\ reads w' = reads w)
  /\ (forall a w e,
        AsustorLCD.open a = false ->
        port_open (script w) (opens w) = None ->
        flushed (port_write (script w) (writes w)
                   (makemsg (AsustorLCD.cmdDisplayStatus a)))
          (makemsg (AsustorLCD.cmdDisplayStatus a)) = Some e ->
        exists a' w',
          AsustorLCD.Open a w = (Ret (Some e), a', w')
          /\ AsustorLCD.open a' = false
          /\ (exists evs, since w w' = evs ++ [IoClose])
          /\ written (since w w')
             = [makemsg (AsustorLCD.cmdDisplayStatus a)]
          /\ reads w' = reads w)
  /\ (forall a w e,
        Asustor.open a = false ->
        port_open (script w) (opens w) = None ->
        flushed (port_write (script w) (writes w)
                   (makemsg (Asustor.cmdDisplayStatus a)))
          (makemsg (Asustor.cmdDisplayStatus a)) = Some e ->
        List.length (Asustor.readC a) < Asustor.chanCap ->
        List.length (Asustor.btnC a) < Asustor.chanCap ->
        exists a' w',
          Asustor.Open a w = (Ret (Some e), a', w')
          /\ Asustor.open a' = false
          /\ (exists evs, since w w' = evs ++ [IoClose; IoClose])
          /\ written (since w w') = [makemsg (Asustor.cmdDisplayStatus a)]
          /\ reads w' = reads w).
Proof.
  split.
  { intros a w Ho. unfold AsustorLCD.Open, bind, get. now rewrite Ho. }
  split.
  { intros a w Ho. unfold Asustor.Open, bind, get. now rewrite Ho. }
  split; [exact asustorLCD_open_port_fails|].
  split; [exact asustor_open_port_fails|].
  split; [exact asustorLCD_open_write_fails | exact asustor_open_write_fails].
Qed.

Lemma open_reports_port_errors_witness :
  exists a' w',
    Asustor.Open (Asustor.newLCD DefaultTTy) (start refusing)
    = (Ret (Some (ErrTransport 7)), a', w')
    /\ Asustor.open a' = false
    /\ (exists evs, since (start refusing) w' = evs ++ [IoClose; IoClose])
    /\ written (since (start refusing) w')
       = [makemsg (Asustor.cmdDisplayStatus (Asustor.newLCD DefaultTTy))]
    /\ reads w' = 0.
Proof.
  apply (proj2 (proj2 (proj2 (proj2 (proj2 open_reports_port_errors))))
           (Asustor.newLCD DefaultTTy) (start refusing) (ErrTransport 7));
    try reflexivity; unfold Asustor.chanCap; simpl; lia.
Defined.

(** ** The probes of [Open] of asustor.go *)

Lemma asustorLCD_isReady_eq (a : AsustorLCD.asustorLCD) (w : world)
  (c : nat) :
  AsustorLCD.con a = Some c ->
  AsustorLCD.isReady a w
  = (Ret (AsustorLCD.ready_reply a (port_read (script w) (reads w))),
     match port_read (script w) (reads w) with
     | ReadData _ => a
     | ReadErr _ | ReadSilent => AsustorLCD.set_open false a
     end,
     checked (port_read (script w) (reads w)) w).
Proof.
  intros Hc.
  unfold AsustorLCD.isReady, AsustorLCD.readWithTimeout,
    AsustorLCD.ready_reply, checked.
  unfold bind at 1. unfold bind at 1. unfold get at 1. rewrite Hc.
  unfold bind at 1. unfold io at 1. unfold con_Read at 1.
  destruct (port_read (script w) (reads w)) as [data|e|].
  - unfold ret at 1. unfold get, bind. cbn [AsustorLCD.cmdRdy].
    unfold filled, fill.
    destruct (5 <=? List.length data) eqn:E5.
    + apply Nat.leb_le in E5.
      replace (5 - List.length data) with 0 by lia.
      rewrite app_nil_r, length_firstn.
      replace (Nat.min 5 (List.length data)) with 5 by lia.
      cbn [Nat.eqb negb andb].
      destruct (bytes_HasPrefix (firstn 5 data) (AsustorLCD.cmdRdy a));
        reflexivity.
    + apply Nat.leb_gt in E5.
      rewrite length_app, length_firstn, repeat_length.
      replace (Nat.min 5 (List.length data)) with (List.length data) by lia.
      replace (List.length data + (5 - List.length data)) with 5 by lia.
      replace (List.length data =? 5) with false
        by (symmetry; apply Nat.eqb_neq; lia).
      reflexivity.
  - unfold bind, io, AsustorLCD.forceClose, bind, modify, get, ret.
    cbn [AsustorLCD.con AsustorLCD.set_open]. rewrite Hc.
    unfold io. reflexivity.
  - unfold bind, io, AsustorLCD.forceClose, bind, modify, get, ret.
    cbn [AsustorLCD.con AsustorLCD.set_open]. rewrite Hc.
    unfold io. reflexivity.
Qed.

(** One probe of [Open]: a command is flushed and the readiness check
    follows; [k] is what [Open] does with the result of the check. *)
Lemma asustorLCD_probe_eq (cmd : list byte)
  (k : bool -> M AsustorLCD.asustorLCD (option error))
  (a : AsustorLCD.asustorLCD) (w : world) (c : nat) :
  AsustorLCD.con a = Some c ->
  bind (AsustorLCD.flush cmd)
    (fun err =>
       match err with
       | Some e => AsustorLCD.close_and_return (Some e)
       | None => bind AsustorLCD.isReady k
       end) a w
  = let t := write_time (AsustorLCD.lastFlush a) w in
    let a1 := AsustorLCD.set_lastFlush t a in
    let w1 := wrote (makemsg cmd) t w in
    let r := port_read (script w) (reads w) in
    match flushed (port_write (script w) (writes w) (makemsg cmd))
            (makemsg cmd) with
    | Some e => (Ret (Some e), a1, snd (con_Close w1))
    | None =>
      k (AsustorLCD.ready_reply a r)
        match r with
        | ReadData _ => a1
        | ReadErr _ | ReadSilent => AsustorLCD.set_open false a1
        end
        (checked r w1)
    end.
Proof.
  intros Hc. cbv zeta.
  rewrite (bind_ret _ _ _ _ _ _ _ (asustorLCD_flush_eq cmd a w c Hc)).
  destruct (flushed _ _) as [e|]; [reflexivity|].
  rewrite (bind_ret _ _ _ _ _ _ _
             (asustorLCD_isReady_eq
                (AsustorLCD.set_lastFlush
                   (write_time (AsustorLCD.lastFlush a) w) a)
                (wrote (makemsg cmd)
                   (write_time (AsustorLCD.lastFlush a) w) w) c Hc)).
  reflexivity.
Qed.

(** [Open] up to its first probe. *)
Lemma asustorLCD_open_eq (a : AsustorLCD.asustorLCD) (w : world) :
  AsustorLCD.open a = false ->
  port_open (script w) (opens w) = None ->
  exists w1,
    script w1 = script w /\ writes w1 = writes w /\ reads w1 = reads w
    /\ log w1 = log w ++ match AsustorLCD.con a with
                         | Some _ => [IoClose]
                         | None => []
                         end ++ [IoOpen (AsustorLCD.tty a) 115200]
    /\ AsustorLCD.Open a w
       = bind (AsustorLCD.flush (AsustorLCD.cmdDisplayStatus a))
           (fun err =>
              match err with
              | Some e => AsustorLCD.close_and_return (Some e)
              | None =>
                bind AsustorLCD.isReady (fun ready =>
                  if ready then AsustorLCD.opened else
                  bind (AsustorLCD.flush (AsustorLCD.cmdClearDisplay a))
                    (fun err =>
                       match err with
                       | Some e => AsustorLCD.close_and_return (Some e)
                       | None =>
                         bind AsustorLCD.isReady (fun ready =>
                           if ready then AsustorLCD.opened else
                           bind (AsustorLCD.flush
                                   (AsustorLCD.cmdDisplayStatus a))
                             (fun err =>
                                match err with
                                | Some e =>
                                  AsustorLCD.close_and_return (Some e)
                                | None =>
                                  bind AsustorLCD.isReady (fun ready =>
                                    if ready then AsustorLCD.opened
                                    else AsustorLCD.close_and_return
                                           (Some ErrDisplayNotWorking))
                                end))
                       end))
              end)
           (AsustorLCD.set_con (Some (opens w)) a) w1.
Proof.
  intros Ho Hopen.
  unfold AsustorLCD.Open.
  unfold bind at 1. unfold get at 1. rewrite Ho.
  destruct (AsustorLCD.con a) as [c|].
  - eexists. split; [|split; [|split; [|split]]]; cycle 4.
    + unfold bind at 1. unfold bind at 1. unfold io at 1. unfold con_Close at 1.
      unfold ret at 1.
      unfold bind at 1. unfold io at 1.
      unfold bind at 1. unfold io at 1. unfold serial_Open.
      cbn [script opens]. rewrite Hopen.
      unfold bind at 1. unfold modify at 1.
      reflexivity.
    + reflexivity.
    + reflexivity.
    + reflexivity.
    + cbn [log]. now rewrite <- app_assoc.
  - eexists. split; [|split; [|split; [|split]]]; cycle 4.
    + unfold bind at 1. unfold ret at 1.
      unfold bind at 1. unfold io at 1.
      unfold bind at 1. unfold io at 1. unfold serial_Open.
      cbn [script opens]. rewrite Hopen.
      unfold bind at 1. unfold modify at 1.
      reflexivity.
    + reflexivity.
    + reflexivity.
    + reflexivity.
    + reflexivity.
Qed.

(** One probe of [Open] on a session that is not open, and what is left
    after it: of the write that the port refused, or of the check. *)
Lemma asustorLCD_probe_run (cmd : list byte)
  (k : bool -> M AsustorLCD.asustorLCD (option error))
  (a : AsustorLCD.asustorLCD) (w : world) (c : nat) :
  AsustorLCD.con a = Some c ->
  AsustorLCD.open a = false ->
  exists a1 w1 a2 w2,
    bind (AsustorLCD.flush cmd)
      (fun err =>
         match err with
         | Some e => AsustorLCD.close_and_return (Some e)
         | None => bind AsustorLCD.isReady k
         end) a w
    = match flushed (port_write (script w) (writes w) (makemsg cmd))
              (makemsg cmd) with
      | Some e => (Ret (Some e), a1, w1)
      | None =>
        k (AsustorLCD.ready_reply a (port_read (script w) (reads w))) a2 w2
      end
    /\ AsustorLCD.open a1 = false
    /\ reads w1 = reads w
    /\ log w1 = log w ++ [IoWrite (makemsg cmd); IoClose]
    /\ AsustorLCD.core a2 = AsustorLCD.core a
    /\ AsustorLCD.open a2 = false
    /\ script w2 = script w
    /\ writes w2 = S (writes w)
    /\ reads w2 = S (reads w)
    /\ log w2
       = log w ++ IoWrite (makemsg cmd)
                  :: check_log (port_read (script w) (reads w)).
Proof.
  intros Hc Ho.
  rewrite (asustorLCD_probe_eq cmd k a w c Hc). cbv zeta.
  eexists; eexists; eexists; eexists.
  split; [reflexivity|].
  split; [exact Ho|]. split; [reflexivity|].
  split; [cbn [log snd con_Close wrote]; now rewrite <- app_assoc|].
  unfold checked.
  destruct (port_read (script w) (reads w));
    (split; [reflexivity|]); (split; [exact Ho || reflexivity|]);
    (split; [reflexivity|]); (split; [reflexivity|]);
    (split; [reflexivity|]);
    cbn [log snd con_Close con_Read wrote sleep check_log];
    rewrite <- ?app_assoc; reflexivity.
Qed.

(** C5, as the code has it.  [Open] on a session of asustor.go that is
    not open.  When the port does not open, [Open] returns its error and
    nothing is written.  When it opens, [Open] sends the display-status
    probe and checks for readiness; after a failed check it sends the
    clear-display frame and checks again; after a second failed check it
    sends the display-status probe again and checks a third time.  The
    first check that passes ends the sequence: [Open] returns nil and
    the session is open.  When all three fail, [Open] closes the port,
    returns [ErrDisplayNotWorking], and the session is not open.  The
    sequence goes on only as long as the port takes the probes: when it
    refuses one, [Open] closes the port and returns the error of that
    write, with no check after it.  A check that fails because no answer
    came in time has closed the port itself ([check_log]) before the
    next probe is written.  The seven ways through the probes are told
    apart by what the port answers to the writes ([sent]) and to the
    reads ([answer]); for each the statement gives the result, the calls
    made on the port, in order, and the count of reads. *)
Theorem asustorLCD_open_probes (a : AsustorLCD.asustorLCD) (w : world) :
  AsustorLCD.open a = false ->
  let status := makemsg (AsustorLCD.cmdDisplayStatus a) in
  let clear := makemsg (AsustorLCD.cmdClearDisplay a) in
  let sent k frame :=
    flushed (port_write (script w) (k + writes w) frame) frame in
  let answer k := port_read (script w) (k + reads w) in
  let ready k := AsustorLCD.ready_reply a (answer k) in
  let first := IoWrite status :: check_log (answer 0) in
  let second := first ++ IoWrite clear :: check_log (answer 1) in
  let third := second ++ IoWrite status :: check_log (answer 2) in
  let ends (r : option error) (evs : list io_event) (n : nat) :=
    exists a' w',
      AsustorLCD.Open a w = (Ret r, a', w')
      /\ AsustorLCD.open a' = match r with None => true | Some _ => false end
      /\ since w w'
         = match AsustorLCD.con a with Some _ => [IoClose] | None => [] end
           ++ IoOpen (AsustorLCD.tty a) 115200 :: evs
      /\ reads w' = n + reads w in
  (forall e,
     port_open (script w) (opens w) = Some e ->
     exists a' w',
       AsustorLCD.Open a w = (Ret (Some e), a', w')
       /\ AsustorLCD.open a' = false
       /\ AsustorLCD.con a' = None
       /\ written (since w w') = []
       /\ reads w' = reads w)
  /\ (port_open (script w) (opens w) = None ->
     (forall e, sent 0 status = Some e ->
        ends (Some e) [IoWrite status; IoClose] 0)
     /\ (sent 0 status = None -> ready 0 = true -> ends None first 1)
     /\ (forall e, sent 0 status = None -> ready 0 = false ->
           sent 1 clear = Some e ->
           ends (Some e) (first ++ [IoWrite clear; IoClose]) 1)
     /\ (sent 0 status = None -> ready 0 = false ->
         sent 1 clear = None -> ready 1 = true -> ends None second 2)
     /\ (forall e, sent 0 status = None -> ready 0 = false ->
           sent 1 clear = None -> ready 1 = false ->
           sent 2 status = Some e ->
           ends (Some e) (second ++ [IoWrite status; IoClose]) 2)
     /\ (sent 0 status = None -> ready 0 = false ->
         sent 1 clear = None -> ready 1 = false ->
         sent 2 status = None -> ready 2 = true -> ends None third 3)
     /\ (sent 0 status = None -> ready 0 = false ->
         sent 1 clear = None -> ready 1 = false ->
         sent 2 status = None -> ready 2 = false ->
         ends (Some ErrDisplayNotWorking) (third ++ [IoClose]) 3)).
Proof.
  intros Ho. cbv zeta beta. cbn [Nat.add].
  split; [intros e Hp; exact (asustorLCD_open_port_fails a w e Ho Hp)|].
  intros Hopen.
  destruct (asustorLCD_open_eq a w Ho Hopen) as (w0 & S0 & W0 & R0 & L0 & E).
  match type of E with
  | _ = bind _ (fun _ => match _ with
                         | Some _ => _
                         | None => bind AsustorLCD.isReady ?k
                         end) ?a0 _ =>
    destruct (asustorLCD_probe_run (AsustorLCD.cmdDisplayStatus a) k a0 w0
                (opens w) eq_refl Ho)
      as (a1 & w1 & a2 & w2 & E1 & O1 & R1 & L1 & C2 & O2 & S2 & W2 & R2
          & L2)
  end.
  rewrite E1 in E. clear E1.
  rewrite S0, W0, R0 in *.
  destruct (asustorLCD_core_fields _ _ C2) as (Hc2 & Hr2).
  cbn [AsustorLCD.con AsustorLCD.cmdRdy AsustorLCD.set_con] in Hc2, Hr2.
  match type of E with
  | context [bind (AsustorLCD.flush (AsustorLCD.cmdClearDisplay a))
               (fun _ => match _ with
                         | Some _ => _
                         | None => bind AsustorLCD.isReady ?k
                         end)] =>
    destruct (asustorLCD_probe_run (AsustorLCD.cmdClearDisplay a) k a2 w2
                (opens w) Hc2 O2)
      as (a3 & w3 & a4 & w4 & E2 & O3 & R3 & L3 & C4 & O4 & S4 & W4 & R4
          & L4)
  end.
  rewrite S2, W2, R2 in *.
  destruct (asustorLCD_core_fields _ _ C4) as (Hc4 & Hr4).
  rewrite Hc2 in Hc4. rewrite Hr2 in Hr4.
  match type of E with
  | context [bind (AsustorLCD.flush (AsustorLCD.cmdDisplayStatus a))
               (fun _ => match _ with
                         | Some _ => _
                         | None => bind AsustorLCD.isReady ?k
                         end)] =>
    destruct (asustorLCD_probe_run (AsustorLCD.cmdDisplayStatus a) k a4 w4
                (opens w) Hc4 O4)
      as (a5 & w5 & a6 & w6 & E3 & O5 & R5 & L5 & C6 & O6 & S6 & W6 & R6
          & L6)
  end.
  rewrite S4, W4, R4 in *.
  assert (Hy2 : forall r, AsustorLCD.ready_reply a2 r
                          = AsustorLCD.ready_reply a r)
    by (intros r; unfold AsustorLCD.ready_reply; now rewrite Hr2).
  assert (Hy4 : forall r, AsustorLCD.ready_reply a4 r
                          = AsustorLCD.ready_reply a r)
    by (intros r; unfold AsustorLCD.ready_reply; now rewrite Hr4).
  rewrite Hy2 in E2. rewrite Hy4 in E3.
  change (AsustorLCD.ready_reply (AsustorLCD.set_con (Some (opens w)) a))
    with (AsustorLCD.ready_reply a) in E.
  rewrite L0 in L1, L2. rewrite L2 in L3, L4. rewrite L4 in L5, L6.
  assert (Hopened : forall b v,
            AsustorLCD.opened b v
            = (Ret None,
               AsustorLCD.set_reading true (AsustorLCD.set_open true b), v))
    by reflexivity.
  assert (Hclosed : forall e b v,
            AsustorLCD.close_and_return e b v = (Ret e, b, snd (con_Close v)))
    by reflexivity.
  repeat split; intros;
    repeat match goal with
           | H : flushed _ _ = _ |- _ => rewrite H in *; clear H
           | H : AsustorLCD.ready_reply a _ = _ |- _ =>
             rewrite H in *; clear H
           end;
    try rewrite E2 in E; try rewrite E3 in E;
    rewrite ?Hopened, ?Hclosed in E;
    (eexists; eexists; split; [exact E|]);
    (split; [assumption || reflexivity|]);
    (split;
     [apply since_app; cbn [log snd con_Close];
      rewrite ?L1, ?L2, ?L3, ?L4, ?L5, ?L6;
      rewrite <- ?app_assoc; cbn [app]; reflexivity
     | cbn [reads snd con_Close]; assumption]).
Qed.

Lemma asustorLCD_open_probes_witness :
  let a := AsustorLCD.newLCD DefaultTTy in
  let w := start (port_of [ReadData [B 241; B 1; B 17];
                           ReadData [B 0; B 0; B 0; B 0; B 0];
                           ReadData [B 241; B 1; B 17; B 0; B 3]] 0) in
  let status := makemsg (AsustorLCD.cmdDisplayStatus a) in
  let clear := makemsg (AsustorLCD.cmdClearDisplay a) in
  exists a' w',
    AsustorLCD.Open a w = (Ret None, a', w')
    /\ AsustorLCD.open a' = true
    /\ since w w'
       = [IoOpen DefaultTTy 115200; IoWrite status; IoRead;
          IoWrite clear; IoRead; IoWrite status; IoRead]
    /\ reads w' = 3.
Proof.
  intros a w status clear.
  apply (proj1 (proj2 (proj2 (proj2 (proj2 (proj2
           (proj2 (asustorLCD_open_probes a w eq_refl) eq_refl)))))));
    reflexivity.
Defined.

(** C5 as the specification has it fails.  The device does not answer
    the first probe: the readiness check fails, and its timer has closed
    the port.  [Open] sends the clear-display frame, which the closed
    port refuses, and returns the error of that write, not
    [ErrDisplayNotWorking]: one check has been made, not three. *)
Lemma asustorLCD_open_single_check_counterexample :
  let a := AsustorLCD.newLCD DefaultTTy in
  let w := start hung_up in
  let status := makemsg (AsustorLCD.cmdDisplayStatus a) in
  let clear := makemsg (AsustorLCD.cmdClearDisplay a) in
  exists a' w',
    AsustorLCD.Open a w = (Ret (Some (ErrTransport 5)), a', w')
    /\ AsustorLCD.ready_reply a (port_read (script w) (reads w)) = false
    /\ Some (ErrTransport 5) <> Some ErrDisplayNotWorking
    /\ AsustorLCD.open a' = false
    /\ since w w'
       = [IoOpen DefaultTTy 115200; IoWrite status; IoRead; IoClose;
          IoWrite clear; IoClose]
    /\ reads w' = 1.
Proof.
  vm_compute. eexists; eexists. repeat split. discriminate.
Qed.

(** ** The factory *)

Lemma asustorLCD_probe_well (t : string) (cmd : list byte)
  (k : bool -> M AsustorLCD.asustorLCD (option error))
  (a : AsustorLCD.asustorLCD) (w : world) (c : nat) :
  AsustorLCD.con a = Some c ->
  (forall b a' w',
     AsustorLCD.core a' = AsustorLCD.core a -> opens_well t (k b a' w')) ->
  opens_well t
    (bind (AsustorLCD.flush cmd)
       (fun err =>
          match err with
          | Some e => AsustorLCD.close_and_return (Some e)
          | None => bind AsustorLCD.isReady k
          end) a w).
Proof.
  intros Hc Hk.
  rewrite (bind_ret _ _ _ _ _ _ _ (asustorLCD_flush_eq cmd a w c Hc)).
  destruct (flushed _ _) as [e|].
  - unfold AsustorLCD.close_and_return, bind, io, ret.
    destruct (con_Close _) as [x w'].
    eexists; eexists; eexists. split; [reflexivity | discriminate].
  - set (a1 := AsustorLCD.set_lastFlush _ a).
    destruct (asustorLCD_isReady_spec a1 (wrote (makemsg cmd)
                (write_time (AsustorLCD.lastFlush a) w) w) c Hc)
      as (a2 & w2 & evs & E & C & _).
    rewrite (bind_ret _ _ _ _ _ _ _ E).
    apply Hk. rewrite C. reflexivity.
Qed.

Lemma asustorLCD_opened_well (a : AsustorLCD.asustorLCD) (w : world) :
  opens_well (AsustorLCD.tty a) (AsustorLCD.opened a w).
Proof.
  eexists; eexists; eexists. split; [reflexivity|].
  intros _. split; reflexivity.
Qed.

Lemma asustorLCD_open_well (a : AsustorLCD.asustorLCD) (w : world) :
  AsustorLCD.open a = false ->
  opens_well (AsustorLCD.tty a) (AsustorLCD.Open a w).
Proof.
  intros Ho.
  assert (T : forall a', AsustorLCD.core a' = AsustorLCD.core
                (AsustorLCD.set_con (Some (opens
                   (match AsustorLCD.con a with
                    | Some _ => snd (con_Close w) | None => w end))) a) ->
              AsustorLCD.tty a' = AsustorLCD.tty a
              /\ AsustorLCD.con a'
                 = Some (opens (match AsustorLCD.con a with
                                | Some _ => snd (con_Close w)
                                | None => w end))).
  { intros a' C. split.
    - exact (f_equal AsustorLCD.tty C).
    - exact (f_equal AsustorLCD.con C). }
  unfold AsustorLCD.Open. unfold bind at 1, get at 1. rewrite Ho.
  unfold bind at 1.
  set (w0 := match AsustorLCD.con a with
             | Some _ => snd (con_Close w) | None => w end) in *.
  assert (E0 : (match AsustorLCD.con a with
                | Some _ => bind (io con_Close) (fun _ => ret tt)
                | None => ret tt
                end) a w = (Ret tt, a, w0)).
  { unfold w0. destruct (AsustorLCD.con a); reflexivity. }
  rewrite E0.
  unfold bind at 1, io at 1. cbv beta iota zeta.
  unfold bind at 1, io at 1.
  destruct (serial_Open (AsustorLCD.tty a) 115200 w0) as [err w1].
  destruct err as [e|].
  { unfold bind, modify, ret.
    eexists; eexists; eexists. split; [reflexivity | discriminate]. }
  unfold bind at 1, modify at 1.
  set (a0 := AsustorLCD.set_con (Some (opens w0)) a) in *.
  apply (asustorLCD_probe_well _ _ _ a0 w1 (opens w0) eq_refl).
  intros b1 a1 w2 C1. destruct (T a1 C1) as (T1 & K1).
  destruct b1; [rewrite <- T1; apply asustorLCD_opened_well|].
  apply (asustorLCD_probe_well _ _ _ a1 w2 (opens w0) K1).
  intros b2 a2 w3 C2. rewrite C1 in C2. destruct (T a2 C2) as (T2 & K2).
  destruct b2; [rewrite <- T2; apply asustorLCD_opened_well|].
  apply (asustorLCD_probe_well _ _ _ a2 w3 (opens w0) K2).
  intros b3 a3 w4 C3. rewrite C2 in C3. destruct (T a3 C3) as (T3 & K3).
  destruct b3; [rewrite <- T3; apply asustorLCD_opened_well|].
  unfold AsustorLCD.close_and_return, bind, io, ret.
  destruct (con_Close _) as [x w'].
  eexists; eexists; eexists. split; [reflexivity | discriminate].
Qed.

(** X13.  [FindLED] always returns, and never nil.  It returns the Asustor
    session, open on [DefaultTTy], when [NewAsustorLCD] succeeds; the
    QNAP session, open on [DefaultTTy], when [NewAsustorLCD] fails and
    [NewQnapLCD], tried after it, succeeds; and [DummyLCD] when both
    fail.  On [DummyLCD] the methods [Open], [Write], [Enable] and
    [Close] return nil and touch nothing. *)
Theorem findLED_hands_back_a_device (w : world) :
  exists d w',
    FindLED w = (Ret d, w')
    /\ match d with
       | LcdNil => False
       | LcdAsustor a =>
         AsustorLCD.open a = true /\ AsustorLCD.tty a = DefaultTTy
       | LcdQnap q =>
         Qnap.open q = true /\ Qnap.tty q = DefaultTTy
         /\ exists e w1,
              AsustorLCD.NewAsustorLCD EmptyString w
              = (Ret (None, Some e), w1)
       | DummyLCD =>
         exists e1 w1 e2,
           AsustorLCD.NewAsustorLCD EmptyString w = (Ret (None, Some e1), w1)
           /\ Qnap.NewQnapLCD EmptyString w1 = (Ret (None, Some e2), w')
       end
    /\ (forall w0 line text yes,
          LCD_Open DummyLCD w0 = (Ret None, DummyLCD, w0)
          /\ LCD_Write line text DummyLCD w0 = (Ret None, DummyLCD, w0)
          /\ LCD_Enable yes DummyLCD w0 = (Ret None, DummyLCD, w0)
          /\ LCD_Close DummyLCD w0 = (Ret None, DummyLCD, w0)).
Proof.
  assert (D : forall w0 line text yes,
            LCD_Open DummyLCD w0 = (Ret None, DummyLCD, w0)
            /\ LCD_Write line text DummyLCD w0 = (Ret None, DummyLCD, w0)
            /\ LCD_Enable yes DummyLCD w0 = (Ret None, DummyLCD, w0)
            /\ LCD_Close DummyLCD w0 = (Ret None, DummyLCD, w0))
    by (intros; repeat split).
  destruct (asustorLCD_open_well (AsustorLCD.newLCD DefaultTTy) w eq_refl)
    as (r & a' & w1 & E & Hr).
  assert (NA : AsustorLCD.NewAsustorLCD EmptyString w
               = match r with
                 | Some e => (Ret (None, Some e), w1)
                 | None => (Ret (Some a', None), w1)
                 end).
  { unfold AsustorLCD.NewAsustorLCD.
    change (if String.eqb EmptyString EmptyString then DefaultTTy
            else EmptyString) with DefaultTTy.
    rewrite E. destruct r; reflexivity. }
  unfold FindLED. rewrite NA.
  destruct r as [e1|].
  2:{ destruct (Hr eq_refl) as (H1 & H2).
      exists (LcdAsustor a'), w1. split; [reflexivity|].
      split; [split; assumption | exact D]. }
  destruct (qnap_init_answers (Qnap.newLCD DefaultTTy) w1 eq_refl)
    as (r2 & q' & w2 & E2 & _ & Ho2 & Hn2 & _).
  assert (NQ : Qnap.NewQnapLCD EmptyString w1
               = match r2 with
                 | Some e => (Ret (None, Some e), w2)
                 | None => (Ret (Some q', None), w2)
                 end).
  { unfold Qnap.NewQnapLCD.
    change (if String.eqb EmptyString EmptyString then DefaultTTy
            else EmptyString) with DefaultTTy.
    rewrite E2. destruct r2; reflexivity. }
  rewrite NQ.
  destruct r2 as [e2|].
  - exists DummyLCD, w2. split; [reflexivity|].
    split; [|exact D]. exists e1, w1, e2. split; [reflexivity | exact NQ].
  - exists (LcdQnap q'), w2. split; [reflexivity|].
    split; [|exact D].
    split; [now apply Ho2|]. split; [apply (Hn2 eq_refl)|].
    exists e1, w1. reflexivity.
Qed.

(** ** Reopening a session of the revision with the lock *)


Lemma asustor_open_stale (a : Asustor.asustor) (w : world) (c : nat)
  (s : Asustor.slice) (q : list Asustor.slice) :
  Asustor.open a = false ->
  Asustor.con a = Some c ->
  Asustor.readC a = s :: q ->
  existsb (bytes_Equal (Asustor.view a s))
    [Asustor.replyOkayCheck1 a; Asustor.replyOkayCheck2 a;
     Asustor.replyOkayCheck3 a] = false ->
  List.length (Asustor.readC a) <= Asustor.chanCap ->
  List.length (Asustor.btnC a) < Asustor.chanCap ->
  port_open (script w) (opens w) = None ->
  flushed (port_write (script w) (writes w)
             (makemsg (Asustor.cmdDisplayStatus a)))
    (makemsg (Asustor.cmdDisplayStatus a)) = None ->
  exists a' w',
    Asustor.Open a w = (Ret (Some ErrDisplayNotWorking), a', w')
    /\ Asustor.open a' = false
    /\ Asustor.con a' = Some (opens w)
    /\ Asustor.readC a'
       = map (fun s => Asustor.Bytes (Asustor.view a s)) q
           ++ [Asustor.Bytes []]
    /\ Asustor.btnC a'
       = map (fun s => Asustor.Bytes (Asustor.view a s)) (Asustor.btnC a)
           ++ [Asustor.Bytes []]
    /\ acks (since w w') = [Some (Asustor.view a s)]
    /\ reads w' = reads w.
Proof.
  intros Ho Hc Hr Hs Hlr Hlb Hp Hf.
  destruct a as [con readC btnC tty open keep retry lastFlush cmdByte
                 replyByte c1 c2 c3 c4 cmdBtn c6 c7 ok1 ok2 ok3 c11 msgSize
                 reading bufArray bufLen startFound].
  cbn [Asustor.open Asustor.con Asustor.readC Asustor.btnC
       Asustor.replyOkayCheck1 Asustor.replyOkayCheck2
       Asustor.replyOkayCheck3 Asustor.cmdDisplayStatus] in *.
  subst open con readC.
  unfold Asustor.Open, bind, get, io, modify, ret.
  cbn [Asustor.open Asustor.con Asustor.tty].
  unfold serial_Open. cbn [script opens con_Close snd fst].
  rewrite Hp.
  unfold Asustor.go_read, modify.
  unfold Asustor.establish, bind, get.
  unfold Asustor.flush, bind, get, io, Asustor.waitForFlushBetweenWrites.
  cbn [Asustor.con Asustor.set_con Asustor.set_open Asustor.set_readC
       Asustor.set_btnC Asustor.set_reading Asustor.set_bufArray
       Asustor.set_bufLen Asustor.set_startFound Asustor.set_lastFlush
       Asustor.cmdDisplayStatus Asustor.lastFlush Asustor.readC
       Asustor.btnC Asustor.open].
  match goal with |- context [if ?b then sleep ?d ?x else ?y] =>
    set (w1 := if b then sleep d x else y) end.
  assert (Hw1 : script w1 = script w /\ writes w1 = writes w
                /\ log w1 = log w ++ [IoClose; IoOpen tty 115200]
                /\ reads w1 = reads w).
  { unfold w1. match goal with |- context [if ?b then _ else _] =>
      destruct b end; cbn; rewrite <- ?app_assoc; auto. }
  destruct Hw1 as (S1 & W1 & L1 & R1).
  unfold con_Write. rewrite S1, W1.
  unfold flushed in Hf.
  destruct (port_write (script w) (writes w) (makemsg c1)) as [n err].
  cbn [fst snd] in *.
  destruct err as [e|]; [discriminate|].
  destruct (n =? Z.of_nat (List.length (makemsg c1)))%Z; [|discriminate].
  unfold ret.
  unfold Asustor.responseEqual.
  repeat progress (asustor_fields; cbn [map Asustor.view negb]).
  match goal with |- context [existsb ?f [ok1; ok2; ok3]] =>
    replace (existsb f [ok1; ok2; ok3]) with false
      by (symmetry; destruct s; exact Hs) end.
  cbn [negb].
  unfold Asustor.forceClose, bind, modify, get, io, con_Close.
  cbv beta iota zeta.
  repeat progress asustor_fields.
  rewrite chan_send_room
    by (rewrite length_map; cbn [List.length] in Hlr;
        unfold Asustor.chanCap in *; lia).
  repeat progress asustor_fields.
  rewrite chan_send_room by (rewrite length_map; exact Hlb).
  repeat progress asustor_fields.
  eexists; eexists. split; [reflexivity|].
  cbn [Asustor.open Asustor.con Asustor.readC Asustor.btnC].
  repeat split.
  - unfold since, note, next_wait. cbn [log]. rewrite L1.
    rewrite <- ?app_assoc.
    rewrite skipn_app, skipn_all, Nat.sub_diag. cbn [skipn app].
    destruct s; reflexivity.
  - cbn. exact R1.
Qed.

(** X14.  In the revision with the lock, [Close] on an open session with an
    empty read channel leaves one empty frame on that channel, and the
    next [Open] of the same session takes that frame for the answer to
    its probe: it returns [ErrDisplayNotWorking] whatever the device
    sends, closes the session again and leaves, once more, one empty
    frame on the read channel (and one more on the button channel), so
    that the same holds for the [Open] after it.  The expected patterns
    are assumed not empty, as those of [NewAsustorLCD] are. *)
Theorem asustor_reopen_after_close_fails
  (a : Asustor.asustor) (w w2 : world) (c : nat) :
  Asustor.open a = true ->
  Asustor.con a = Some c ->
  Asustor.readC a = [] ->
  List.length (Asustor.btnC a) + 2 <= Asustor.chanCap ->
  ~ In [] [Asustor.replyOkayCheck1 a; Asustor.replyOkayCheck2 a;
           Asustor.replyOkayCheck3 a] ->
  port_open (script w2) (opens w2) = None ->
  flushed (port_write (script w2) (writes w2)
             (makemsg (Asustor.cmdDisplayStatus a)))
    (makemsg (Asustor.cmdDisplayStatus a)) = None ->
  exists r1 a1 w1 a2 w3,
    Asustor.Close a w = (Ret r1, a1, w1)
    /\ Asustor.readC a1 = [Asustor.Bytes []]
    /\ Asustor.Open a1 w2 = (Ret (Some ErrDisplayNotWorking), a2, w3)
    /\ acks (since w2 w3) = [Some []]
    /\ Asustor.open a2 = false
    /\ Asustor.con a2 = Some (opens w2)
    /\ Asustor.readC a2 = [Asustor.Bytes []]
    /\ List.length (Asustor.btnC a2) = List.length (Asustor.btnC a) + 2.
Proof.
  intros Ho Hc Hr Hb Hne Hp Hf.
  rewrite (asustor_close_open a w c Ho Hc)
    by (rewrite ?Hr; unfold Asustor.chanCap in *; simpl; lia).
  set (a1 := Asustor.set_btnC _ _).
  destruct (asustor_open_stale a1 w2 c (Asustor.Bytes []) []) 
    as (a2 & w3 & E & H1 & H2 & H3 & H4 & H5 & _); auto.
  - unfold a1. cbn. now rewrite Hr.
  - unfold a1. cbn. cbn in Hne.
    destruct (Asustor.replyOkayCheck1 a), (Asustor.replyOkayCheck2 a),
      (Asustor.replyOkayCheck3 a); try reflexivity; exfalso; tauto.
  - unfold a1. cbn. rewrite Hr. unfold Asustor.chanCap. simpl. lia.
  - unfold a1. cbn. rewrite length_app. simpl. lia.
  - do 5 eexists. split; [reflexivity|].
    split; [unfold a1; cbn; now rewrite Hr|].
    split; [exact E|].
    split; [exact H5|].
    split; [exact H1|]. split; [exact H2|]. split; [exact H3|].
    rewrite H4, length_app, length_map. unfold a1. cbn.
    rewrite length_app. simpl. lia.
Qed.

Lemma asustor_reopen_after_close_fails_witness :
  exists r1 a1 w1 a2 w3,
    Asustor.Close asustor_open (start mute) = (Ret r1, a1, w1)
    /\ Asustor.readC a1 = [Asustor.Bytes []]
    /\ Asustor.Open a1
         (start (port_of [ReadData [B 241; B 1; B 17; B 0; B 3]] 1))
       = (Ret (Some ErrDisplayNotWorking), a2, w3)
    /\ acks (since
               (start (port_of [ReadData [B 241; B 1; B 17; B 0; B 3]] 1))
               w3) = [Some []]
    /\ Asustor.open a2 = false
    /\ Asustor.con a2 = Some 0
    /\ Asustor.readC a2 = [Asustor.Bytes []]
    /\ List.length (Asustor.btnC a2) = 2.
Proof.
  apply (asustor_reopen_after_close_fails asustor_open (start mute)
           (start (port_of [ReadData [B 241; B 1; B 17; B 0; B 3]] 1)) 0);
    try reflexivity.
  - unfold Asustor.chanCap. simpl. lia.
  - simpl. intros [H|[H|[H|H]]]; try discriminate; exact H.
Defined.

(** ** The scanning reader *)

Lemma asustor_pass_locals (s : Asustor.slice) (a a' : Asustor.asustor) :
  Asustor.pass s a = Some a' ->
  Asustor.bufLen a' = Asustor.bufLen a
  /\ Asustor.startFound a' = Asustor.startFound a
  /\ Asustor.bufArray a' = Asustor.bufArray a
  /\ Asustor.replyByte a' = Asustor.replyByte a
  /\ Asustor.cmdByte a' = Asustor.cmdByte a.
Proof.
  unfold Asustor.pass.
  destruct (bytes_HasPrefix _ _);
    match goal with |- context [chan_send ?c ?q ?x] =>
      destruct (chan_send c q x) end; try discriminate;
    intros [= <-]; repeat split.
Qed.

Lemma asustor_scan_app (xs ys : list byte) (a : Asustor.asustor) :
  Asustor.scan (xs ++ ys) a
  = match Asustor.scan xs a with
    | Some a' => Asustor.scan ys a'
    | None => None
    end.
Proof.
  revert a. induction xs as [|c xs IH]; intros a; [reflexivity|].
  cbn [app Asustor.scan].
  destruct (Asustor.startFound a || Byte.eqb c (Asustor.replyByte a)
            || Byte.eqb c (Asustor.cmdByte a)); [|apply IH].
  match goal with |- context [Nat.eqb ?x 5] => destruct (Nat.eqb x 5) end;
    [|apply IH].
  match goal with |- context [Asustor.pass ?s ?x] =>
    destruct (Asustor.pass s x) end; [apply IH | reflexivity].
Qed.

Lemma asustor_scan_tidy (res : list byte) (a a' : Asustor.asustor) :
  tidy a -> Asustor.scan res a = Some a' -> tidy a'.
Proof.
  revert a. induction res as [|c rest IH]; intros a Ht; cbn [Asustor.scan].
  - now intros [= <-].
  - destruct (Asustor.startFound a || Byte.eqb c (Asustor.replyByte a)
              || Byte.eqb c (Asustor.cmdByte a)); [|now apply IH].
    destruct Ht as (Hl & Hs).
    change (Asustor.bufLen
              (Asustor.WriteByte c (Asustor.set_startFound true a)))
      with (S (Asustor.bufLen a)).
    destruct (Nat.eqb (S (Asustor.bufLen a)) 5) eqn:E.
    + match goal with |- context [Asustor.pass ?s ?x] =>
        destruct (Asustor.pass s x) as [a1|] eqn:Ep end;
        cbv beta iota; [|intros; discriminate].
      apply asustor_pass_locals in Ep as (_ & Hs1 & _).
      apply IH. unfold tidy, Asustor.Reset.
      cbn [Asustor.bufLen Asustor.startFound Asustor.set_bufLen].
      split; [lia|]. rewrite Hs1. reflexivity.
    + apply Nat.eqb_neq in E. apply IH. unfold tidy.
      unfold Asustor.WriteByte. asustor_fields.
      split; [lia | reflexivity].
Qed.

Lemma asustor_scan_noise (g : list byte) (a : Asustor.asustor) :
  Asustor.startFound a = false ->
  forallb (fun c => negb (marker a c)) g = true ->
  Asustor.scan g a = Some a.
Proof.
  intros Hs. induction g as [|c g IH]; [reflexivity|].
  cbn [forallb Asustor.scan]. intros H.
  apply andb_prop in H as (Hc & Hg).
  unfold marker in Hc. rewrite Hs. cbn [orb].
  apply negb_true_iff in Hc. rewrite Hc. now apply IH.
Qed.

(** X15.  The reader of the revision with the lock keeps between two reads
    a buffer of fewer than five bytes, with [startFound] set exactly
    when the buffer is not empty; and with the buffer empty, bytes that
    are no marker are dropped: scanning them before other bytes changes
    nothing. *)
Theorem asustor_read_resynchronises :
  (forall res a a',
     tidy a -> Asustor.scan res a = Some a' -> tidy a')
  /\ (forall tty, tidy (Asustor.newLCD tty))
  /\ (forall g rest a,
        tidy a -> Asustor.bufLen a = 0 ->
        forallb (fun c => negb (marker a c)) g = true ->
        Asustor.scan (g ++ rest) a = Asustor.scan rest a).
Proof.
  split; [exact asustor_scan_tidy|].
  split; [intros tty; split; [cbn; lia | reflexivity]|].
  intros g rest a (_ & Hs) Hl Hg.
  rewrite Hl in Hs.
  now rewrite asustor_scan_app, (asustor_scan_noise g a Hs Hg).
Qed.

Lemma asustor_read_resynchronises_witness :
  Asustor.scan ([B 7; B 0; B 255] ++ [B 241; B 1; B 39; B 0; B 25])
    asustor_open
  = Asustor.scan [B 241; B 1; B 39; B 0; B 25] asustor_open.
Proof.
  apply (proj2 (proj2 asustor_read_resynchronises)).
  - split; [cbn; lia | reflexivity].
  - reflexivity.
  - reflexivity.
Defined.

(** X16.  The reader of the revision with the lock puts together what
    arrives in pieces: after two turns that read [xs] and then [ys]
    (each no longer than the read buffer), the session is the one that
    scanning [xs ++ ys] at once gives; when the two turns are not both
    taken, it is because a frame could not be passed. *)
Theorem asustor_frame_in_pieces (xs ys : list byte) (a : Asustor.asustor)
  (w : world) (c : nat) :
  Asustor.reading a = true ->
  Asustor.open a = true ->
  Asustor.con a = Some c ->
  List.length xs <= Asustor.msgSize a ->
  List.length ys <= Asustor.msgSize a ->
  port_read (script w) (reads w) = ReadData xs ->
  port_read (script w) (S (reads w)) = ReadData ys ->
  forall a2 w2,
    Asustor.read_turns 2 a w = (a2, w2) ->
    match Asustor.scan (xs ++ ys) a with
    | Some a' => a2 = a' /\ reads w2 = 2 + reads w
    | None => reads w2 <= 1 + reads w
    end.
Proof.
  intros Hrd Ho Hc Hx Hy Rx Ry a2 w2.
  rewrite asustor_scan_app.
  cbn [Asustor.read_turns]. unfold Asustor.read_turn at 1.
  rewrite Hrd, Ho, Hc, Rx. cbn [negb].
  rewrite firstn_all2 by exact Hx.
  destruct (Asustor.scan xs a) as [a1|] eqn:E1.
  2:{ intros [= <- <-]. lia. }
  assert (C := asustor_scan_core _ _ _ E1).
  assert (Hm : Asustor.msgSize a1 = Asustor.msgSize a)
    by exact (f_equal Asustor.msgSize C).
  assert (Ho1 : Asustor.open a1 = true)
    by (rewrite <- Ho; exact (f_equal Asustor.open C)).
  assert (Hc1 : Asustor.con a1 = Some c)
    by (rewrite <- Hc; exact (f_equal Asustor.con C)).
  assert (Hr1 : Asustor.reading a1 = true).
  { clear - E1 Hrd. revert a E1 Hrd.
    induction xs as [|x xs IH]; intros a; cbn [Asustor.scan].
    - now intros [= <-].
    - destruct (_ || _ || _); [|apply IH].
      match goal with |- context [Nat.eqb ?x 5] => destruct (Nat.eqb x 5) end.
      + unfold Asustor.pass.
        destruct (bytes_HasPrefix _ _);
          match goal with |- context [chan_send ?c ?q ?x] =>
            destruct (chan_send c q x) end; try discriminate;
          intros H1 H2; apply (IH _ H1); exact H2.
      + intros H1 H2; apply (IH _ H1); exact H2. }
  unfold Asustor.read_turn. rewrite Hr1, Ho1, Hc1. cbn [negb].
  cbn [con_Read snd script reads]. rewrite Ry.
  rewrite Hm, firstn_all2 by exact Hy.
  destruct (Asustor.scan ys a1) as [a3|].
  - intros [= <- <-]. split; reflexivity.
  - intros [= <- <-]. cbn. lia.
Qed.



Lemma asustor_frame_in_pieces_witness :
  exists a2 w2,
    Asustor.read_turns 2 asustor_open
      (start (port_of [ReadData [B 241; B 1]; ReadData [B 39; B 0; B 25]] 0))
    = (a2, w2)
    /\ Asustor.scan [B 241; B 1; B 39; B 0; B 25] asustor_open = Some a2
    /\ reads w2 = 2.
Proof.
  destruct (Asustor.read_turns 2 asustor_open
              (start (port_of [ReadData [B 241; B 1];
                               ReadData [B 39; B 0; B 25]] 0)))
    as [a2 w2] eqn:E.
  pose proof (asustor_frame_in_pieces [B 241; B 1] [B 39; B 0; B 25]
                asustor_open
                (start (port_of [ReadData [B 241; B 1];
                                 ReadData [B 39; B 0; B 25]] 0))
                0 eq_refl eq_refl eq_refl (le_S _ _ (le_S _ _ (le_S _ _ (le_n 2))))
                (le_S _ _ (le_S _ _ (le_n 3))) eq_refl eq_refl a2 w2 E) as H.
  change ([B 241; B 1] ++ [B 39; B 0; B 25])
    with [B 241; B 1; B 39; B 0; B 25] in H.
  destruct (Asustor.scan [B 241; B 1; B 39; B 0; B 25] asustor_open)
    as [a'|] eqn:E2.
  - destruct H as (H1 & H2). exists a2, w2.
    split; [reflexivity|]. split; [now rewrite H1 | exact H2].
  - exfalso. clear - E2. vm_compute in E2. discriminate E2.
Defined.

(** ** The array behind the queued frames *)


(** One frame for the read channel, scanned from an empty buffer. *)
Lemma asustor_scan_queued (a : Asustor.asustor) (b0 b1 b2 b3 b4 : byte) :
  Asustor.bufLen a = 0 ->
  Asustor.startFound a = false ->
  5 <= List.length (Asustor.bufArray a) ->
  marker a b0 = true ->
  bytes_HasPrefix [b0; b1; b2; b3; b4] (Asustor.cmdBtn a) = false ->
  List.length (Asustor.readC a) < Asustor.chanCap ->
  exists a1,
    Asustor.scan [b0; b1; b2; b3; b4] a = Some a1
    /\ Asustor.readC a1 = Asustor.readC a ++ [Asustor.BufBytes]
    /\ Asustor.view a1 Asustor.BufBytes = [b0; b1; b2; b3; b4]
    /\ Asustor.bufLen a1 = 0
    /\ Asustor.startFound a1 = false
    /\ List.length (Asustor.bufArray a1) = List.length (Asustor.bufArray a)
    /\ Asustor.cmdBtn a1 = Asustor.cmdBtn a
    /\ Asustor.replyByte a1 = Asustor.replyByte a
    /\ Asustor.cmdByte a1 = Asustor.cmdByte a.
Proof.
  intros Hl Hs Ha Hm Hp Hr.
  destruct (asustor_scan_frame a b0 b1 b2 b3 b4 Hl Hs Ha Hm) as (Hv & E).
  cbv zeta in Hv, E. rewrite E. clear E.
  unfold Asustor.pass. rewrite Hv.
  asustor_fields. rewrite Hp.
  rewrite (chan_send_room _ _ _ Hr).
  eexists. split; [reflexivity|].
  unfold Asustor.Reset. asustor_fields.
  split; [reflexivity|]. split; [exact Hv|].
  split; [reflexivity|]. split; [reflexivity|].
  split; [|repeat split].
  rewrite length_app, length_skipn. simpl. lia.
Qed.

(** X17.  The slices that the reader of the revision with the lock passes
    share one array.  After a frame [f] for the read channel has been
    scanned, the channel holds a slice that shows [f]; after the next
    frame [g] has been scanned, the channel holds two slices and both
    show [g]: the bytes of [f] can no longer be read. *)
Theorem asustor_queued_frames_share_buffer
  (a : Asustor.asustor) (f0 f1 f2 f3 f4 g0 g1 g2 g3 g4 : byte) :
  let f := [f0; f1; f2; f3; f4] in
  let g := [g0; g1; g2; g3; g4] in
  Asustor.bufLen a = 0 ->
  Asustor.startFound a = false ->
  5 <= List.length (Asustor.bufArray a) ->
  marker a f0 = true ->
  marker a g0 = true ->
  bytes_HasPrefix f (Asustor.cmdBtn a) = false ->
  bytes_HasPrefix g (Asustor.cmdBtn a) = false ->
  List.length (Asustor.readC a) + 2 <= Asustor.chanCap ->
  exists a1 a2,
    Asustor.scan f a = Some a1
    /\ Asustor.scan g a1 = Some a2
    /\ Asustor.scan (f ++ g) a = Some a2
    /\ Asustor.readC a1 = Asustor.readC a ++ [Asustor.BufBytes]
    /\ Asustor.view a1 Asustor.BufBytes = f
    /\ Asustor.readC a2
       = Asustor.readC a ++ [Asustor.BufBytes; Asustor.BufBytes]
    /\ Asustor.view a2 Asustor.BufBytes = g.
Proof.
  intros f g Hl Hs Ha Hf Hg Pf Pg Hr.
  destruct (asustor_scan_queued a f0 f1 f2 f3 f4 Hl Hs Ha Hf Pf)
    as (a1 & E1 & R1 & V1 & L1 & S1 & A1 & B1 & Y1 & C1);
    [unfold Asustor.chanCap in *; lia|].
  destruct (asustor_scan_queued a1 g0 g1 g2 g3 g4 L1 S1)
    as (a2 & E2 & R2 & V2 & _).
  - lia.
  - unfold marker in *. now rewrite Y1, C1.
  - now rewrite B1.
  - rewrite R1, length_app. unfold Asustor.chanCap in *. simpl. lia.
  - exists a1, a2. split; [exact E1|]. split; [exact E2|].
    split; [unfold f, g; rewrite asustor_scan_app, E1; exact E2|].
    split; [exact R1|]. split; [exact V1|]. split; [|exact V2].
    rewrite R2, R1, <- app_assoc. reflexivity.
Qed.

Lemma asustor_queued_frames_share_buffer_witness :
  exists a1 a2,
    Asustor.scan [B 241; B 1; B 39; B 0; B 25] asustor_open = Some a1
    /\ Asustor.scan [B 241; B 1; B 17; B 4; B 7] a1 = Some a2
    /\ Asustor.scan ([B 241; B 1; B 39; B 0; B 25]
                       ++ [B 241; B 1; B 17; B 4; B 7]) asustor_open
       = Some a2
    /\ Asustor.readC a1 = Asustor.readC asustor_open ++ [Asustor.BufBytes]
    /\ Asustor.view a1 Asustor.BufBytes = [B 241; B 1; B 39; B 0; B 25]
    /\ Asustor.readC a2
       = Asustor.readC asustor_open
           ++ [Asustor.BufBytes; Asustor.BufBytes]
    /\ Asustor.view a2 Asustor.BufBytes = [B 241; B 1; B 17; B 4; B 7].
Proof.
  apply (asustor_queued_frames_share_buffer asustor_open
           (B 241) (B 1) (B 39) (B 0) (B 25)
           (B 241) (B 1) (B 17) (B 4) (B 7)); try reflexivity.
  - simpl. lia.
  - unfold Asustor.chanCap. simpl. lia.
Defined.

(** ** A full button channel *)

Lemma chan_send_full {A : Type} (cap : nat) (q : list A) (x : A) :
  cap <= List.length q -> chan_send cap q x = None.
Proof.
  intros H. unfold chan_send.
  now rewrite (proj2 (Nat.ltb_ge _ _) H).
Qed.

Lemma asustor_starved_turns (n : nat) (a : Asustor.asustor) (w : world)
  (f : list byte) :
  starved a w f -> Asustor.read_turns n a w = (a, w).
Proof.
  intros (Ho & Hrd & Hc & _ & Hl & Hs & Ha & Hm & Hb & Hf & Hk & Hp & Hr).
  destruct n as [|n]; [reflexivity|].
  cbn [Asustor.read_turns]. unfold Asustor.read_turn.
  rewrite Hrd, Ho, Hr. cbn [negb].
  destruct (Asustor.con a) as [c|]; [|congruence].
  rewrite Hm, firstn_all2 by lia.
  destruct f as [|b0 [|b1 [|b2 [|b3 [|b4 [|]]]]]]; try discriminate.
  destruct (asustor_scan_frame a b0 b1 b2 b3 b4 Hl Hs Ha Hk) as (Hv & E).
  cbv zeta in Hv, E. rewrite E.
  unfold Asustor.pass. rewrite Hv. asustor_fields. rewrite Hp.
  now rewrite (chan_send_full _ _ _ Hb).
Qed.

Lemma asustor_starved_wait (checks : list (list byte)) (a : Asustor.asustor)
  (w : world) (f : list byte) :
  starved a w f ->
  Asustor.responseEqual checks a w
  = (Ret false, a, note (IoAck None) (sleep (40 * Millisecond) (next_wait w))).
Proof.
  intros H. unfold Asustor.responseEqual.
  destruct H as (Ho & Hrd & Hc & Hq & H). rewrite Hq.
  rewrite (asustor_starved_turns _ a (next_wait w) f)
    by (unfold starved; tauto).
  now rewrite Hq.
Qed.

Lemma asustor_starved_write (msg : list byte) (f : list byte) :
  forall (fuel : nat) (a : Asustor.asustor) (w : world),
    starved a w f ->
    takes_writes (script w) ->
    Asustor.attempts (Asustor.retry a) <= fuel ->
    exists a' w',
      Asustor.write fuel msg a w = (Ret (Some ErrDisplayNotWorking), a', w')
      /\ starved a' w' f
      /\ reads w' = reads w
      /\ exists evs,
           log w' = log w ++ evs
           /\ written evs
              = repeat (makemsg msg) (Asustor.attempts (Asustor.retry a))
           /\ acks evs
              = repeat None (Asustor.attempts (Asustor.retry a)).
Proof.
  induction fuel as [|fuel IH]; intros a w Hst Hp Hfuel.
  { pose proof (attempts_pos (Asustor.retry a)). lia. }
  assert (Hst' := Hst).
  destruct Hst' as (Ho & Hrd & Hc & Hq & Hl & Hs & Ha & Hm & Hb & Hf & Hk
                    & Hpre & Hr).
  destruct (Asustor.con a) as [c|] eqn:Ec; [|congruence].
  cbn [Asustor.write]. unfold bind at 1. unfold get at 1.
  rewrite Ho. cbn [negb].
  rewrite (bind_ret _ _ _ _ _ _ _ (asustor_flush_eq msg a w c Ec)).
  rewrite (flushed_whole _ _ _ Hp).
  set (a1 := Asustor.set_lastFlush _ a).
  set (w1 := wrote _ _ w).
  assert (St1 : starved a1 w1 f).
  { unfold starved, a1, w1, wrote, marker. asustor_fields. cbn [script reads].
    rewrite Ec. unfold marker in Hk. repeat split; auto; discriminate. }
  rewrite (bind_ret _ _ _ _ _ _ _
             (asustor_starved_wait [Asustor.replyMsgSentCheck a] a1 w1 f St1)).
  cbn [negb]. unfold bind at 1. unfold get at 1.
  set (w2 := note _ _).
  assert (St2 : starved a1 w2 f).
  { unfold starved in *. unfold w2, note, sleep, next_wait.
    cbn [script reads]. exact St1. }
  assert (L2 : log w2 = log w ++ [IoWrite (makemsg msg); IoAck None]).
  { unfold w2, w1, note, sleep, next_wait, wrote. cbn [log].
    now rewrite <- app_assoc. }
  change (Asustor.retry a1) with (Asustor.retry a).
  unfold Asustor.attempts in *.
  destruct (Asustor.retryBound <? Byte.to_N (Asustor.retry a))%N eqn:Eb.
  - unfold ret. exists a1, w2. split; [reflexivity|].
    split; [exact St2|]. split; [reflexivity|].
    exists [IoWrite (makemsg msg); IoAck None].
    split; [exact L2|]. split; reflexivity.
  - apply N.ltb_ge in Eb. unfold Asustor.retryBound in Eb.
    unfold bind at 1, modify at 1.
    set (a2 := Asustor.set_retry _ a1).
    assert (St3 : starved a2 w2 f).
    { unfold starved in *. unfold a2, marker in *. asustor_fields.
      exact St2. }
    destruct (IH a2 w2 St3) as (a' & w' & E & St' & R' & evs & L' & Wr & Ak).
    { unfold takes_writes in *. exact Hp. }
    { unfold a2. asustor_fields.
      pose proof (attempts_succ (Asustor.retry a) Eb) as Hs1.
      unfold Asustor.attempts, Asustor.retryBound in *.
      destruct (10 <? Byte.to_N (Asustor.retry a))%N eqn:E1;
        [apply N.ltb_lt in E1; lia|].
      lia. }
    exists a', w'. split; [exact E|]. split; [exact St'|].
    split; [rewrite R'; reflexivity|].
    pose proof (attempts_succ (Asustor.retry a) Eb) as Hs1.
    unfold Asustor.attempts, Asustor.retryBound in Hs1.
    destruct (10 <? Byte.to_N (Asustor.retry a))%N eqn:E1;
      [apply N.ltb_lt in E1; lia|].
    unfold a2 in Wr, Ak. cbn [Asustor.retry Asustor.set_retry] in Wr, Ak.
    unfold Asustor.retryBound in *.
    exists ([IoWrite (makemsg msg); IoAck None] ++ evs).
    split; [rewrite L', L2, <- app_assoc; reflexivity|].
    rewrite written_app, acks_app, Wr, Ak, Hs1. split; reflexivity.
Qed.

(** X18.  In the revision with the lock, when the button channel is full and
    the next bytes on the port are a button frame, the reader cannot
    pass that frame and reads no further.  As long as nothing takes
    frames from the button channel, a [Write] on such a session, with an
    empty read channel and a port that takes every write, sends its
    frame [attempts] times, sees every wait end by the timer and
    returns [ErrDisplayNotWorking], whatever the device would answer:
    nothing is read from the port. *)
Theorem asustor_full_button_channel_starves_write
  (line : Line) (text : string) (a : Asustor.asustor) (w : world)
  (f : list byte) :
  starved a w f ->
  takes_writes (script w) ->
  exists a' w',
    Asustor.Write line text a w = (Ret (Some ErrDisplayNotWorking), a', w')
    /\ reads w' = reads w
    /\ written (since w w')
       = repeat (makemsg (Asustor.strToBytes a line text))
           (Asustor.attempts (Asustor.retry a))
    /\ acks (since w w') = repeat None (Asustor.attempts (Asustor.retry a)).
Proof.
  intros Hst Hp.
  unfold Asustor.Write, bind, get.
  destruct (asustor_starved_write (Asustor.strToBytes a line text) f
              Asustor.depth a w Hst Hp (attempts_le_depth _))
    as (a' & w' & E & _ & R & evs & L & Wr & Ak).
  exists a', w'. split; [exact E|]. split; [exact R|].
  rewrite (since_app _ _ _ L). split; assumption.
Qed.

Lemma asustor_full_button_channel_starves_write_witness :
  let press := [B 240; B 1; B 128; B 1; B 114] in
  let ack := [B 241; B 1; B 39; B 0; B 25] in
  let a := Asustor.set_btnC (repeat (Asustor.Bytes press) 100) asustor_open in
  let w := start (port_of [ReadData press; ReadData ack] 3) in
  exists a' w',
    Asustor.Write LineOne "Hello" a w
    = (Ret (Some ErrDisplayNotWorking), a', w')
    /\ reads w' = 0
    /\ written (since w w')
       = repeat (makemsg (Asustor.strToBytes a LineOne "Hello")) 12
    /\ acks (since w w') = repeat None 12.
Proof.
  intros press ack a w.
  apply (asustor_full_button_channel_starves_write LineOne "Hello" a w press).
  - unfold starved. repeat split; try reflexivity; try discriminate.
    all: cbn; rewrite ?repeat_length; unfold Asustor.chanCap; lia.
  - intros k d. reflexivity.
Defined.

(** ** The frames queued by asustor.go *)

Lemma length_fill (n : nat) (data : list byte) :
  List.length (fill n data) = n.
Proof.
  unfold fill. rewrite length_app, length_firstn, repeat_length. lia.
Qed.

Lemma keeps_ret {A : Type} (x : A) : keeps_framed (ret x).
Proof. intros a w r a' w' H [= <- <- <-]. exact H. Qed.

Lemma keeps_get : keeps_framed get.
Proof. intros a w r a' w' H [= <- <- <-]. exact H. Qed.

Lemma keeps_panic {A : Type} : keeps_framed (@panic _ A).
Proof. intros a w r a' w' H [= <- <- <-]. exact H. Qed.

Lemma keeps_io {A : Type} (f : world -> A * world) : keeps_framed (io f).
Proof.
  intros a w r a' w' H. unfold io. destruct (f w). intros [= <- <- <-].
  exact H.
Qed.

Lemma keeps_modify (f : AsustorLCD.asustorLCD -> AsustorLCD.asustorLCD) :
  (forall a, AsustorLCD.btnC (f a) = AsustorLCD.btnC a
             /\ AsustorLCD.readC (f a) = AsustorLCD.readC a) ->
  keeps_framed (modify f).
Proof.
  intros Hf a w r a' w' (H1 & H2) [= <- <- <-].
  destruct (Hf a) as (E1 & E2). unfold framed. now rewrite E1, E2.
Qed.

Lemma keeps_bind {A C : Type} (m : M AsustorLCD.asustorLCD A)
  (k : A -> M AsustorLCD.asustorLCD C) :
  keeps_framed m -> (forall x, keeps_framed (k x)) -> keeps_framed (bind m k).
Proof.
  intros Hm Hk a w r a' w' H. unfold bind.
  destruct (m a w) as [[r1 a1] w1] eqn:E1.
  specialize (Hm _ _ _ _ _ H E1).
  destruct r1; try (intros [= <- <- <-]; exact Hm).
  intros E2. exact (Hk _ _ _ _ _ _ Hm E2).
Qed.

Ltac keeps :=
  repeat first
    [ apply keeps_ret | apply keeps_get | apply keeps_panic | apply keeps_io
    | apply keeps_modify; intros; split; reflexivity
    | apply keeps_bind; [|intros ?]
    | match goal with
      | |- keeps_framed (match ?x with _ => _ end) => destruct x
      | |- keeps_framed (if ?x then _ else _) => destruct x
      end ].

Lemma keeps_pause : keeps_framed AsustorLCD.wait10MillisForSureBetweenWrites.
Proof.
  intros a w r a' w' H. unfold AsustorLCD.wait10MillisForSureBetweenWrites.
  intros [= <- <- <-]. exact H.
Qed.

Lemma keeps_flush (data : list byte) : keeps_framed (AsustorLCD.flush data).
Proof.
  unfold AsustorLCD.flush. apply keeps_bind; [apply keeps_pause|].
  intros _. keeps.
Qed.

Lemma keeps_forceClose : keeps_framed AsustorLCD.forceClose.
Proof. unfold AsustorLCD.forceClose. keeps. Qed.

Lemma keeps_Close : keeps_framed AsustorLCD.Close.
Proof. unfold AsustorLCD.Close. keeps; apply keeps_forceClose. Qed.

Lemma keeps_isReady : keeps_framed AsustorLCD.isReady.
Proof.
  unfold AsustorLCD.isReady, AsustorLCD.readWithTimeout.
  keeps; try apply keeps_forceClose.
Qed.

Lemma keeps_Open : keeps_framed AsustorLCD.Open.
Proof.
  unfold AsustorLCD.Open, AsustorLCD.opened, AsustorLCD.close_and_return.
  keeps; try apply keeps_pause.
Qed.

Lemma keeps_Enable (yes : bool) : keeps_framed (AsustorLCD.Enable yes).
Proof. unfold AsustorLCD.Enable. keeps; try apply keeps_pause. Qed.

Lemma keeps_read_turn : keeps_framed AsustorLCD.read_turn.
Proof.
  intros a w r a' w' (H1 & H2). unfold AsustorLCD.read_turn.
  destruct (negb (AsustorLCD.reading a)); [intros [= <- <- <-]; now split|].
  destruct (negb (AsustorLCD.open a)); [intros [= <- <- <-]; now split|].
  destruct (AsustorLCD.con a); [|intros [= <- <- <-]; now split].
  destruct (port_read (script w) (reads w)) as [data|e|];
    try (intros [= <- <- <-]; now split).
  destruct (bytes_HasPrefix _ _); unfold chan_send;
    match goal with |- context [if ?b then _ else _] => destruct b end;
    intros [= <- <- <-]; try (now split);
    split; cbn [AsustorLCD.btnC AsustorLCD.readC AsustorLCD.set_btnC
                AsustorLCD.set_readC]; auto;
    apply Forall_app; split; auto; constructor; auto; apply length_fill.
Qed.

Lemma framed_read_turns (n : nat) (a : AsustorLCD.asustorLCD) (w : world) :
  framed a -> framed (fst (AsustorLCD.read_turns n a w)).
Proof.
  revert a w. induction n as [|n IH]; intros a w H; [exact H|].
  cbn [AsustorLCD.read_turns].
  destruct (AsustorLCD.read_turn a w) as [[r a1] w1] eqn:E.
  pose proof (keeps_read_turn _ _ _ _ _ H E) as H1.
  destruct r as [[|]| | |]; cbn [fst]; auto.
Qed.

Lemma keeps_recv_readC : keeps_framed AsustorLCD.recv_readC.
Proof.
  intros a w r a' w' H. unfold AsustorLCD.recv_readC.
  assert (X : forall a1 w1, framed a1 ->
            match AsustorLCD.readC a1 with
            | [] => (Blocked, a1, w1)
            | res :: q => (Ret res, AsustorLCD.set_readC q a1, w1)
            end = (r, a', w') -> framed a').
  { intros a1 w1 (F1 & F2).
    destruct (AsustorLCD.readC a1) as [|res q] eqn:Eq;
      intros [= <- <- <-]; [split; [auto | now rewrite Eq]|].
    split; [exact F1|]. cbn. now inversion F2. }
  destruct (AsustorLCD.readC a) eqn:Eq.
  - pose proof (framed_read_turns (port_sched (script w) (waits w)) a
                  (next_wait w) H) as H1.
    destruct (AsustorLCD.read_turns _ a (next_wait w)) as [a1 w1].
    apply X. exact H1.
  - apply (X a w H).
Qed.

Lemma keeps_Write (line : Line) (text : string) :
  keeps_framed (AsustorLCD.Write line text).
Proof.
  unfold AsustorLCD.Write, AsustorLCD.isMsgSent.
  keeps; try apply keeps_pause; try apply keeps_recv_readC.
Qed.

Lemma framed_Listen_step (l : callback) (pc : listen_pc)
  (a : AsustorLCD.asustorLCD) :
  framed a ->
  framed (snd (fst (AsustorLCD.Listen_step l pc a)))
  /\ (pc <> LPanic -> fst (fst (AsustorLCD.Listen_step l pc a)) <> LPanic).
Proof.
  intros (F1 & F2). unfold AsustorLCD.Listen_step.
  destruct pc; cbn [fst snd]; try (split; [now split | tauto]).
  - split; [now split|]. destruct (AsustorLCD.open a); discriminate.
  - destruct (AsustorLCD.btnC a) as [|res q] eqn:Eq.
    + cbn [fst snd]. split; [split; [now rewrite Eq | auto] | discriminate].
    + inversion F1 as [|x y Hx Hy]; subst.
      destruct res as [|b0 [|b1 [|b2 [|b3 res]]]]; try discriminate.
      cbn [nth_error fst snd]. split; [now split|].
      destruct (l (int_of_byte b3) true); discriminate.
Qed.

Lemma framed_Listen_steps (n : nat) (l : callback) (pc : listen_pc)
  (a : AsustorLCD.asustorLCD) :
  framed a -> pc <> LPanic ->
  framed (snd (fst (AsustorLCD.Listen_steps n l pc a)))
  /\ fst (fst (AsustorLCD.Listen_steps n l pc a)) <> LPanic.
Proof.
  revert pc a. induction n as [|n IH]; intros pc a F Hp;
    cbn [AsustorLCD.Listen_steps]; [now split|].
  destruct (framed_Listen_step l pc a F) as (F1 & P1).
  destruct (AsustorLCD.Listen_step l pc a) as [[pc1 a1] c].
  cbn [fst snd] in *.
  destruct (IH pc1 a1 F1 (P1 Hp)) as (F2 & P2).
  destruct (AsustorLCD.Listen_steps n l pc1 a1) as [[pc2 a2] cs].
  now split.
Qed.

(** X19.  In asustor.go every frame queued on the two channels has five
    bytes: this holds for the session that [NewAsustorLCD] builds and is
    kept by [Open], [Close], [Enable], [Write], by every turn of the
    reader and by every step of [Listen].  On such a session [Listen]
    never panics: the index 3 of the frame it receives exists. *)
Theorem asustorLCD_listen_never_panics :
  (forall tty, framed (AsustorLCD.newLCD tty))
  /\ keeps_framed AsustorLCD.Open
  /\ keeps_framed AsustorLCD.Close
  /\ (forall yes, keeps_framed (AsustorLCD.Enable yes))
  /\ (forall line text, keeps_framed (AsustorLCD.Write line text))
  /\ keeps_framed AsustorLCD.read_turn
  /\ (forall n l pc a,
        framed a -> pc <> LPanic ->
        framed (snd (fst (AsustorLCD.Listen_steps n l pc a)))
        /\ fst (fst (AsustorLCD.Listen_steps n l pc a)) <> LPanic).
Proof.
  split; [intros tty; split; constructor|].
  split; [exact keeps_Open|].
  split; [exact keeps_Close|].
  split; [exact keeps_Enable|].
  split; [exact keeps_Write|].
  split; [exact keeps_read_turn | exact framed_Listen_steps].
Qed.

Lemma asustorLCD_listen_never_panics_witness :
  fst (fst (AsustorLCD.Listen_steps 4 (fun _ _ => true) LTest
              (AsustorLCD.set_btnC [[B 240; B 1; B 128; B 2; B 115]]
                 asustorLCD_open)))
  <> LPanic.
Proof.
  apply (proj2 (proj2 (proj2 (proj2 (proj2 (proj2
           asustorLCD_listen_never_panics))))) 4 (fun _ _ => true) LTest
           (AsustorLCD.set_btnC [[B 240; B 1; B 128; B 2; B 115]]
              asustorLCD_open)).
  - split; repeat constructor.
  - discriminate.
Defined.
